(** * Attention layers of model/layers/Attention.py

    A shallow embedding of the tensor programs of [Attention.py]
    ([MultiHeadAttention], [SelfAttention], [HierarchicalTemporalAttention],
    [TransformerEncoder], [TransformerDecoderLayer], [TransformerDecoder])
    and the properties of their [forward] methods.

    - A tensor is what the runtime stores: a shape and a contiguous row-major
      buffer.  [view] re-reads the same buffer under another shape.
    - Scalars are real numbers; [exp] and [sqrt] are those of the Reals
      library.  An integer or boolean mask is a tensor of [Z].
    - An operation that raises [RuntimeError] on a shape mismatch returns
      [None]; the [forward] methods are written in the error monad.
    - The random keep-masks drawn by [nn.Dropout] are an explicit argument.
    - The methods are given twice: as functions of tensor values, and as
      computations on the runtime's store, where tensors and parameters are
      handles on buffers; the two are proved to agree. *)

From Stdlib Require Import List Arith Lia ZArith Bool.
From Stdlib Require Import Reals Lra.
Import ListNotations.

Set Implicit Arguments.

(** ** The error monad *)

Definition res (A : Type) : Type := option A.

Definition bind {A B : Type} (c : res A) (k : A -> res B) : res B :=
  match c with
  | Some a => k a
  | None => None
  end.

Declare Scope res_scope.
Delimit Scope res_scope with res.
Notation "x <- c ;; k" := (bind c (fun x => k))
  (at level 61, c at next level, right associativity) : res_scope.
Notation "' p <- c ;; k" := (bind c (fun x => let 'p := x in k))
  (at level 61, p pattern, c at next level, right associativity) : res_scope.
Open Scope res_scope.

(** ** Buffers *)

Class Zero (A : Type) : Type := zero : A.
#[export] Instance Zero_R : Zero R := 0%R.
#[export] Instance Zero_Z : Zero Z := 0%Z.
#[export] Instance Zero_nat : Zero nat := 0.

Section Buffers.
Context {A : Type}.

(** [chunk n k l]: the first [n] consecutive blocks of [k] elements. *)
Fixpoint chunk (n k : nat) (l : list A) : list (list A) :=
  match n with
  | 0 => []
  | S n' => firstn k l :: chunk n' k (skipn k l)
  end.

(** [tab2 r c f]: the row-major buffer of the [r] x [c] matrix [f i j]. *)
Definition tab2 (r c : nat) (f : nat -> nat -> A) : list A :=
  flat_map (fun i => map (f i) (seq 0 c)) (seq 0 r).

Definition zip_with {B C : Type} (f : A -> B -> C) (u : list A) (v : list B)
  : list C :=
  map (fun ab => f (fst ab) (snd ab)) (combine u v).
End Buffers.

(** ** Tensors *)

Record Tensor (A : Type) : Type := mkTensor {
  shape : list nat;
  data : list A
}.
Arguments mkTensor {A} _ _.

Definition numel (sh : list nat) : nat := fold_right Nat.mul 1 sh.

(** The runtime's invariant: the buffer holds one element per index. *)
Definition wf {A : Type} (t : Tensor A) : Prop :=
  length (data t) = numel (shape t).

Definition shape_eqb (s1 s2 : list nat) : bool :=
  if list_eq_dec Nat.eq_dec s1 s2 then true else false.

(** [split_last sh = (lead, d)] when [sh = lead ++ [d]]. *)
Fixpoint split_last (sh : list nat) : res (list nat * nat) :=
  match sh with
  | [] => None
  | [d] => Some ([], d)
  | n :: sh' =>
      match split_last sh' with
      | Some (lead, d) => Some (n :: lead, d)
      | None => None
      end
  end.

(** [split_last2 sh = (lead, p, q)] when [sh = lead ++ [p; q]]. *)
Fixpoint split_last2 (sh : list nat) : res (list nat * nat * nat) :=
  match sh with
  | [] => None
  | [_] => None
  | [p; q] => Some ([], p, q)
  | n :: sh' =>
      match split_last2 sh' with
      | Some (lead, p, q) => Some (n :: lead, p, q)
      | None => None
      end
  end.

Section Layout.
Context {A : Type} `{Zero A}.

(** Element [(i, j)] of the row-major [_ x c] matrix stored in [m]. *)
Definition at2 (c : nat) (m : list A) (i j : nat) : A :=
  nth (i * c + j) m zero.

(** Element [(i, j, k)] of a rank-3 tensor. *)
Definition get3 (t : Tensor A) (i j k : nat) : A :=
  match shape t with
  | [_; b; c] => nth ((i * b + j) * c + k) (data t) zero
  | _ => zero
  end.

(** [x.size(0)] *)
Definition size0 (t : Tensor A) : res nat :=
  match shape t with
  | n :: _ => Some n
  | [] => None
  end.

(** [x.view(sh)]: the same buffer under the shape [sh]. *)
Definition view (sh : list nat) (t : Tensor A) : res (Tensor A) :=
  if numel sh =? numel (shape t) then Some (mkTensor sh (data t)) else None.

(** [x.view(a, -1, c)]: the middle size is inferred; it is ambiguous or
    invalid when [a * c = 0]. *)
Definition view_infer (a c : nat) (t : Tensor A) : res (Tensor A) :=
  let n := numel (shape t) in
  if a * c =? 0 then None
  else if n mod (a * c) =? 0
       then Some (mkTensor [a; n / (a * c); c] (data t))
       else None.

(** [x.transpose(-2, -1)], materialised. *)
Definition mat_transpose (p q : nat) (m : list A) : list A :=
  tab2 q p (fun j i => at2 q m i j).

Definition transpose_last2 (t : Tensor A) : res (Tensor A) :=
  '(lead, p, q) <- split_last2 (shape t) ;;
  Some (mkTensor (lead ++ [q; p])
          (concat (map (mat_transpose p q)
                     (chunk (numel lead) (p * q) (data t))))).

(** [x.transpose(1, 2)] of a rank-3 tensor. *)
Definition transpose12 (t : Tensor A) : res (Tensor A) :=
  match shape t with
  | [_; _; _] => transpose_last2 t
  | _ => None
  end.

(** [x.permute(0, 1, 3, 2)] of a rank-4 tensor. *)
Definition permute0132 (t : Tensor A) : res (Tensor A) :=
  match shape t with
  | [_; _; _; _] => transpose_last2 t
  | _ => None
  end.

(** [x.contiguous()]: buffers are always materialised here. *)
Definition contiguous (t : Tensor A) : Tensor A := t.

(** [F.pad(x, (0, 0, p, p), 'constant', 0)]: nothing on the last axis,
    [p] zero rows before and after on the axis before it. *)
Definition pad_mat (p d : nat) (m : list A) : list A :=
  repeat zero (p * d) ++ m ++ repeat zero (p * d).

Definition pad_time (p : nat) (t : Tensor A) : res (Tensor A) :=
  '(lead, l, d) <- split_last2 (shape t) ;;
  Some (mkTensor (lead ++ [p + l + p; d])
          (concat (map (pad_mat p d) (chunk (numel lead) (l * d) (data t))))).

(** [x.unfold(1, w, 1)] of a rank-3 tensor [(b, l, d)]: the result has
    shape [(b, l - w + 1, d, w)] and entry [(i, t, j, k)] is
    [x[i, t + k, j]]; the runtime raises when [w] exceeds [l]. *)
Definition unfold_mat (l d w : nat) (m : list A) : list A :=
  flat_map (fun t => tab2 d w (fun j k => at2 d m (t + k) j))
           (seq 0 (l - w + 1)).

Definition unfold1 (w : nat) (t : Tensor A) : res (Tensor A) :=
  match shape t with
  | [b; l; d] =>
      if w <=? l
      then Some (mkTensor [b; l - w + 1; d; w]
                   (concat (map (unfold_mat l d w) (chunk b (l * d) (data t)))))
      else None
  | _ => None
  end.

(** [torch.cat(ts, dim=-1)]: row [r] of the result is the concatenation
    of the rows [r] of the operands, which agree on the leading axes. *)
Definition cat_rows (n : nat) (parts : list (nat * list A)) : list A :=
  flat_map (fun r =>
              flat_map (fun part => nth r (chunk n (fst part) (snd part)) [])
                       parts)
           (seq 0 n).

Fixpoint cat_parts (lead : list nat) (ts : list (Tensor A))
  : res (list (nat * list A)) :=
  match ts with
  | [] => Some []
  | t :: ts' =>
      '(lead', d) <- split_last (shape t) ;;
      if shape_eqb lead lead'
      then (ps <- cat_parts lead ts' ;; Some ((d, data t) :: ps))
      else None
  end.

Definition cat_last (ts : list (Tensor A)) : res (Tensor A) :=
  match ts with
  | [] => None
  | t :: _ =>
      '(lead, _) <- split_last (shape t) ;;
      ps <- cat_parts lead ts ;;
      Some (mkTensor (lead ++ [fold_right Nat.add 0 (map fst ps)])
              (cat_rows (numel lead) ps))
  end.
End Layout.

(** ** Broadcasting a mask

    [unravel sh i] is the multi-index of the flat position [i] under the
    shape [sh], [ravel sh idx] the flat position of a multi-index. *)

Fixpoint unravel (sh : list nat) (i : nat) : list nat :=
  match sh with
  | [] => []
  | _ :: sh' => i / numel sh' :: unravel sh' (i mod numel sh')
  end.

Fixpoint ravel (sh idx : list nat) : nat :=
  match sh, idx with
  | _ :: sh', j :: idx' => j * numel sh' + ravel sh' idx'
  | _, _ => 0
  end.

(** A mask axis matches the target axis when it is equal to it or is 1. *)
Fixpoint broadcastable (ms sh : list nat) : bool :=
  match ms, sh with
  | [], [] => true
  | m :: ms', s :: sh' => ((m =? s) || (m =? 1)) && broadcastable ms' sh'
  | _, _ => false
  end.

Definition broadcast_to {A : Type} `{Zero A} (sh : list nat) (t : Tensor A)
  : res (Tensor A) :=
  let ms := repeat 1 (length sh - length (shape t)) ++ shape t in
  if broadcastable ms sh
  then Some (mkTensor sh
               (map (fun i =>
                       nth (ravel ms (zip_with (fun m j => if m =? 1 then 0 else j)
                                               ms (unravel sh i)))
                           (data t) zero)
                    (seq 0 (numel sh))))
  else None.

(** ** Arithmetic on tensors of reals *)

Local Open Scope R_scope.

Definition rsum (l : list R) : R := fold_right Rplus 0 l.

(** The fill value [-1e9] of [masked_fill]. *)
Definition neg_big : R := - 1000000000.

(** [scores.masked_fill(mask == 0, v)] for a mask that broadcasts to the
    shape of the scores, the mask invariant of the data model.  Any other
    mask is an error here; the runtime raises on it as well unless the
    scores can in turn be expanded to the mask. *)
Definition masked_fill (s : Tensor R) (mask : Tensor Z) (v : R)
  : res (Tensor R) :=
  m <- broadcast_to (shape s) mask ;;
  Some (mkTensor (shape s)
          (zip_with (fun x b => if (b =? 0)%Z then v else x) (data s) (data m))).

(** [F.softmax(x, dim=-1)], over the reals.  The runtime rounds these
    values to its floating-point format, where a small weight can underflow
    to 0: the statements below bound a weight by [0 <= w <= 1]. *)
Definition softmax_row (r : list R) : list R :=
  map (fun x => exp x / rsum (map exp r)) r.

Definition softmax_last (t : Tensor R) : res (Tensor R) :=
  '(lead, d) <- split_last (shape t) ;;
  Some (mkTensor (shape t)
          (concat (map softmax_row (chunk (numel lead) d (data t))))).

(** [torch.matmul(a, b)] for operands with the same leading axes:
    a batch of matrix products. *)
Definition mat_mul (p q r : nat) (a b : list R) : list R :=
  tab2 p r (fun i j =>
              rsum (map (fun k => at2 q a i k * at2 r b k j) (seq 0 q))).

Definition matmul (a b : Tensor R) : res (Tensor R) :=
  '(la, p, q) <- split_last2 (shape a) ;;
  '(lb, q', r) <- split_last2 (shape b) ;;
  if shape_eqb la lb && (q =? q')%nat
  then Some (mkTensor (la ++ [p; r])
               (concat (zip_with (mat_mul p q r)
                          (chunk (numel la) (p * q) (data a))
                          (chunk (numel la) (q * r) (data b)))))
  else None.

(** [torch.bmm(a, b)]: both operands have rank 3. *)
Definition bmm (a b : Tensor R) : res (Tensor R) :=
  match shape a, shape b with
  | [_; _; _], [_; _; _] => matmul a b
  | _, _ => None
  end.

(** [a + b] for operands of one shape, as the residual sums and the sums
    with an optional input of the main input's shape are.  Operands of
    different shapes are an error here; the runtime raises on them as well
    unless they can be expanded to a common shape. *)
Definition add (a b : Tensor R) : res (Tensor R) :=
  if shape_eqb (shape a) (shape b)
  then Some (mkTensor (shape a) (zip_with Rplus (data a) (data b)))
  else None.

(** [a / c] for a scalar [c]. *)
Definition div_scalar (a : Tensor R) (c : R) : Tensor R :=
  mkTensor (shape a) (map (fun x => x / c) (data a)).

(** [torch.mean(x, dim=2)] of a rank-4 tensor. *)
Definition mean_rows (w d : nat) (m : list R) : list R :=
  map (fun j => rsum (map (fun k => at2 d m k j) (seq 0 w)) / INR w) (seq 0 d).

Definition mean_dim2 (t : Tensor R) : res (Tensor R) :=
  match shape t with
  | [b; l; w; d] =>
      Some (mkTensor [b; l; d]
              (concat (map (mean_rows w d) (chunk (b * l) (w * d) (data t)))))
  | _ => None
  end.

(** [nn.ReLU] *)
Definition relu (t : Tensor R) : Tensor R :=
  mkTensor (shape t) (map (Rmax 0) (data t)).

(** ** Parameterised layers of the runtime *)

(** [nn.Linear(in_features, out_features)]: [y = x W^T + b] on the last
    axis. *)
Record Linear : Type := mkLinear {
  in_features : nat;
  out_features : nat;
  weight : list (list R);
  lbias : list R
}.

Definition dot (u v : list R) : R := rsum (zip_with Rmult u v).

Definition linear_row (l : Linear) (x : list R) : list R :=
  map (fun o => dot x (nth o (weight l) []) + nth o (lbias l) 0)
      (seq 0 (out_features l)).

Definition linear (l : Linear) (x : Tensor R) : res (Tensor R) :=
  '(lead, d) <- split_last (shape x) ;;
  if (d =? in_features l)%nat
  then Some (mkTensor (lead ++ [out_features l])
               (concat (map (linear_row l) (chunk (numel lead) d (data x)))))
  else None.

(** [nn.LayerNorm(normalized_shape)] over the last axis, with its affine
    scale and shift. *)
Record LayerNorm : Type := mkLayerNorm {
  normalized_shape : nat;
  ln_weight : list R;
  ln_bias : list R;
  eps : R
}.

Definition layer_norm_row (ln : LayerNorm) (x : list R) : list R :=
  let n := INR (length x) in
  let mu := rsum x / n in
  let var := rsum (map (fun v => (v - mu) * (v - mu)) x) / n in
  map (fun i => (nth i x 0 - mu) / sqrt (var + eps ln) * nth i (ln_weight ln) 0
                + nth i (ln_bias ln) 0)
      (seq 0 (normalized_shape ln)).

Definition layer_norm (ln : LayerNorm) (x : Tensor R) : res (Tensor R) :=
  '(lead, d) <- split_last (shape x) ;;
  if (d =? normalized_shape ln)%nat
  then Some (mkTensor (shape x)
               (concat (map (layer_norm_row ln) (chunk (numel lead) d (data x)))))
  else None.

(** [nn.Dropout(p)].  In training mode with [p <> 0] each element is kept
    with probability [1 - p] and scaled by [1 / (1 - p)], otherwise the
    input is returned.  [keep] is the mask the runtime draws for the call. *)
Record Dropout : Type := mkDropout {
  p : R;
  training : bool
}.

Definition dropout (d : Dropout) (keep : nat -> bool) (x : Tensor R)
  : Tensor R :=
  if training d
  then if Req_EM_T (p d) 0
       then x
       else mkTensor (shape x)
              (zip_with (fun i v => if keep i then v / (1 - p d) else 0)
                        (seq 0 (length (data x))) (data x))
  else x.

(** The source of the keep-masks: one mask per call site, call sites named
    by a path (layer index, position in the method). *)
Definition rng : Type := list nat -> nat -> bool.

Definition draw (r : rng) (k : nat) : nat -> bool := r [k].
Definition sub (r : rng) (k : nat) : rng := fun path => r (k :: path).

(** [a // b] on non-negative integers; Python raises on [b = 0]. *)
Definition floordiv (a b : nat) : res nat :=
  if (b =? 0)%nat then None else Some (a / b)%nat.

(** [mapM f l]: run [f] on the elements of [l] in order, stopping at the
    first error. *)
Fixpoint mapM {A B : Type} (f : A -> res B) (l : list A) : res (list B) :=
  match l with
  | [] => Some []
  | a :: l' => b <- f a ;; bs <- mapM f l' ;; Some (b :: bs)
  end.

(** [if mask is not None: scores = scores.masked_fill(mask == 0, -1e9)],
    the same statement in both attention classes. *)
Definition apply_mask (scores : Tensor R) (mask : option (Tensor Z))
  : res (Tensor R) :=
  match mask with
  | Some m => masked_fill scores m neg_big
  | None => Some scores
  end.

(** ** class MultiHeadAttention *)

Module MultiHeadAttention.

Record t : Type := mk {
  num_heads : nat;
  d_model : nat;
  query_linear : Linear;
  key_linear : Linear;
  value_linear : Linear;
  output_linear : Linear
}.

(** [x.view(batch_size * self.num_heads, -1, self.d_model // self.num_heads)] *)
Definition split_heads {A : Type} `{Zero A} (m : t) (batch_size : nat)
    (x : Tensor A) : res (Tensor A) :=
  dh <- floordiv (d_model m) (num_heads m) ;;
  view_infer (batch_size * num_heads m) dh x.

(** The linear projections and the reshape to heads. *)
Definition heads (m : t) (query key value : Tensor R)
  : res (Tensor R * Tensor R * Tensor R) :=
  batch_size <- size0 query ;;
  query <- linear (query_linear m) query ;;
  key <- linear (key_linear m) key ;;
  value <- linear (value_linear m) value ;;
  query <- split_heads m batch_size query ;;
  key <- split_heads m batch_size key ;;
  value <- split_heads m batch_size value ;;
  Some (query, key, value).

(** The scaled attention scores before the mask. *)
Definition raw_scores (m : t) (query key : Tensor R) : res (Tensor R) :=
  kt <- transpose12 key ;;
  scores <- bmm query kt ;;
  dh <- floordiv (d_model m) (num_heads m) ;;
  Some (div_scalar scores (sqrt (INR dh))).

(** The attention weights: [softmax(scores, dim=-1)]. *)
Definition weights (m : t) (query key value : Tensor R)
    (mask : option (Tensor Z)) : res (Tensor R) :=
  '(query, key, value) <- heads m query key value ;;
  scores <- raw_scores m query key ;;
  scores <- apply_mask scores mask ;;
  softmax_last scores.

Definition forward (m : t) (query key value : Tensor R)
    (mask : option (Tensor Z)) : res (Tensor R) :=
  batch_size <- size0 query ;;
  '(query, key, value) <- heads m query key value ;;
  scores <- raw_scores m query key ;;
  scores <- apply_mask scores mask ;;
  weights <- softmax_last scores ;;
  attended <- bmm weights value ;;
  attended <- view_infer batch_size (d_model m) attended ;;
  linear (output_linear m) attended.

End MultiHeadAttention.

(** ** class SelfAttention *)

Module SelfAttention.

Record t : Type := mk {
  hidden_dim : nat;
  num_heads : nat;
  head_dim : nat;
  linear_q : Linear;
  linear_k : Linear;
  linear_v : Linear;
  dropout_ : Dropout;
  linear_out : Linear
}.

(** The projections of lines 86-91: key, query (with the optional bias
    input) and value. *)
Definition project (m : t) (x : Tensor R) (bias : option (Tensor R))
  : res (Tensor R * Tensor R * Tensor R) :=
  k <- linear (linear_k m) x ;;
  q <- match bias with
       | Some b =>
           qx <- linear (linear_q m) x ;;
           qb <- linear (linear_q m) b ;;
           add qx qb
       | None => linear (linear_q m) x
       end ;;
  v <- linear (linear_v m) x ;;
  Some (k, q, v).

(** [x.view(batch_size, self.num_heads, seq_len, self.head_dim)] *)
Definition split_heads {A : Type} `{Zero A} (m : t) (batch_size seq_len : nat)
    (x : Tensor A) : res (Tensor A) :=
  view [batch_size; num_heads m; seq_len; head_dim m] x.

Definition raw_scores (m : t) (q k : Tensor R) : res (Tensor R) :=
  kt <- transpose_last2 k ;;
  scores <- matmul q kt ;;
  Some (div_scalar scores (sqrt (INR (head_dim m)))).

(** The attention weights after the softmax, before the dropout. *)
Definition weights (m : t) (x : Tensor R) (bias : option (Tensor R))
    (mask : option (Tensor Z)) : res (Tensor R) :=
  match shape x with
  | [batch_size; seq_len; _] =>
      '(k, q, v) <- project m x bias ;;
      k <- split_heads m batch_size seq_len k ;;
      q <- split_heads m batch_size seq_len q ;;
      scores <- raw_scores m q k ;;
      scores <- apply_mask scores mask ;;
      softmax_last scores
  | _ => None
  end.

(** Lines 94-113: the head split, the attention and the output layer. *)
Definition attend (m : t) (r : rng) (batch_size seq_len : nat)
    (k q v : Tensor R) (mask : option (Tensor Z))
  : res (Tensor R * Tensor R) :=
  k <- split_heads m batch_size seq_len k ;;
  q <- split_heads m batch_size seq_len q ;;
  v <- split_heads m batch_size seq_len v ;;
  scores <- raw_scores m q k ;;
  scores <- apply_mask scores mask ;;
  attn_weights <- softmax_last scores ;;
  let attn_weights := dropout (dropout_ m) (draw r 0) attn_weights in
  attn_output <- matmul attn_weights v ;;
  attn_output <- view [batch_size; seq_len; hidden_dim m] attn_output ;;
  attn_output <- linear (linear_out m) attn_output ;;
  let attn_output := dropout (dropout_ m) (draw r 1) attn_output in
  Some (attn_output, attn_weights).

Definition forward (m : t) (r : rng) (x : Tensor R) (bias : option (Tensor R))
    (mask : option (Tensor Z)) : res (Tensor R * Tensor R) :=
  match shape x with
  | [batch_size; seq_len; _] =>
      '(k, q, v) <- project m x bias ;;
      attend m r batch_size seq_len k q v mask
  | _ => None
  end.

End SelfAttention.

(** ** class HierarchicalTemporalAttention

    Window sizes are positive integers, so that [(window_size - 1) // 2] is
    the truncated subtraction and division of [nat]. *)

Module HierarchicalTemporalAttention.

Record t : Type := mk {
  hidden_dim : nat;
  num_heads : nat;
  window_sizes : list nat;
  num_levels : nat;
  local_attentions : list MultiHeadAttention.t;
  global_attention : MultiHeadAttention.t;
  linear_out : Linear;
  dropout_ : Dropout
}.

(** Lines 41-49: pad the time axis, take the sliding windows, bring each
    window to [(window_size, D)] and batch the windows. *)
Definition windows {A : Type} `{Zero A} (B T D window_size : nat)
    (x : Tensor A) : res (Tensor A) :=
  let pad_size := ((window_size - 1) / 2)%nat in
  padded_x <- pad_time pad_size x ;;
  unfolded_x <- unfold1 window_size padded_x ;;
  unfolded_x <- permute0132 unfolded_x ;;
  view [(B * T)%nat; window_size; D] (contiguous unfolded_x).

(** The body of the loop over the levels. *)
Definition level_features (m : t) (B T D : nat) (x : Tensor R) (level : nat)
  : res (Tensor R) :=
  window_size <- nth_error (window_sizes m) level ;;
  unfolded_x <- windows B T D window_size x ;;
  attention <- nth_error (local_attentions m) level ;;
  level_out <- MultiHeadAttention.forward attention
                 unfolded_x unfolded_x unfolded_x None ;;
  level_out <- view [B; T; window_size; D] level_out ;;
  mean_dim2 level_out.

Definition forward (m : t) (r : rng) (x : Tensor R)
    (bias : option (Tensor R)) (mask : option (Tensor Z))
  : res (Tensor R * option (Tensor R)) :=
  match shape x with
  | [B; T; D] =>
      local_features <- mapM (level_features m B T D x)
                          (seq 0 (num_levels m)) ;;
      global_out <- MultiHeadAttention.forward (global_attention m)
                      x x x None ;;
      combined <- cat_last (local_features ++ [global_out]) ;;
      out <- linear (linear_out m) combined ;;
      let out := dropout (dropout_ m) (draw r 0) out in
      Some (out, None)
  | _ => None
  end.

End HierarchicalTemporalAttention.

(** ** class TransformerEncoder

    [F.gelu] is the runtime's activation function; it is a parameter of the
    encoder's model. *)

Module TransformerEncoder.

Record layer : Type := mk_layer {
  temporal_attention : HierarchicalTemporalAttention.t;
  linear1 : Linear;
  linear2 : Linear;
  norm1 : LayerNorm;
  norm2 : LayerNorm
}.

Record t : Type := mk {
  layers : list layer;
  dropout_ : Dropout
}.

Section Forward.
Variable gelu : R -> R.

Definition F_gelu (x : Tensor R) : Tensor R :=
  mkTensor (shape x) (map gelu (data x)).

(** The body of [for layer in self.layers]. *)
Definition layer_forward (m : t) (r : rng) (l : layer) (x : Tensor R)
    (bias : option (Tensor R)) (mask : option (Tensor Z))
  : res (Tensor R) :=
  '(attn_out, _) <- HierarchicalTemporalAttention.forward
                      (temporal_attention l) (sub r 0) x bias mask ;;
  s <- add x (dropout (dropout_ m) (draw r 1) attn_out) ;;
  x <- layer_norm (norm1 l) s ;;
  h <- linear (linear1 l) x ;;
  ffn_out <- linear (linear2 l) (F_gelu h) ;;
  s <- add x (dropout (dropout_ m) (draw r 2) ffn_out) ;;
  layer_norm (norm2 l) s.

Fixpoint run_layers (m : t) (r : rng) (i : nat) (ls : list layer)
    (x : Tensor R) (bias : option (Tensor R)) (mask : option (Tensor Z))
  : res (Tensor R) :=
  match ls with
  | [] => Some x
  | l :: ls' =>
      x <- layer_forward m (sub r i) l x bias mask ;;
      run_layers m r (S i) ls' x bias mask
  end.

Definition forward (m : t) (r : rng) (x : Tensor R)
    (bias : option (Tensor R)) (mask : option (Tensor Z))
  : res (Tensor R * option (Tensor R)) :=
  x <- run_layers m r 0 (layers m) x bias mask ;;
  Some (x, None).
End Forward.

End TransformerEncoder.

(** ** class TransformerDecoderLayer *)

Module TransformerDecoderLayer.

(** [feed_forward] is the [nn.Sequential] of a linear layer, [nn.ReLU],
    a dropout, a linear layer and a dropout. *)
Record t : Type := mk {
  self_attention : MultiHeadAttention.t;
  self_attention_norm : LayerNorm;
  enc_attention : MultiHeadAttention.t;
  enc_attention_norm : LayerNorm;
  ff_linear1 : Linear;
  ff_dropout1 : Dropout;
  ff_linear2 : Linear;
  ff_dropout2 : Dropout;
  feed_forward_norm : LayerNorm;
  dropout_ : Dropout
}.

Definition feed_forward (m : t) (r : rng) (x : Tensor R) : res (Tensor R) :=
  h <- linear (ff_linear1 m) x ;;
  let h := dropout (ff_dropout1 m) (draw r 0) (relu h) in
  h <- linear (ff_linear2 m) h ;;
  Some (dropout (ff_dropout2 m) (draw r 1) h).

(** One residual cross-attention against a memory tensor:
    [enc_attention_norm(tgt2 + dropout(enc_attention(tgt2, mem, mem, mask)))]. *)
Definition cross (m : t) (keep : nat -> bool) (tgt2 mem : Tensor R)
    (memory_mask : option (Tensor Z)) : res (Tensor R) :=
  a <- MultiHeadAttention.forward (enc_attention m) tgt2 mem mem memory_mask ;;
  s <- add tgt2 (dropout (dropout_ m) keep a) ;;
  layer_norm (enc_attention_norm m) s.

Definition forward (m : t) (r : rng) (tgt memory : Tensor R)
    (memo2 : option (Tensor R)) (tgt_mask memory_mask : option (Tensor Z))
  : res (Tensor R) :=
  a <- MultiHeadAttention.forward (self_attention m) tgt tgt tgt tgt_mask ;;
  s <- add tgt (dropout (dropout_ m) (draw r 0) a) ;;
  tgt2 <- layer_norm (self_attention_norm m) s ;;
  tgt3 <- cross m (draw r 1) tgt2 memory memory_mask ;;
  tgt3 <- match memo2 with
          | Some memo2 =>
              tgt3_5 <- cross m (draw r 2) tgt2 memo2 memory_mask ;;
              s <- add tgt3 tgt3_5 ;;
              Some (div_scalar s 2)
          | None => Some tgt3
          end ;;
  f <- feed_forward m (sub r 3) tgt3 ;;
  s <- add tgt3 (dropout (dropout_ m) (draw r 4) f) ;;
  layer_norm (feed_forward_norm m) s.

End TransformerDecoderLayer.

(** ** class TransformerDecoder *)

Module TransformerDecoder.

Record t : Type := mk {
  num_layers : nat;
  layers : list TransformerDecoderLayer.t;
  norm_att1 : LayerNorm;
  norm_att2 : LayerNorm;
  norm_att3 : LayerNorm;
  norm_att : LayerNorm
}.

(** The body of [for i in range(self.num_layers)]. *)
Definition step (m : t) (r : rng) (memory : Tensor R)
    (memo2 embedding : option (Tensor R))
    (tgt_mask memory_mask : option (Tensor Z)) (tgt : Tensor R) (i : nat)
  : res (Tensor R) :=
  norm_tgt <- match embedding with
              | Some e => s <- add tgt e ;; layer_norm (norm_att m) s
              | None => layer_norm (norm_att m) tgt
              end ;;
  norm_memo1 <- layer_norm (norm_att m) memory ;;
  norm_memo2 <- match memo2 with
                | Some memo2 => layer_norm (norm_att m) memo2
                | None => Some norm_memo1
                end ;;
  layer <- nth_error (layers m) i ;;
  TransformerDecoderLayer.forward layer (sub r i) norm_tgt norm_memo1
    (Some norm_memo2) tgt_mask memory_mask.

Fixpoint run (m : t) (r : rng) (memory : Tensor R)
    (memo2 embedding : option (Tensor R))
    (tgt_mask memory_mask : option (Tensor Z)) (tgt : Tensor R)
    (idx : list nat) : res (Tensor R) :=
  match idx with
  | [] => Some tgt
  | i :: idx' =>
      tgt <- step m r memory memo2 embedding tgt_mask memory_mask tgt i ;;
      run m r memory memo2 embedding tgt_mask memory_mask tgt idx'
  end.

Definition forward (m : t) (r : rng) (tgt memory : Tensor R)
    (memo2 embedding : option (Tensor R))
    (tgt_mask memory_mask : option (Tensor Z)) : res (Tensor R) :=
  run m r memory memo2 embedding tgt_mask memory_mask tgt
      (seq 0 (num_layers m)).

End TransformerDecoder.


(** ** Configurations

    Dropout is disabled in evaluation mode, or when its rate is 0. *)

Definition dropout_off (d : Dropout) : Prop :=
  training d = false \/ p d = 0.

Definition hta_dropout_off (m : HierarchicalTemporalAttention.t) : Prop :=
  dropout_off (HierarchicalTemporalAttention.dropout_ m).

Definition encoder_dropout_off (m : TransformerEncoder.t) : Prop :=
  dropout_off (TransformerEncoder.dropout_ m) /\
  Forall (fun l => hta_dropout_off (TransformerEncoder.temporal_attention l))
         (TransformerEncoder.layers m).

Definition decoder_layer_dropout_off (m : TransformerDecoderLayer.t) : Prop :=
  dropout_off (TransformerDecoderLayer.dropout_ m) /\
  dropout_off (TransformerDecoderLayer.ff_dropout1 m) /\
  dropout_off (TransformerDecoderLayer.ff_dropout2 m).

Definition decoder_dropout_off (m : TransformerDecoder.t) : Prop :=
  Forall decoder_layer_dropout_off (TransformerDecoder.layers m).


(** ** A small configuration

    One head, one feature, window sizes 3, 5 and 7, one layer per stack,
    all modules in evaluation mode. *)

Definition lin (i o : nat) : Linear :=
  mkLinear i o (repeat (repeat 1 i) o) (repeat 0 o).

Definition ln1 : LayerNorm := mkLayerNorm 1 [1] [0] (1 / 100000).

Definition drop_eval : Dropout := mkDropout (1 / 2) false.
Definition drop_train : Dropout := mkDropout (1 / 2) true.

Definition mha1 : MultiHeadAttention.t :=
  MultiHeadAttention.mk 1 1 (lin 1 1) (lin 1 1) (lin 1 1) (lin 1 1).

Definition sa1 : SelfAttention.t :=
  SelfAttention.mk 1 1 1 (lin 1 1) (lin 1 1) (lin 1 1) drop_eval (lin 1 1).

Definition hta1 : HierarchicalTemporalAttention.t :=
  HierarchicalTemporalAttention.mk 1 1 [3; 5; 7]%nat 3 [mha1; mha1; mha1] mha1
    (lin 4 1) drop_eval.

Definition enc1 : TransformerEncoder.t :=
  TransformerEncoder.mk
    [TransformerEncoder.mk_layer hta1 (lin 1 4) (lin 4 1) ln1 ln1] drop_eval.

Definition dl1 : TransformerDecoderLayer.t :=
  TransformerDecoderLayer.mk mha1 ln1 mha1 ln1
    (lin 1 4) drop_eval (lin 4 1) drop_eval ln1 drop_eval.

Definition dec1 : TransformerDecoder.t :=
  TransformerDecoder.mk 1 [dl1] ln1 ln1 ln1 ln1.


(** Two keep-mask sources that disagree everywhere, an activation standing
    for [F.gelu], and a one-element input. *)
Definition keep_all : rng := fun _ _ => true.
Definition keep_none : rng := fun _ _ => false.
Definition act1 : R -> R := fun x => x.
Definition x111 : Tensor R := mkTensor [1; 1; 1]%nat [1].


(** ** Statements about attention weights *)

(** Every row of [w] along its last axis sums to 1. *)
Definition rows_sum_to_one (w : Tensor R) : Prop :=
  exists lead d,
    split_last (shape w) = Some (lead, d) /\
    forall i, (i < numel lead)%nat ->
              rsum (nth i (chunk (numel lead) d (data w)) []) = 1.

(** The post-softmax weight tensors of the module: those of
    [MultiHeadAttention] and [SelfAttention], and those of the local and
    global attention calls made by [HierarchicalTemporalAttention.forward]. *)
Inductive attention_weights : Tensor R -> Prop :=
| weights_mha m query key value mask w :
    MultiHeadAttention.weights m query key value mask = Some w ->
    attention_weights w
| weights_self m x bias mask w :
    SelfAttention.weights m x bias mask = Some w ->
    attention_weights w
| weights_local m B T D x level window_size unfolded_x attention w :
    shape x = [B; T; D] ->
    nth_error (HierarchicalTemporalAttention.window_sizes m) level
      = Some window_size ->
    HierarchicalTemporalAttention.windows B T D window_size x
      = Some unfolded_x ->
    nth_error (HierarchicalTemporalAttention.local_attentions m) level
      = Some attention ->
    MultiHeadAttention.weights attention unfolded_x unfolded_x unfolded_x None
      = Some w ->
    attention_weights w
| weights_global m x w :
    MultiHeadAttention.weights
      (HierarchicalTemporalAttention.global_attention m) x x x None = Some w ->
    attention_weights w.

(** [masked_scores s mask s' w]: in a forward pass of [MultiHeadAttention]
    or [SelfAttention] called with the mask [mask], [s] is the tensor of
    scaled scores, [s'] the scores after [masked_fill] and [w] the softmax
    of [s']. *)
Inductive masked_scores
  : Tensor R -> Tensor Z -> Tensor R -> Tensor R -> Prop :=
| masked_mha m query key value mask q k v s s' w :
    MultiHeadAttention.heads m query key value = Some (q, k, v) ->
    MultiHeadAttention.raw_scores m q k = Some s ->
    apply_mask s (Some mask) = Some s' ->
    softmax_last s' = Some w ->
    MultiHeadAttention.weights m query key value (Some mask) = Some w ->
    masked_scores s mask s' w
| masked_self m x bias mask batch_size seq_len hidden k q v k' q' s s' w :
    shape x = [batch_size; seq_len; hidden] ->
    SelfAttention.project m x bias = Some (k, q, v) ->
    SelfAttention.split_heads m batch_size seq_len k = Some k' ->
    SelfAttention.split_heads m batch_size seq_len q = Some q' ->
    SelfAttention.raw_scores m q' k' = Some s ->
    apply_mask s (Some mask) = Some s' ->
    softmax_last s' = Some w ->
    SelfAttention.weights m x bias (Some mask) = Some w ->
    masked_scores s mask s' w.


(** A two-step input and a mask that hides the second key from the first
    query. *)
Definition x121 : Tensor R := mkTensor [1; 2; 1]%nat [1; 1].
Definition mask122 : Tensor Z := mkTensor [1; 2; 2]%nat [1; 0; 1; 1]%Z.


(** A labelled input with three timesteps of two features. *)
Definition x132 : Tensor nat :=
  mkTensor [1; 3; 2]%nat [11; 12; 21; 22; 31; 32]%nat.


(** ** Modules as their constructors build them *)

Definition linear_dims (l : Linear) (i o : nat) : Prop :=
  in_features l = i /\ out_features l = o.

(** The invariant of the data model: a positive feature width that the
    head count divides. *)
Definition heads_divide (H D : nat) : Prop :=
  (0 < H)%nat /\ (0 < D)%nat /\ (D mod H = 0)%nat.

(** [MultiHeadAttention(num_heads, d_model)] *)
Definition mha_built (m : MultiHeadAttention.t) (H D : nat) : Prop :=
  MultiHeadAttention.num_heads m = H /\
  MultiHeadAttention.d_model m = D /\
  linear_dims (MultiHeadAttention.query_linear m) D D /\
  linear_dims (MultiHeadAttention.key_linear m) D D /\
  linear_dims (MultiHeadAttention.value_linear m) D D /\
  linear_dims (MultiHeadAttention.output_linear m) D D.

(** [SelfAttention(hidden_dim, num_heads, dropout)] *)
Definition self_built (m : SelfAttention.t) (H D : nat) : Prop :=
  SelfAttention.hidden_dim m = D /\
  SelfAttention.num_heads m = H /\
  SelfAttention.head_dim m = (D / H)%nat /\
  linear_dims (SelfAttention.linear_q m) D D /\
  linear_dims (SelfAttention.linear_k m) D D /\
  linear_dims (SelfAttention.linear_v m) D D /\
  linear_dims (SelfAttention.linear_out m) D D.

(** [HierarchicalTemporalAttention(hidden_dim, num_heads, dropout,
    window_sizes, num_levels)], with an odd window size for each level. *)
Definition hta_built (m : HierarchicalTemporalAttention.t) (H D : nat) : Prop :=
  HierarchicalTemporalAttention.hidden_dim m = D /\
  HierarchicalTemporalAttention.num_heads m = H /\
  length (HierarchicalTemporalAttention.local_attentions m)
    = HierarchicalTemporalAttention.num_levels m /\
  Forall (fun a => mha_built a H D)
         (HierarchicalTemporalAttention.local_attentions m) /\
  mha_built (HierarchicalTemporalAttention.global_attention m) H D /\
  linear_dims (HierarchicalTemporalAttention.linear_out m)
    (D * (HierarchicalTemporalAttention.num_levels m + 1))%nat D.

Definition hta_windows_odd (m : HierarchicalTemporalAttention.t) : Prop :=
  (HierarchicalTemporalAttention.num_levels m
   <= length (HierarchicalTemporalAttention.window_sizes m))%nat /\
  Forall (fun w => Nat.odd w = true)
         (firstn (HierarchicalTemporalAttention.num_levels m)
                 (HierarchicalTemporalAttention.window_sizes m)).

(** [TransformerEncoder(hidden_dim, num_layers, num_heads, dropout,
    window_sizes)] *)
Definition encoder_layer_built (l : TransformerEncoder.layer) (H D : nat)
  : Prop :=
  hta_built (TransformerEncoder.temporal_attention l) H D /\
  hta_windows_odd (TransformerEncoder.temporal_attention l) /\
  linear_dims (TransformerEncoder.linear1 l) D (4 * D)%nat /\
  linear_dims (TransformerEncoder.linear2 l) (4 * D)%nat D /\
  normalized_shape (TransformerEncoder.norm1 l) = D /\
  normalized_shape (TransformerEncoder.norm2 l) = D.

Definition encoder_built (m : TransformerEncoder.t) (H D : nat) : Prop :=
  Forall (fun l => encoder_layer_built l H D) (TransformerEncoder.layers m).

(** [TransformerDecoderLayer(num_heads, d_model, d_ff, dropout)] *)
Definition decoder_layer_built (m : TransformerDecoderLayer.t) (H D : nat)
  : Prop :=
  mha_built (TransformerDecoderLayer.self_attention m) H D /\
  mha_built (TransformerDecoderLayer.enc_attention m) H D /\
  normalized_shape (TransformerDecoderLayer.self_attention_norm m) = D /\
  normalized_shape (TransformerDecoderLayer.enc_attention_norm m) = D /\
  normalized_shape (TransformerDecoderLayer.feed_forward_norm m) = D /\
  (exists d_ff,
      linear_dims (TransformerDecoderLayer.ff_linear1 m) D d_ff /\
      linear_dims (TransformerDecoderLayer.ff_linear2 m) d_ff D).

(** [TransformerDecoder(num_layers, num_heads, d_model, d_ff, dropout)] *)
Definition decoder_built (m : TransformerDecoder.t) (H D : nat) : Prop :=
  length (TransformerDecoder.layers m) = TransformerDecoder.num_layers m /\
  Forall (fun l => decoder_layer_built l H D) (TransformerDecoder.layers m) /\
  normalized_shape (TransformerDecoder.norm_att m) = D.

(** An optional tensor argument of a given shape, and an optional mask that
    broadcasts to the shape of the scores. *)
Definition opt_shape {A : Type} (sh : list nat) (o : option (Tensor A)) : Prop :=
  match o with
  | Some t => shape t = sh
  | None => True
  end.

Definition mask_for (sh : list nat) (mask : option (Tensor Z)) : Prop :=
  match mask with
  | Some t =>
      broadcastable (repeat 1%nat (length sh - length (shape t)) ++ shape t) sh
      = true
  | None => True
  end.


(** [sa1] in training mode. *)
Definition sa1_train : SelfAttention.t :=
  SelfAttention.mk 1 1 1 (lin 1 1) (lin 1 1) (lin 1 1) drop_train (lin 1 1).


(** An empty batch of one-step, one-feature sequences. *)
Definition x011 : Tensor R := mkTensor [0; 1; 1]%nat [].


(** ** The head split as section 4.1 of the specification words it

    "Reshape each into (B·H, T, D/H) by splitting the feature axis into H
    heads and folding heads into the batch axis": head [h] of batch item
    [b] holds, at time [t], the features [h·D/H .. (h+1)·D/H - 1] of
    timestep [t]; the inverse brings the heads back to [(B, T, D)].  These
    two definitions follow the specification, not the code; they are
    compared with the [view] of [MultiHeadAttention.forward]. *)

Definition spec_split_heads {A : Type} `{Zero A} (H : nat) (x : Tensor A)
  : res (Tensor A) :=
  match shape x with
  | [B; T; D] =>
      dh <- floordiv D H ;;
      Some (mkTensor [(B * H)%nat; T; dh]
              (flat_map
                 (fun n =>
                    tab2 T dh
                      (fun t j =>
                         nth (((n / H) * T + t) * D + (n mod H) * dh + j)%nat
                             (data x) zero))
                 (seq 0 (B * H))))
  | _ => None
  end.

Definition spec_merge_heads {A : Type} `{Zero A} (H B : nat) (x : Tensor A)
  : res (Tensor A) :=
  match shape x with
  | [_; T; dh] =>
      Some (mkTensor [B; T; (H * dh)%nat]
              (flat_map
                 (fun b =>
                    tab2 T (H * dh)
                      (fun t c =>
                         nth (((b * H + c / dh) * T + t) * dh + c mod dh)%nat
                             (data x) zero))
                 (seq 0 B)))
  | _ => None
  end.

(** The algorithm of section 4.1 with these two reshapes. *)
Definition spec_attend (m : MultiHeadAttention.t) (query key value : Tensor R)
    (mask : option (Tensor Z)) : res (Tensor R) :=
  batch_size <- size0 query ;;
  query <- linear (MultiHeadAttention.query_linear m) query ;;
  key <- linear (MultiHeadAttention.key_linear m) key ;;
  value <- linear (MultiHeadAttention.value_linear m) value ;;
  query <- spec_split_heads (MultiHeadAttention.num_heads m) query ;;
  key <- spec_split_heads (MultiHeadAttention.num_heads m) key ;;
  value <- spec_split_heads (MultiHeadAttention.num_heads m) value ;;
  scores <- MultiHeadAttention.raw_scores m query key ;;
  scores <- apply_mask scores mask ;;
  weights <- softmax_last scores ;;
  attended <- bmm weights value ;;
  attended <- spec_merge_heads (MultiHeadAttention.num_heads m) batch_size
                attended ;;
  linear (MultiHeadAttention.output_linear m) attended.

(** Two heads over two features; the query and key projections are zero, so
    that every query attends uniformly, and the value and output
    projections are the identity. *)
Definition lin_zero2 : Linear := mkLinear 2 2 [[0; 0]; [0; 0]] [0; 0].
Definition lin_id2 : Linear := mkLinear 2 2 [[1; 0]; [0; 1]] [0; 0].

Definition mha2 : MultiHeadAttention.t :=
  MultiHeadAttention.mk 2 2 lin_zero2 lin_zero2 lin_id2 lin_id2.

(** [SelfAttention(hidden_dim=2, num_heads=2, dropout)] in evaluation mode
    with the projection layers of [mha2]. *)
Definition sa2z : SelfAttention.t :=
  SelfAttention.mk 2 2 1 lin_zero2 lin_zero2 lin_id2 drop_eval lin_id2.

(** One batch item, two timesteps, two features: only feature 0 of
    timestep 0 is set. *)
Definition x122 : Tensor R := mkTensor [1; 2; 2]%nat [1; 0; 0; 0].

(** The same shape with the entry [(t, j)] labelled [10 t + j]. *)
Definition l122 : Tensor nat := mkTensor [1; 2; 2]%nat [0; 1; 10; 11]%nat.


(** ** Further configurations and accessors *)

(** Element [(i, j, k, l)] of a rank-4 tensor. *)
Definition get4 {A : Type} `{Zero A} (t : Tensor A) (i j k l : nat) : A :=
  match shape t with
  | [_; b; c; d] => nth ((((i * b + j) * c + k) * d + l)%nat) (data t) zero
  | _ => zero
  end.

(** [m] with the window sizes and local attentions of its [num_levels]
    levels only. *)
Definition hta_levels_only (m : HierarchicalTemporalAttention.t)
  : HierarchicalTemporalAttention.t :=
  HierarchicalTemporalAttention.mk
    (HierarchicalTemporalAttention.hidden_dim m)
    (HierarchicalTemporalAttention.num_heads m)
    (firstn (HierarchicalTemporalAttention.num_levels m)
            (HierarchicalTemporalAttention.window_sizes m))
    (HierarchicalTemporalAttention.num_levels m)
    (firstn (HierarchicalTemporalAttention.num_levels m)
            (HierarchicalTemporalAttention.local_attentions m))
    (HierarchicalTemporalAttention.global_attention m)
    (HierarchicalTemporalAttention.linear_out m)
    (HierarchicalTemporalAttention.dropout_ m).

(** [hta1] built with two window sizes for its three levels, as
    [TransformerEncoder(..., window_sizes=[3, 5])] builds it, and with an
    even window size. *)
Definition hta_short : HierarchicalTemporalAttention.t :=
  HierarchicalTemporalAttention.mk 1 1 [3; 5]%nat 3 [mha1; mha1; mha1] mha1
    (lin 4 1) drop_eval.

Definition hta_even : HierarchicalTemporalAttention.t :=
  HierarchicalTemporalAttention.mk 1 1 [3; 4; 7]%nat 3 [mha1; mha1; mha1] mha1
    (lin 4 1) drop_eval.

(** An empty sequence, an empty memory and a mask that allows everything. *)
Definition x101 : Tensor R := mkTensor [1; 0; 1]%nat [].
Definition ones111 : Tensor Z := mkTensor [1; 1; 1]%nat [1%Z].
Definition zeros122 : Tensor Z := mkTensor [1; 2; 2]%nat [0; 0; 1; 1]%Z.


(** Two heads over two features, all projections the identity. *)
Definition sa2 : SelfAttention.t :=
  SelfAttention.mk 2 2 1 lin_id2 lin_id2 lin_id2 drop_eval lin_id2.


(** ** Batch items

    Item [b] of a rank-3 tensor, as a batch of one. *)
Definition batch_item {A : Type} (b : nat) (x : Tensor A) : Tensor A :=
  match shape x with
  | [B; T; D] => mkTensor [1%nat; T; D] (nth b (chunk B (T * D) (data x)) [])
  | _ => x
  end.

(** The buffer that [MultiHeadAttention.forward] computes without a mask
    from the buffers of a query of shape [(n, Tq, D)] and of a key and a
    value of shape [(n, Tk, D)] (lemma [mha_forward_buffer]). *)
Definition mha_buffer (m : MultiHeadAttention.t) (n Tq Tk : nat)
    (dq dk dv : list R) : list R :=
  let H := MultiHeadAttention.num_heads m in
  let D := MultiHeadAttention.d_model m in
  let dh := (D / H)%nat in
  let Q := concat (map (linear_row (MultiHeadAttention.query_linear m))
                       (chunk (n * Tq) D dq)) in
  let K := concat (map (linear_row (MultiHeadAttention.key_linear m))
                       (chunk (n * Tk) D dk)) in
  let V := concat (map (linear_row (MultiHeadAttention.value_linear m))
                       (chunk (n * Tk) D dv)) in
  let KT := concat (map (mat_transpose Tk dh) (chunk (n * H) (Tk * dh) K)) in
  let S := map (fun x => x / sqrt (INR dh))
               (concat (zip_with (mat_mul Tq dh Tk)
                          (chunk (n * H) (Tq * dh) Q)
                          (chunk (n * H) (dh * Tk) KT))) in
  let W := concat (map softmax_row (chunk (n * H * Tq) Tk S)) in
  let A := concat (zip_with (mat_mul Tq Tk dh)
                     (chunk (n * H) (Tq * Tk) W)
                     (chunk (n * H) (Tk * dh) V)) in
  concat (map (linear_row (MultiHeadAttention.output_linear m))
              (chunk (n * Tq) D A)).


(** A batch of two items, one time step, one feature. *)
Definition x211 : Tensor R := mkTensor [2; 1; 1]%nat [1; 2].


(** A three-step input, and a mask for three queries and three keys. *)
Definition x131 : Tensor R := mkTensor [1; 3; 1]%nat [1; 1; 1].
Definition mask133 : Tensor Z :=
  mkTensor [1; 3; 3]%nat [1; 1; 1; 1; 1; 1; 1; 1; 1]%Z.


(** * The forward passes on the runtime's store

    A Python variable holds a reference to a tensor object, and the
    parameters of a module are tensor objects that the module refers to.
    This part gives the same [forward] methods on a store of buffers: a
    tensor is a handle (the address of its storage and a shape), an
    out-of-place operation reads its operands and allocates its result, a
    [view] returns a handle on the storage of its operand, and an in-place
    operation would write to the storage of its operand ([put]).  The
    methods are restated line by line from the source with these
    operations. *)

(** ** The store *)

Inductive cell : Type :=
| Reals (d : list R)
| Ints (d : list Z).

Definition heap : Type := list cell.

Record ref : Type := mkRef {
  addr : nat;
  rshape : list nat
}.

Definition contents (x : ref) (h : heap) : res (Tensor R) :=
  match nth_error h (addr x) with
  | Some (Reals d) => Some (mkTensor (rshape x) d)
  | _ => None
  end.

Definition mask_contents (x : ref) (h : heap) : res (Tensor Z) :=
  match nth_error h (addr x) with
  | Some (Ints d) => Some (mkTensor (rshape x) d)
  | _ => None
  end.

(** A computation on the store: it raises, or returns a result and the
    store it leaves. *)
Definition M (A : Type) : Type := heap -> option (A * heap).

Definition ret {A : Type} (a : A) : M A := fun h => Some (a, h).

Definition mbind {A B : Type} (c : M A) (k : A -> M B) : M B :=
  fun h => match c h with
           | Some (a, h') => k a h'
           | None => None
           end.

Definition fail {A : Type} : M A := fun _ => None.

(** Reading the store. *)
Definition ask {A : Type} (f : heap -> res A) : M A :=
  fun h => match f h with
           | Some a => Some (a, h)
           | None => None
           end.

Definition lift {A : Type} (o : res A) : M A := ask (fun _ => o).

Definition get (x : ref) : M (Tensor R) := ask (contents x).

(** Allocating the result of an out-of-place operation. *)
Definition new (t : Tensor R) : M ref :=
  fun h => Some (mkRef (length h) (shape t), h ++ [Reals (data t)]).

(** Writing through a handle, as an in-place operation ([x += y],
    [masked_fill_]) does. *)
Definition put (x : ref) (t : Tensor R) : M unit :=
  fun h => if (addr x <? length h)%nat
           then Some (tt, firstn (addr x) h ++ Reals (data t)
                            :: skipn (S (addr x)) h)
           else None.

Declare Scope heap_scope.
Delimit Scope heap_scope with heap.
Notation "x <- c ;; k" := (mbind c (fun x => k))
  (at level 61, c at next level, right associativity) : heap_scope.
Notation "' p <- c ;; k" := (mbind c (fun x => let 'p := x in k))
  (at level 61, p pattern, c at next level, right associativity) : heap_scope.
Local Open Scope heap_scope.

Fixpoint mapM_on {A B : Type} (f : A -> M B) (l : list A) : M (list B) :=
  match l with
  | [] => ret []
  | a :: l' => b <- f a ;; bs <- mapM_on f l' ;; ret (b :: bs)
  end.

(** ** Tensor operations on handles *)

(** An out-of-place operation of one or two operands: the result is a new
    buffer.  A transposed, permuted or unfolded tensor, which the runtime
    represents as a strided view, is materialised as in the first part, and
    so is a new buffer as well. *)
Definition out1 (f : Tensor R -> res (Tensor R)) (x : ref) : M ref :=
  t <- get x ;;
  y <- lift (f t) ;;
  new y.

Definition out2 (f : Tensor R -> Tensor R -> res (Tensor R)) (x y : ref)
  : M ref :=
  tx <- get x ;;
  ty <- get y ;;
  z <- lift (f tx ty) ;;
  new z.

(** An operation that never raises. *)
Definition tot (f : Tensor R -> Tensor R) : Tensor R -> res (Tensor R) :=
  fun t => Some (f t).

(** [x.view(..)]: a handle on the storage of [x] under the new shape. *)
Definition view_of (f : Tensor R -> res (Tensor R)) (x : ref) : M ref :=
  t <- get x ;;
  y <- lift (f t) ;;
  ret (mkRef (addr x) (shape y)).

(** [torch.cat(xs, dim=-1)] *)
Definition cat_on (xs : list ref) : M ref :=
  ts <- mapM_on get xs ;;
  y <- lift (cat_last ts) ;;
  new y.

(** [if mask is not None: scores = scores.masked_fill(mask == 0, -1e9)] *)
Definition apply_mask_on (scores : ref) (mask : option ref) : M ref :=
  match mask with
  | Some m =>
      s <- get scores ;;
      tm <- ask (mask_contents m) ;;
      y <- lift (masked_fill s tm neg_big) ;;
      new y
  | None => ret scores
  end.

(** [nn.Dropout]: the input itself when the dropout is not applied. *)
Definition dropout_on (d : Dropout) (keep : nat -> bool) (x : ref) : M ref :=
  if training d
  then if Req_EM_T (p d) 0
       then ret x
       else out1 (tot (dropout d keep)) x
  else ret x.

(** ** Layers with their parameters in the store *)

Module LinearRef.

Record t : Type := mk {
  in_features : nat;
  out_features : nat;
  weight : ref;
  bias : ref
}.

(** The parameter values of the layer in the store [h]: the rows of the
    [(out_features, in_features)] weight matrix and the bias vector. *)
Definition load (h : heap) (l : t) : res Linear :=
  (w <- contents (weight l) h ;;
   b <- contents (bias l) h ;;
   Some (mkLinear (in_features l) (out_features l)
           (chunk (out_features l) (in_features l) (data w)) (data b)))%res.

Definition forward (l : t) (x : ref) : M ref :=
  params <- ask (fun h => load h l) ;;
  out1 (linear params) x.

End LinearRef.

Module LayerNormRef.

Record t : Type := mk {
  normalized_shape : nat;
  weight : ref;
  bias : ref;
  eps : R
}.

Definition load (h : heap) (l : t) : res LayerNorm :=
  (w <- contents (weight l) h ;;
   b <- contents (bias l) h ;;
   Some (mkLayerNorm (normalized_shape l) (data w) (data b) (eps l)))%res.

Definition forward (l : t) (x : ref) : M ref :=
  params <- ask (fun h => load h l) ;;
  out1 (layer_norm params) x.

End LayerNormRef.

(** ** class MultiHeadAttention, on the store *)

Module MultiHeadAttentionRef.

Record t : Type := mk {
  num_heads : nat;
  d_model : nat;
  query_linear : LinearRef.t;
  key_linear : LinearRef.t;
  value_linear : LinearRef.t;
  output_linear : LinearRef.t
}.

Definition load (h : heap) (m : t) : res MultiHeadAttention.t :=
  (q <- LinearRef.load h (query_linear m) ;;
   k <- LinearRef.load h (key_linear m) ;;
   v <- LinearRef.load h (value_linear m) ;;
   o <- LinearRef.load h (output_linear m) ;;
   Some (MultiHeadAttention.mk (num_heads m) (d_model m) q k v o))%res.

Definition split_heads (m : t) (batch_size : nat) (x : ref) : M ref :=
  dh <- lift (floordiv (d_model m) (num_heads m)) ;;
  view_of (view_infer (batch_size * num_heads m) dh) x.

Definition heads (m : t) (query key value : ref) : M (ref * ref * ref) :=
  batch_size <- (q <- get query ;; lift (size0 q)) ;;
  query <- LinearRef.forward (query_linear m) query ;;
  key <- LinearRef.forward (key_linear m) key ;;
  value <- LinearRef.forward (value_linear m) value ;;
  query <- split_heads m batch_size query ;;
  key <- split_heads m batch_size key ;;
  value <- split_heads m batch_size value ;;
  ret (query, key, value).

Definition raw_scores (m : t) (query key : ref) : M ref :=
  kt <- out1 transpose12 key ;;
  scores <- out2 bmm query kt ;;
  dh <- lift (floordiv (d_model m) (num_heads m)) ;;
  out1 (tot (fun s => div_scalar s (sqrt (INR dh)))) scores.

Definition forward (m : t) (query key value : ref) (mask : option ref)
  : M ref :=
  batch_size <- (q <- get query ;; lift (size0 q)) ;;
  '(query, key, value) <- heads m query key value ;;
  scores <- raw_scores m query key ;;
  scores <- apply_mask_on scores mask ;;
  weights <- out1 softmax_last scores ;;
  attended <- out2 bmm weights value ;;
  attended <- view_of (view_infer batch_size (d_model m)) attended ;;
  LinearRef.forward (output_linear m) attended.

End MultiHeadAttentionRef.

(** ** class SelfAttention, on the store *)

Module SelfAttentionRef.

Record t : Type := mk {
  hidden_dim : nat;
  num_heads : nat;
  head_dim : nat;
  linear_q : LinearRef.t;
  linear_k : LinearRef.t;
  linear_v : LinearRef.t;
  dropout_ : Dropout;
  linear_out : LinearRef.t
}.

Definition load (h : heap) (m : t) : res SelfAttention.t :=
  (q <- LinearRef.load h (linear_q m) ;;
   k <- LinearRef.load h (linear_k m) ;;
   v <- LinearRef.load h (linear_v m) ;;
   o <- LinearRef.load h (linear_out m) ;;
   Some (SelfAttention.mk (hidden_dim m) (num_heads m) (head_dim m) q k v
           (dropout_ m) o))%res.

Definition project (m : t) (x : ref) (bias : option ref)
  : M (ref * ref * ref) :=
  k <- LinearRef.forward (linear_k m) x ;;
  q <- match bias with
       | Some b =>
           qx <- LinearRef.forward (linear_q m) x ;;
           qb <- LinearRef.forward (linear_q m) b ;;
           out2 add qx qb
       | None => LinearRef.forward (linear_q m) x
       end ;;
  v <- LinearRef.forward (linear_v m) x ;;
  ret (k, q, v).

Definition split_heads (m : t) (batch_size seq_len : nat) (x : ref) : M ref :=
  view_of (view [batch_size; num_heads m; seq_len; head_dim m]) x.

Definition raw_scores (m : t) (q k : ref) : M ref :=
  kt <- out1 transpose_last2 k ;;
  scores <- out2 matmul q kt ;;
  out1 (tot (fun s => div_scalar s (sqrt (INR (head_dim m))))) scores.

Definition attend (m : t) (r : rng) (batch_size seq_len : nat)
    (k q v : ref) (mask : option ref) : M (ref * ref) :=
  k <- split_heads m batch_size seq_len k ;;
  q <- split_heads m batch_size seq_len q ;;
  v <- split_heads m batch_size seq_len v ;;
  scores <- raw_scores m q k ;;
  scores <- apply_mask_on scores mask ;;
  attn_weights <- out1 softmax_last scores ;;
  attn_weights <- dropout_on (dropout_ m) (draw r 0) attn_weights ;;
  attn_output <- out2 matmul attn_weights v ;;
  attn_output <- view_of (view [batch_size; seq_len; hidden_dim m])
                   attn_output ;;
  attn_output <- LinearRef.forward (linear_out m) attn_output ;;
  attn_output <- dropout_on (dropout_ m) (draw r 1) attn_output ;;
  ret (attn_output, attn_weights).

Definition forward (m : t) (r : rng) (x : ref) (bias mask : option ref)
  : M (ref * ref) :=
  match rshape x with
  | [batch_size; seq_len; _] =>
      '(k, q, v) <- project m x bias ;;
      attend m r batch_size seq_len k q v mask
  | _ => fail
  end.

End SelfAttentionRef.

(** ** class HierarchicalTemporalAttention, on the store *)

Module HierarchicalTemporalAttentionRef.

Record t : Type := mk {
  hidden_dim : nat;
  num_heads : nat;
  window_sizes : list nat;
  num_levels : nat;
  local_attentions : list MultiHeadAttentionRef.t;
  global_attention : MultiHeadAttentionRef.t;
  linear_out : LinearRef.t;
  dropout_ : Dropout
}.

Definition load (h : heap) (m : t) : res HierarchicalTemporalAttention.t :=
  (ls <- mapM (MultiHeadAttentionRef.load h) (local_attentions m) ;;
   g <- MultiHeadAttentionRef.load h (global_attention m) ;;
   o <- LinearRef.load h (linear_out m) ;;
   Some (HierarchicalTemporalAttention.mk (hidden_dim m) (num_heads m)
           (window_sizes m) (num_levels m) ls g o (dropout_ m)))%res.

(** [F.pad], [unfold] and [permute] with the buffers they stand for
    materialised, [contiguous()] on such a buffer, and the [view]. *)
Definition windows (B T D window_size : nat) (x : ref) : M ref :=
  let pad_size := ((window_size - 1) / 2)%nat in
  padded_x <- out1 (pad_time pad_size) x ;;
  unfolded_x <- out1 (unfold1 window_size) padded_x ;;
  unfolded_x <- out1 permute0132 unfolded_x ;;
  view_of (view [(B * T)%nat; window_size; D]) unfolded_x.

Definition level_features (m : t) (B T D : nat) (x : ref) (level : nat)
  : M ref :=
  window_size <- lift (nth_error (window_sizes m) level) ;;
  unfolded_x <- windows B T D window_size x ;;
  attention <- lift (nth_error (local_attentions m) level) ;;
  level_out <- MultiHeadAttentionRef.forward attention
                 unfolded_x unfolded_x unfolded_x None ;;
  level_out <- view_of (view [B; T; window_size; D]) level_out ;;
  out1 mean_dim2 level_out.

Definition forward (m : t) (r : rng) (x : ref) (bias mask : option ref)
  : M (ref * option ref) :=
  match rshape x with
  | [B; T; D] =>
      local_features <- mapM_on (level_features m B T D x)
                          (seq 0 (num_levels m)) ;;
      global_out <- MultiHeadAttentionRef.forward (global_attention m)
                      x x x None ;;
      combined <- cat_on (local_features ++ [global_out]) ;;
      out <- LinearRef.forward (linear_out m) combined ;;
      out <- dropout_on (dropout_ m) (draw r 0) out ;;
      ret (out, None)
  | _ => fail
  end.

End HierarchicalTemporalAttentionRef.

(** ** class TransformerEncoder, on the store *)

Module TransformerEncoderRef.

Record layer : Type := mk_layer {
  temporal_attention : HierarchicalTemporalAttentionRef.t;
  linear1 : LinearRef.t;
  linear2 : LinearRef.t;
  norm1 : LayerNormRef.t;
  norm2 : LayerNormRef.t
}.

Record t : Type := mk {
  layers : list layer;
  dropout_ : Dropout
}.

Definition load_layer (h : heap) (l : layer) : res TransformerEncoder.layer :=
  (a <- HierarchicalTemporalAttentionRef.load h (temporal_attention l) ;;
   l1 <- LinearRef.load h (linear1 l) ;;
   l2 <- LinearRef.load h (linear2 l) ;;
   n1 <- LayerNormRef.load h (norm1 l) ;;
   n2 <- LayerNormRef.load h (norm2 l) ;;
   Some (TransformerEncoder.mk_layer a l1 l2 n1 n2))%res.

Definition load (h : heap) (m : t) : res TransformerEncoder.t :=
  (ls <- mapM (load_layer h) (layers m) ;;
   Some (TransformerEncoder.mk ls (dropout_ m)))%res.

Section Forward.
Variable gelu : R -> R.

Definition layer_forward (m : t) (r : rng) (l : layer) (x : ref)
    (bias mask : option ref) : M ref :=
  '(attn_out, _) <- HierarchicalTemporalAttentionRef.forward
                      (temporal_attention l) (sub r 0) x bias mask ;;
  attn_out <- dropout_on (dropout_ m) (draw r 1) attn_out ;;
  s <- out2 add x attn_out ;;
  x <- LayerNormRef.forward (norm1 l) s ;;
  h <- LinearRef.forward (linear1 l) x ;;
  h <- out1 (tot (TransformerEncoder.F_gelu gelu)) h ;;
  ffn_out <- LinearRef.forward (linear2 l) h ;;
  ffn_out <- dropout_on (dropout_ m) (draw r 2) ffn_out ;;
  s <- out2 add x ffn_out ;;
  LayerNormRef.forward (norm2 l) s.

Fixpoint run_layers (m : t) (r : rng) (i : nat) (ls : list layer)
    (x : ref) (bias mask : option ref) : M ref :=
  match ls with
  | [] => ret x
  | l :: ls' =>
      x <- layer_forward m (sub r i) l x bias mask ;;
      run_layers m r (S i) ls' x bias mask
  end.

Definition forward (m : t) (r : rng) (x : ref) (bias mask : option ref)
  : M (ref * option ref) :=
  x <- run_layers m r 0 (layers m) x bias mask ;;
  ret (x, None).
End Forward.

End TransformerEncoderRef.

(** ** class TransformerDecoderLayer, on the store *)

Module TransformerDecoderLayerRef.

Record t : Type := mk {
  self_attention : MultiHeadAttentionRef.t;
  self_attention_norm : LayerNormRef.t;
  enc_attention : MultiHeadAttentionRef.t;
  enc_attention_norm : LayerNormRef.t;
  ff_linear1 : LinearRef.t;
  ff_dropout1 : Dropout;
  ff_linear2 : LinearRef.t;
  ff_dropout2 : Dropout;
  feed_forward_norm : LayerNormRef.t;
  dropout_ : Dropout
}.

Definition load (h : heap) (m : t) : res TransformerDecoderLayer.t :=
  (sa <- MultiHeadAttentionRef.load h (self_attention m) ;;
   sn <- LayerNormRef.load h (self_attention_norm m) ;;
   ea <- MultiHeadAttentionRef.load h (enc_attention m) ;;
   en <- LayerNormRef.load h (enc_attention_norm m) ;;
   l1 <- LinearRef.load h (ff_linear1 m) ;;
   l2 <- LinearRef.load h (ff_linear2 m) ;;
   fn <- LayerNormRef.load h (feed_forward_norm m) ;;
   Some (TransformerDecoderLayer.mk sa sn ea en l1 (ff_dropout1 m) l2
           (ff_dropout2 m) fn (dropout_ m)))%res.

Definition feed_forward (m : t) (r : rng) (x : ref) : M ref :=
  h <- LinearRef.forward (ff_linear1 m) x ;;
  h <- out1 (tot relu) h ;;
  h <- dropout_on (ff_dropout1 m) (draw r 0) h ;;
  h <- LinearRef.forward (ff_linear2 m) h ;;
  dropout_on (ff_dropout2 m) (draw r 1) h.

Definition cross (m : t) (keep : nat -> bool) (tgt2 mem : ref)
    (memory_mask : option ref) : M ref :=
  a <- MultiHeadAttentionRef.forward (enc_attention m) tgt2 mem mem
         memory_mask ;;
  a <- dropout_on (dropout_ m) keep a ;;
  s <- out2 add tgt2 a ;;
  LayerNormRef.forward (enc_attention_norm m) s.

Definition forward (m : t) (r : rng) (tgt memory : ref) (memo2 : option ref)
    (tgt_mask memory_mask : option ref) : M ref :=
  a <- MultiHeadAttentionRef.forward (self_attention m) tgt tgt tgt
         tgt_mask ;;
  a <- dropout_on (dropout_ m) (draw r 0) a ;;
  s <- out2 add tgt a ;;
  tgt2 <- LayerNormRef.forward (self_attention_norm m) s ;;
  tgt3 <- cross m (draw r 1) tgt2 memory memory_mask ;;
  tgt3 <- match memo2 with
          | Some memo2 =>
              tgt3_5 <- cross m (draw r 2) tgt2 memo2 memory_mask ;;
              s <- out2 add tgt3 tgt3_5 ;;
              out1 (tot (fun s => div_scalar s 2)) s
          | None => ret tgt3
          end ;;
  f <- feed_forward m (sub r 3) tgt3 ;;
  f <- dropout_on (dropout_ m) (draw r 4) f ;;
  s <- out2 add tgt3 f ;;
  LayerNormRef.forward (feed_forward_norm m) s.

End TransformerDecoderLayerRef.

(** ** class TransformerDecoder, on the store *)

Module TransformerDecoderRef.

Record t : Type := mk {
  num_layers : nat;
  layers : list TransformerDecoderLayerRef.t;
  norm_att1 : LayerNormRef.t;
  norm_att2 : LayerNormRef.t;
  norm_att3 : LayerNormRef.t;
  norm_att : LayerNormRef.t
}.

Definition load (h : heap) (m : t) : res TransformerDecoder.t :=
  (ls <- mapM (TransformerDecoderLayerRef.load h) (layers m) ;;
   n1 <- LayerNormRef.load h (norm_att1 m) ;;
   n2 <- LayerNormRef.load h (norm_att2 m) ;;
   n3 <- LayerNormRef.load h (norm_att3 m) ;;
   n <- LayerNormRef.load h (norm_att m) ;;
   Some (TransformerDecoder.mk (num_layers m) ls n1 n2 n3 n))%res.

Definition step (m : t) (r : rng) (memory : ref) (memo2 embedding : option ref)
    (tgt_mask memory_mask : option ref) (tgt : ref) (i : nat) : M ref :=
  norm_tgt <- match embedding with
              | Some e =>
                  s <- out2 add tgt e ;;
                  LayerNormRef.forward (norm_att m) s
              | None => LayerNormRef.forward (norm_att m) tgt
              end ;;
  norm_memo1 <- LayerNormRef.forward (norm_att m) memory ;;
  norm_memo2 <- match memo2 with
                | Some memo2 => LayerNormRef.forward (norm_att m) memo2
                | None => ret norm_memo1
                end ;;
  layer <- lift (nth_error (layers m) i) ;;
  TransformerDecoderLayerRef.forward layer (sub r i) norm_tgt norm_memo1
    (Some norm_memo2) tgt_mask memory_mask.

Fixpoint run (m : t) (r : rng) (memory : ref) (memo2 embedding : option ref)
    (tgt_mask memory_mask : option ref) (tgt : ref) (idx : list nat)
  : M ref :=
  match idx with
  | [] => ret tgt
  | i :: idx' =>
      tgt <- step m r memory memo2 embedding tgt_mask memory_mask tgt i ;;
      run m r memory memo2 embedding tgt_mask memory_mask tgt idx'
  end.

Definition forward (m : t) (r : rng) (tgt memory : ref)
    (memo2 embedding : option ref) (tgt_mask memory_mask : option ref)
  : M ref :=
  run m r memory memo2 embedding tgt_mask memory_mask tgt
      (seq 0 (num_layers m)).

End TransformerDecoderRef.

Local Close Scope heap_scope.

(** ** Calls and what they leave in the store *)

(** Every cell of [h] is a cell of [h'] with the same contents. *)
Definition unchanged (h h' : heap) : Prop :=
  forall a, (a < length h)%nat -> nth_error h' a = nth_error h a.

(** An optional tensor argument and its value in the store. *)
Definition opt_contents (x : option ref) (h : heap)
  : res (option (Tensor R)) :=
  match x with
  | Some x => t <- contents x h ;; Some (Some t)
  | None => Some None
  end.

Definition opt_mask_contents (x : option ref) (h : heap)
  : res (option (Tensor Z)) :=
  match x with
  | Some x => t <- mask_contents x h ;; Some (Some t)
  | None => Some None
  end.

(** The result of a call, read from the store that the call leaves: the
    tensor it returns, the pair of tensors, or the tensor and the optional
    weights. *)
Definition outcome (c : M ref) (h : heap) : res (Tensor R) :=
  match c h with
  | Some (o, h') => contents o h'
  | None => None
  end.

Definition outcome2 (c : M (ref * ref)) (h : heap)
  : res (Tensor R * Tensor R) :=
  match c h with
  | Some ((o, w), h') =>
      o <- contents o h' ;; w <- contents w h' ;; Some (o, w)
  | None => None
  end.

Definition outcome_opt (c : M (ref * option ref)) (h : heap)
  : res (Tensor R * option (Tensor R)) :=
  match c h with
  | Some ((o, w), h') =>
      o <- contents o h' ;; w <- opt_contents w h' ;; Some (o, w)
  | None => None
  end.


(** ** A call on the store against the function of the values

    [extends h h']: the store [h'] is [h] followed by the buffers allocated
    since.  [holds h x t]: in the store [h] the handle [x] is the tensor
    [t].  [sim R c v h]: run from [h], the computation [c] raises when
    [v] is [None], and otherwise returns a result related by [R] to the
    value of [v] in a store that extends [h]. *)

Definition extends (h h' : heap) : Prop := exists e, h' = h ++ e.

Definition holds (h : heap) (x : ref) (t : Tensor R) : Prop :=
  contents x h = Some t.

Definition holds2 (h : heap) (x : ref * ref) (t : Tensor R * Tensor R)
  : Prop :=
  holds h (fst x) (fst t) /\ holds h (snd x) (snd t).

Definition holds3 (h : heap) (x : ref * ref * ref)
    (t : Tensor R * Tensor R * Tensor R) : Prop :=
  holds h (fst (fst x)) (fst (fst t)) /\ holds h (snd (fst x)) (snd (fst t)) /\
  holds h (snd x) (snd t).

Definition holds_opt (h : heap) (x : option ref) (t : option (Tensor R))
  : Prop :=
  opt_contents x h = Some t.

Definition holds_mask (h : heap) (x : option ref) (t : option (Tensor Z))
  : Prop :=
  opt_mask_contents x h = Some t.

Definition holds_pair_opt (h : heap) (x : ref * option ref)
    (t : Tensor R * option (Tensor R)) : Prop :=
  holds h (fst x) (fst t) /\ holds_opt h (snd x) (snd t).

Definition same {A : Type} (h : heap) (a b : A) : Prop := a = b.

Definition sim {A B : Type} (Rel : heap -> A -> B -> Prop) (c : M A)
    (v : res B) (h : heap) : Prop :=
  match v with
  | Some b => exists a h', c h = Some (a, h') /\ extends h h' /\ Rel h' a b
  | None => c h = None
  end.


(** [pure_call read c h v]: run from the store [h], whatever keep-masks [r]
    it is given, the call [c r] raises when [v] is [None] and otherwise
    returns handles that [read] reads back as the value of [v]; the store
    it leaves has every cell of [h] unchanged, and a second call from that
    store gives [v] again. *)
Definition pure_call {A V : Type} (read : M A -> heap -> res V)
    (c : rng -> M A) (h : heap) (v : res V) : Prop :=
  (forall r, read (c r) h = v) /\
  (forall r a h', c r h = Some (a, h') ->
     unchanged h h' /\ forall r', read (c r') h' = v).

(** ** The small configuration in a store

    The parameters of the small configuration, one input and one mask:
    buffers of ones and of zeros of one and of four elements. *)
Definition store1 : heap :=
  [Reals [1]; Reals [0]; Reals [1; 1; 1; 1]; Reals [0; 0; 0; 0];
   Reals [1]; Ints [1%Z]].

Definition lin11_ref : LinearRef.t :=
  LinearRef.mk 1 1 (mkRef 0 [1; 1]%nat) (mkRef 1 [1%nat]).
Definition lin41_ref : LinearRef.t :=
  LinearRef.mk 4 1 (mkRef 2 [1; 4]%nat) (mkRef 1 [1%nat]).
Definition lin14_ref : LinearRef.t :=
  LinearRef.mk 1 4 (mkRef 2 [4; 1]%nat) (mkRef 3 [4%nat]).

Definition ln1_ref : LayerNormRef.t :=
  LayerNormRef.mk 1 (mkRef 0 [1%nat]) (mkRef 1 [1%nat]) (1 / 100000).

Definition mha1_ref : MultiHeadAttentionRef.t :=
  MultiHeadAttentionRef.mk 1 1 lin11_ref lin11_ref lin11_ref lin11_ref.

Definition sa1_ref : SelfAttentionRef.t :=
  SelfAttentionRef.mk 1 1 1 lin11_ref lin11_ref lin11_ref drop_eval lin11_ref.

Definition hta1_ref : HierarchicalTemporalAttentionRef.t :=
  HierarchicalTemporalAttentionRef.mk 1 1 [3; 5; 7]%nat 3
    [mha1_ref; mha1_ref; mha1_ref] mha1_ref lin41_ref drop_eval.

Definition enc1_ref : TransformerEncoderRef.t :=
  TransformerEncoderRef.mk
    [TransformerEncoderRef.mk_layer hta1_ref lin14_ref lin41_ref
       ln1_ref ln1_ref] drop_eval.

Definition dl1_ref : TransformerDecoderLayerRef.t :=
  TransformerDecoderLayerRef.mk mha1_ref ln1_ref mha1_ref ln1_ref
    lin14_ref drop_eval lin41_ref drop_eval ln1_ref drop_eval.

Definition dec1_ref : TransformerDecoderRef.t :=
  TransformerDecoderRef.mk 1 [dl1_ref] ln1_ref ln1_ref ln1_ref ln1_ref.

Definition x111_ref : ref := mkRef 4 [1; 1; 1]%nat.
Definition ones111_ref : ref := mkRef 5 [1; 1; 1]%nat.

Close Scope R_scope.
Unset Implicit Arguments.

(** * Properties *)

(** ** Buffers: blocks, tabulated matrices *)

Section BufferFacts.
Context {A : Type}.
Implicit Types (l : list A) (ls : list (list A)).

Lemma chunk_length n k l : length (chunk n k l) = n.
Proof. revert l; induction n; intros; simpl; auto. Qed.

Lemma chunk_blocks n k l :
  n * k <= length l -> Forall (fun c => length c = k) (chunk n k l).
Proof.
  revert l; induction n; intros l Hl; simpl; constructor.
  - rewrite length_firstn. simpl in Hl. lia.
  - apply IHn. rewrite length_skipn. simpl in Hl. lia.
Qed.

Lemma concat_chunk n k l : length l = n * k -> concat (chunk n k l) = l.
Proof.
  revert l; induction n; intros l Hl; simpl.
  - destruct l; simpl in *; congruence.
  - rewrite IHn.
    + apply firstn_skipn.
    + rewrite length_skipn. simpl in Hl. lia.
Qed.

Lemma chunk_concat n k ls :
  length ls = n -> Forall (fun c => length c = k) ls ->
  chunk n k (concat ls) = ls.
Proof.
  revert n; induction ls as [|c ls IH]; intros n Hn Hall; subst n; simpl; auto.
  inversion Hall as [|? ? Hc Hls]; subst.
  rewrite firstn_app, Nat.sub_diag, firstn_all, firstn_O, app_nil_r.
  rewrite skipn_app, Nat.sub_diag, skipn_all, skipn_O. simpl.
  f_equal. apply IH; auto.
Qed.

Lemma concat_length_blocks k ls :
  Forall (fun c => length c = k) ls -> length (concat ls) = length ls * k.
Proof.
  induction 1 as [|c ls Hc Hls IH]; simpl; auto.
  rewrite length_app, IH, Hc. reflexivity.
Qed.

Lemma nth_concat_blocks k ls i j (d : A) :
  Forall (fun c => length c = k) ls -> j < k ->
  nth (i * k + j) (concat ls) d = nth j (nth i ls []) d.
Proof.
  intros Hall Hj. revert i; induction Hall as [|c ls Hc Hls IH]; intros i.
  - simpl. destruct (i * k + j), i, j; reflexivity.
  - destruct i; simpl.
    + rewrite app_nth1 by lia. reflexivity.
    + rewrite app_nth2 by lia.
      replace (k + i * k + j - length c) with (i * k + j) by lia. apply IH.
Qed.

Lemma nth_chunk n k l i :
  i < n -> nth i (chunk n k l) [] = firstn k (skipn (i * k) l).
Proof.
  revert l i; induction n; intros l i Hi; [lia|].
  destruct i; simpl.
  - reflexivity.
  - rewrite IHn by lia. rewrite skipn_skipn. do 2 f_equal. lia.
Qed.

Lemma tab2_length r c (f : nat -> nat -> A) : length (tab2 r c f) = r * c.
Proof.
  unfold tab2. rewrite flat_map_concat_map.
  rewrite (@concat_length_blocks c).
  - rewrite length_map, length_seq. reflexivity.
  - apply Forall_forall. intros x Hx. apply in_map_iff in Hx.
    destruct Hx as (i & <- & _). rewrite length_map, length_seq. reflexivity.
Qed.

Lemma nth_tab2 r c (f : nat -> nat -> A) i j (d : A) :
  i < r -> j < c -> nth (i * c + j) (tab2 r c f) d = f i j.
Proof.
  intros Hi Hj. unfold tab2. rewrite flat_map_concat_map.
  rewrite (@nth_concat_blocks c); auto.
  - rewrite (nth_indep _ [] (map (f 0) (seq 0 c)))
      by (rewrite length_map, length_seq; lia).
    rewrite (map_nth (fun i => map (f i) (seq 0 c)) (seq 0 r) 0 i).
    rewrite seq_nth by lia. simpl.
    rewrite (nth_indep _ d (f i 0)) by (rewrite length_map, length_seq; lia).
    rewrite (map_nth (f i) (seq 0 c) 0 j), seq_nth by lia. reflexivity.
  - apply Forall_forall. intros x Hx. apply in_map_iff in Hx.
    destruct Hx as (i' & <- & _). rewrite length_map, length_seq. reflexivity.
Qed.

Lemma zip_with_length {B C : Type} (f : A -> B -> C) u v :
  length (zip_with f u v) = Nat.min (length u) (length v).
Proof. unfold zip_with. rewrite length_map, length_combine. reflexivity. Qed.

Lemma nth_zip_with {B C : Type} (f : A -> B -> C) u v i dA dB dC :
  i < length u -> i < length v ->
  nth i (zip_with f u v) dC = f (nth i u dA) (nth i v dB).
Proof.
  unfold zip_with. revert v i; induction u as [|a u IH]; intros v i Hu Hv.
  - simpl in Hu. lia.
  - destruct v as [|b v]; [simpl in Hv; lia|].
    destruct i; simpl; auto. apply IH; simpl in *; lia.
Qed.
End BufferFacts.

(** ** Dropout *)

Lemma dropout_off_id (d : Dropout) (keep : nat -> bool) (x : Tensor R) :
  dropout_off d -> dropout d keep x = x.
Proof.
  unfold dropout_off, dropout. intros [Ht | Hp].
  - rewrite Ht. reflexivity.
  - destruct (training d); auto.
    destruct (Req_EM_T (p d) 0) as [_ | Hne]; [reflexivity | contradiction].
Qed.

(** ** The hierarchical attention ignores [bias] and [mask] *)

Lemma encoder_run_layers_ignores gelu m r ls :
  forall i x bias mask,
    TransformerEncoder.run_layers gelu m r i ls x bias mask =
    TransformerEncoder.run_layers gelu m r i ls x None None.
Proof.
  induction ls as [|l ls IH]; intros i x bias mask; simpl; auto.
  change (TransformerEncoder.layer_forward gelu m (sub r i) l x bias mask)
    with (TransformerEncoder.layer_forward gelu m (sub r i) l x None None).
  destruct (TransformerEncoder.layer_forward gelu m (sub r i) l x None None);
    simpl; auto.
Qed.

(** C10.  [HierarchicalTemporalAttention.forward] returns the same pair for
    every choice of [bias] and [mask] (the one it returns without them, its
    local and global attention calls being made with no mask), and so does
    [TransformerEncoder.forward], which passes them on to it. *)
Theorem hta_forward_ignores_bias_mask :
  (forall m r x bias mask bias' mask',
      HierarchicalTemporalAttention.forward m r x bias mask =
      HierarchicalTemporalAttention.forward m r x bias' mask') /\
  (forall m r x bias mask,
      HierarchicalTemporalAttention.forward m r x bias mask =
      HierarchicalTemporalAttention.forward m r x None None) /\
  (forall gelu m r x bias mask bias' mask',
      TransformerEncoder.forward gelu m r x bias mask =
      TransformerEncoder.forward gelu m r x bias' mask').
Proof.
  split; [reflexivity | split; [reflexivity|]].
  intros gelu m r x bias mask bias' mask'. unfold TransformerEncoder.forward.
  rewrite encoder_run_layers_ignores.
  rewrite (encoder_run_layers_ignores gelu m r _ 0 x bias' mask').
  reflexivity.
Qed.

(** ** The forward passes do not read the keep-masks of a disabled
    dropout *)

Lemma dropout_off_fun (d : Dropout) :
  dropout_off d -> dropout d = fun _ x => x.
Proof.
  intros Hd.
  apply FunctionalExtensionality.functional_extensionality; intros keep.
  apply FunctionalExtensionality.functional_extensionality; intros x.
  apply dropout_off_id, Hd.
Qed.

Lemma self_attention_rng m r r' x bias mask :
  dropout_off (SelfAttention.dropout_ m) ->
  SelfAttention.forward m r x bias mask = SelfAttention.forward m r' x bias mask.
Proof.
  intros Hd. unfold SelfAttention.forward, SelfAttention.attend.
  rewrite (dropout_off_fun _ Hd). reflexivity.
Qed.

Lemma hta_rng m r r' x bias mask :
  hta_dropout_off m ->
  HierarchicalTemporalAttention.forward m r x bias mask =
  HierarchicalTemporalAttention.forward m r' x bias mask.
Proof.
  intros Hd. unfold HierarchicalTemporalAttention.forward.
  rewrite (dropout_off_fun _ Hd). reflexivity.
Qed.

Lemma encoder_layer_rng gelu m r r' l x bias mask :
  dropout_off (TransformerEncoder.dropout_ m) ->
  hta_dropout_off (TransformerEncoder.temporal_attention l) ->
  TransformerEncoder.layer_forward gelu m r l x bias mask =
  TransformerEncoder.layer_forward gelu m r' l x bias mask.
Proof.
  intros Hd Hl. unfold TransformerEncoder.layer_forward.
  rewrite (dropout_off_fun _ Hd).
  rewrite (hta_rng _ (sub r 0) (sub r' 0) x bias mask Hl). reflexivity.
Qed.

Lemma encoder_rng gelu m r r' x bias mask :
  encoder_dropout_off m ->
  TransformerEncoder.forward gelu m r x bias mask =
  TransformerEncoder.forward gelu m r' x bias mask.
Proof.
  intros [Hd Hls]. unfold TransformerEncoder.forward.
  assert (Hrun : forall i y,
    TransformerEncoder.run_layers gelu m r i (TransformerEncoder.layers m) y
      bias mask =
    TransformerEncoder.run_layers gelu m r' i (TransformerEncoder.layers m) y
      bias mask).
  { induction Hls as [|l ls Hl Hls IH]; intros i y; simpl; auto.
    rewrite (encoder_layer_rng gelu m (sub r i) (sub r' i) l y bias mask Hd Hl).
    destruct (TransformerEncoder.layer_forward gelu m (sub r' i) l y bias mask)
      as [z|]; simpl; auto. }
  rewrite Hrun. reflexivity.
Qed.

Lemma decoder_layer_rng m r r' tgt memory memo2 tgt_mask memory_mask :
  decoder_layer_dropout_off m ->
  TransformerDecoderLayer.forward m r tgt memory memo2 tgt_mask memory_mask =
  TransformerDecoderLayer.forward m r' tgt memory memo2 tgt_mask memory_mask.
Proof.
  intros (Hd & H1 & H2).
  unfold TransformerDecoderLayer.forward, TransformerDecoderLayer.cross,
    TransformerDecoderLayer.feed_forward.
  rewrite (dropout_off_fun _ Hd), (dropout_off_fun _ H1), (dropout_off_fun _ H2).
  reflexivity.
Qed.

Lemma decoder_rng m r r' tgt memory memo2 embedding tgt_mask memory_mask :
  decoder_dropout_off m ->
  TransformerDecoder.forward m r tgt memory memo2 embedding tgt_mask memory_mask =
  TransformerDecoder.forward m r' tgt memory memo2 embedding tgt_mask memory_mask.
Proof.
  intros Hd. unfold TransformerDecoder.forward.
  generalize (seq 0 (TransformerDecoder.num_layers m)) as idx. intros idx.
  revert tgt; induction idx as [|i idx IH]; intros tgt; simpl; auto.
  assert (Hstep :
    TransformerDecoder.step m r memory memo2 embedding tgt_mask memory_mask tgt i =
    TransformerDecoder.step m r' memory memo2 embedding tgt_mask memory_mask tgt i).
  { unfold TransformerDecoder.step.
    destruct (match embedding with Some e => _ | None => _ end) as [nt|];
      simpl; auto.
    destruct (layer_norm (TransformerDecoder.norm_att m) memory) as [m1|];
      simpl; auto.
    destruct (match memo2 with Some _ => _ | None => _ end) as [m2|];
      simpl; auto.
    destruct (nth_error (TransformerDecoder.layers m) i) as [l|] eqn:El;
      simpl; auto.
    apply decoder_layer_rng.
    unfold decoder_dropout_off in Hd. rewrite Forall_forall in Hd.
    apply Hd. eapply nth_error_In; eauto. }
  rewrite Hstep.
  destruct (TransformerDecoder.step m r' memory memo2 embedding tgt_mask
              memory_mask tgt i); simpl; auto.
Qed.

(** ** Averaging two equal cross-attention results *)

Lemma shape_eqb_refl sh : shape_eqb sh sh = true.
Proof. unfold shape_eqb. destruct (list_eq_dec Nat.eq_dec sh sh); congruence. Qed.

Lemma shape_eqb_eq s1 s2 : shape_eqb s1 s2 = true -> s1 = s2.
Proof. unfold shape_eqb. destruct (list_eq_dec Nat.eq_dec s1 s2); congruence. Qed.

Lemma half_of_double (l : list R) :
  map (fun x => x / 2)%R (zip_with Rplus l l) = l.
Proof.
  unfold zip_with. induction l as [|a l IH]; simpl; auto.
  rewrite IH. f_equal. lra.
Qed.

Lemma add_self_half (t : Tensor R) :
  (s <- add t t ;; Some (div_scalar s 2)) = Some t.
Proof.
  unfold add. rewrite shape_eqb_refl. simpl. unfold div_scalar. simpl.
  rewrite half_of_double. destruct t; reflexivity.
Qed.

(** C6.  With dropout disabled, [TransformerDecoderLayer.forward] called
    with a second memory equal to the first returns what the call with
    [memo2 = None] returns: the second cross-attention branch equals the
    first, and the average [(t + t) / 2] of the two equal results is [t]. *)
Theorem decoder_layer_identical_memories
    (m : TransformerDecoderLayer.t) (r r' : rng) (tgt memory : Tensor R)
    (tgt_mask memory_mask : option (Tensor Z)) :
  decoder_layer_dropout_off m ->
  (forall keep keep' tgt2,
      TransformerDecoderLayer.cross m keep tgt2 memory memory_mask =
      TransformerDecoderLayer.cross m keep' tgt2 memory memory_mask) /\
  (forall t : Tensor R, (s <- add t t ;; Some (div_scalar s 2)) = Some t) /\
  TransformerDecoderLayer.forward m r tgt memory (Some memory)
    tgt_mask memory_mask =
  TransformerDecoderLayer.forward m r' tgt memory None tgt_mask memory_mask.
Proof.
  intros Hoff. pose proof Hoff as (Hd & H1 & H2).
  assert (Hcross : forall keep keep' tgt2,
    TransformerDecoderLayer.cross m keep tgt2 memory memory_mask =
    TransformerDecoderLayer.cross m keep' tgt2 memory memory_mask).
  { intros. unfold TransformerDecoderLayer.cross.
    rewrite (dropout_off_fun _ Hd). reflexivity. }
  split; [exact Hcross | split; [exact add_self_half|]].
  rewrite (decoder_layer_rng m r r' tgt memory (Some memory) tgt_mask
             memory_mask Hoff).
  unfold TransformerDecoderLayer.forward.
  destruct (MultiHeadAttention.forward _ tgt tgt tgt tgt_mask) as [a|];
    simpl; auto.
  destruct (add tgt _) as [s|]; simpl; auto.
  destruct (layer_norm _ s) as [tgt2|]; simpl; auto.
  rewrite (Hcross (draw r' 2) (draw r' 1) tgt2).
  destruct (TransformerDecoderLayer.cross m (draw r' 1) tgt2 memory memory_mask)
    as [tgt3|]; simpl; auto.
  change (bind (bind (add tgt3 tgt3) (fun s0 => Some (div_scalar s0 2))) ?k)
    with (bind (s0 <- add tgt3 tgt3 ;; Some (div_scalar s0 2)) k).
  rewrite add_self_half. reflexivity.
Qed.

Lemma decoder_layer_identical_memories_witness :
  decoder_layer_dropout_off dl1 /\
  (forall keep keep' tgt2,
      TransformerDecoderLayer.cross dl1 keep tgt2 x111 None =
      TransformerDecoderLayer.cross dl1 keep' tgt2 x111 None) /\
  (forall t : Tensor R, (s <- add t t ;; Some (div_scalar s 2)) = Some t) /\
  TransformerDecoderLayer.forward dl1 keep_all x111 x111 (Some x111) None None =
  TransformerDecoderLayer.forward dl1 keep_none x111 x111 None None None.
Proof.
  assert (Hoff : dropout_off drop_eval) by (left; reflexivity).
  assert (Hdl : decoder_layer_dropout_off dl1) by (repeat split; exact Hoff).
  split; [exact Hdl|].
  exact (decoder_layer_identical_memories dl1 keep_all keep_none x111 x111
           None None Hdl).
Defined.

(** ** Shapes *)

Lemma numel_app a b : numel (a ++ b) = numel a * numel b.
Proof. induction a; simpl; [lia | rewrite IHa; lia]. Qed.

Lemma split_last_app lead d : split_last (lead ++ [d]) = Some (lead, d).
Proof.
  induction lead as [|n lead IH]; simpl; auto.
  rewrite IH. destruct (lead ++ [d]) eqn:E; auto.
  destruct lead; discriminate.
Qed.

Lemma split_last_inv sh lead d :
  split_last sh = Some (lead, d) -> sh = lead ++ [d].
Proof.
  revert lead; induction sh as [|n sh IH]; intros lead Hs; simpl in Hs.
  - discriminate.
  - destruct sh as [|n' sh'].
    + inversion Hs; reflexivity.
    + destruct (split_last (n' :: sh')) as [[l' d']|]; [|discriminate].
      inversion Hs; subst. simpl. f_equal. apply IH. reflexivity.
Qed.

Lemma split_last2_app lead p q :
  split_last2 (lead ++ [p; q]) = Some (lead, p, q).
Proof.
  induction lead as [|n lead IH]; simpl; auto.
  rewrite IH. destruct (lead ++ [p; q]) as [|a [|b l]] eqn:E; auto.
  - destruct lead; discriminate.
  - destruct lead as [|? [|? ?]]; discriminate.
Qed.

Lemma split_last2_inv sh lead p q :
  split_last2 sh = Some (lead, p, q) -> sh = lead ++ [p; q].
Proof.
  revert lead; induction sh as [|n sh IH]; intros lead Hs; simpl in Hs.
  - discriminate.
  - destruct sh as [|n' [|n'' sh']].
    + discriminate.
    + inversion Hs; reflexivity.
    + destruct (split_last2 (n' :: n'' :: sh')) as [[[l' p'] q']|];
        [|discriminate].
      inversion Hs; subst. simpl. f_equal. apply IH. reflexivity.
Qed.

Lemma bind_some {A B : Type} (c : res A) (k : A -> res B) (b : B) :
  bind c k = Some b -> exists a, c = Some a /\ k a = Some b.
Proof. destruct c as [a|]; simpl; [eauto | discriminate]. Qed.

Ltac inv_bind H :=
  let a := fresh "a" in
  let E := fresh "E" in
  apply bind_some in H; destruct H as (a & E & H).

Section BlockIndex.
Context {A : Type}.

Lemma nth_chunk_nth n k (l : list A) i j (d : A) :
i < n -> j < k -> nth j (nth i (chunk n k l) []) d = nth (i * k + j) l d.
Proof.
intros Hi Hj. rewrite nth_chunk by assumption.
rewrite nth_firstn. apply Nat.ltb_lt in Hj. rewrite Hj.
rewrite nth_skipn. reflexivity.
Qed.

Lemma chunk_map_blocks n k k' (f : list A -> list A) (l : list A) :
n * k <= length l ->
(forall c, length c = k -> length (f c) = k') ->
chunk n k' (concat (map f (chunk n k l))) = map f (chunk n k l).
Proof.
intros Hl Hf. apply chunk_concat.
- rewrite length_map, chunk_length. reflexivity.
- apply Forall_forall. intros c Hc. apply in_map_iff in Hc.
  destruct Hc as (c0 & <- & Hc0). apply Hf.
  pose proof (chunk_blocks n k l Hl) as Hall.
  rewrite Forall_forall in Hall. apply Hall, Hc0.
Qed.
End BlockIndex.

(** ** Softmax *)

Lemma rsum_map_div {A : Type} (f : A -> R) (c : R) (l : list A) :
  rsum (map (fun x => f x / c)%R l) = (rsum (map f l) / c)%R.
Proof.
  induction l as [|a l IH]; simpl.
  - unfold Rdiv. rewrite Rmult_0_l. reflexivity.
  - rewrite IH. unfold Rdiv. rewrite Rmult_plus_distr_r. reflexivity.
Qed.

Lemma rsum_exp_pos (r : list R) : r <> [] -> (0 < rsum (map exp r))%R.
Proof.
  induction r as [|a r IH]; intros Hne; [congruence|]. simpl.
  pose proof (exp_pos a). destruct r as [|b r].
  - simpl. lra.
  - assert (0 < rsum (map exp (b :: r)))%R by (apply IH; discriminate). lra.
Qed.

Lemma rsum_exp_nonneg (r : list R) : (0 <= rsum (map exp r))%R.
Proof.
  destruct r as [|a r]; [simpl; lra|].
  apply Rlt_le, rsum_exp_pos. discriminate.
Qed.

Lemma exp_le_rsum (r : list R) (x : R) :
  In x r -> (exp x <= rsum (map exp r))%R.
Proof.
  induction r as [|a r IH]; intros Hin; [contradiction|]. simpl.
  destruct Hin as [-> | Hin].
  - pose proof (rsum_exp_nonneg r). lra.
  - pose proof (exp_pos a). specialize (IH Hin). lra.
Qed.

Lemma softmax_row_length (r : list R) : length (softmax_row r) = length r.
Proof. unfold softmax_row. apply length_map. Qed.

Lemma softmax_row_sum (r : list R) : r <> [] -> rsum (softmax_row r) = 1%R.
Proof.
  intros Hne. unfold softmax_row.
  rewrite (rsum_map_div exp (rsum (map exp r)) r).
  pose proof (rsum_exp_pos r Hne). field. lra.
Qed.

Lemma softmax_row_nth (r : list R) (j : nat) :
  j < length r ->
  nth j (softmax_row r) 0%R = (exp (nth j r 0%R) / rsum (map exp r))%R.
Proof.
  intros Hj. unfold softmax_row.
  rewrite (nth_indep _ 0%R ((fun x => exp x / rsum (map exp r))%R 0%R))
    by (rewrite length_map; exact Hj).
  apply (map_nth (fun x => exp x / rsum (map exp r))%R).
Qed.

(** ** Well-formed intermediate tensors *)

Lemma matmul_wf a b c : matmul a b = Some c -> wf c.
Proof.
  unfold matmul. intros H.
  inv_bind H. destruct a0 as [[la p] q]. inv_bind H.
  destruct a0 as [[lb q'] r].
  destruct (shape_eqb la lb && (q =? q')); [|discriminate].
  inversion H; subst c; clear H. unfold wf; simpl.
  rewrite (concat_length_blocks (p * r)).
  - rewrite zip_with_length, !chunk_length, Nat.min_id, numel_app.
    simpl. lia.
  - apply Forall_forall. intros x Hx. unfold zip_with in Hx.
    apply in_map_iff in Hx. destruct Hx as (ab & <- & _).
    unfold mat_mul. apply tab2_length.
Qed.

Lemma matmul_shape a b c :
  matmul a b = Some c ->
  exists lead p q r,
    shape a = lead ++ [p; q] /\ shape b = lead ++ [q; r] /\
    shape c = lead ++ [p; r].
Proof.
  unfold matmul. intros H.
  inv_bind H. destruct a0 as [[la p] q]. inv_bind H.
  destruct a0 as [[lb q'] r].
  destruct (shape_eqb la lb) eqn:El; [|discriminate].
  destruct (q =? q') eqn:Eq; [|discriminate]. simpl in H.
  apply shape_eqb_eq in El. apply Nat.eqb_eq in Eq. subst lb q'.
  inversion H; subst c; clear H. exists la, p, q, r. simpl.
  repeat split; auto using split_last2_inv.
Qed.

Lemma bmm_matmul a b c : bmm a b = Some c -> matmul a b = Some c.
Proof.
  unfold bmm. destruct (shape a) as [|? [|? [|? [|? ?]]]]; try discriminate.
  destruct (shape b) as [|? [|? [|? [|? ?]]]]; try discriminate. auto.
Qed.

Lemma div_scalar_wf a c : wf a -> wf (div_scalar a c).
Proof. unfold wf, div_scalar; simpl. rewrite length_map. auto. Qed.

Lemma broadcast_to_spec {A : Type} `{Zero A} sh (t m : Tensor A) :
  broadcast_to sh t = Some m -> shape m = sh /\ length (data m) = numel sh.
Proof.
  unfold broadcast_to. destruct (broadcastable _ sh); [|discriminate].
  intros E; inversion E; subst m; simpl.
  rewrite length_map, length_seq. auto.
Qed.

Lemma masked_fill_spec s mask v s' :
  masked_fill s mask v = Some s' -> wf s ->
  exists m,
    broadcast_to (shape s) mask = Some m /\
    shape s' = shape s /\ wf s' /\
    forall i, i < numel (shape s) ->
      nth i (data s') 0%R =
      if (nth i (data m) 0%Z =? 0)%Z then v else nth i (data s) 0%R.
Proof.
  unfold masked_fill. intros H Hwf. inv_bind H. exists a.
  destruct (broadcast_to_spec _ _ _ E) as [Hsh Hlen].
  inversion H; subst s'; clear H. simpl. unfold wf in *; simpl.
  repeat split; auto.
  - rewrite zip_with_length, Hlen, Hwf. apply Nat.min_id.
  - intros i Hi.
    rewrite (nth_zip_with _ _ _ i 0%R 0%Z 0%R) by lia. reflexivity.
Qed.

Lemma softmax_last_spec t w :
  softmax_last t = Some w -> wf t ->
  exists lead d,
    split_last (shape t) = Some (lead, d) /\
    shape w = shape t /\ wf w /\
    chunk (numel lead) d (data w)
      = map softmax_row (chunk (numel lead) d (data t)).
Proof.
  unfold softmax_last. intros H Hwf. inv_bind H. destruct a as [lead d].
  inversion H; subst w; clear H. exists lead, d. simpl.
  assert (Hlen : numel lead * d <= length (data t)).
  { unfold wf in Hwf. rewrite Hwf, (split_last_inv _ _ _ E), numel_app.
    simpl. lia. }
  assert (Hch : chunk (numel lead) d
                  (concat (map softmax_row (chunk (numel lead) d (data t))))
                = map softmax_row (chunk (numel lead) d (data t))).
  { apply chunk_map_blocks; auto.
    intros c Hc. rewrite softmax_row_length. exact Hc. }
  repeat split; auto.
  unfold wf; simpl. rewrite <- Hch at 1.
  rewrite (concat_length_blocks d).
  - rewrite chunk_length, (split_last_inv _ _ _ E), numel_app. simpl. lia.
  - rewrite Hch. apply Forall_forall. intros c Hc. apply in_map_iff in Hc.
    destruct Hc as (c0 & <- & Hc0). rewrite softmax_row_length.
    pose proof (chunk_blocks (numel lead) d (data t) Hlen) as Hall.
    rewrite Forall_forall in Hall. auto.
Qed.

Lemma mha_raw_scores_wf m q k s :
  MultiHeadAttention.raw_scores m q k = Some s -> wf s.
Proof.
  unfold MultiHeadAttention.raw_scores. intros H.
  inv_bind H. inv_bind H. inv_bind H. inversion H; subst s.
  apply div_scalar_wf. eapply matmul_wf, bmm_matmul; eauto.
Qed.

Lemma self_raw_scores_wf m q k s :
  SelfAttention.raw_scores m q k = Some s -> wf s.
Proof.
  unfold SelfAttention.raw_scores. intros H.
  inv_bind H. inv_bind H. inversion H; subst s.
  apply div_scalar_wf. eapply matmul_wf; eauto.
Qed.

Lemma apply_mask_wf s mask s' : apply_mask s mask = Some s' -> wf s -> wf s'.
Proof.
  destruct mask as [m|]; simpl; intros H Hwf.
  - destruct (masked_fill_spec _ _ _ _ H Hwf) as (? & _ & _ & Hw & _). exact Hw.
  - inversion H; subst; exact Hwf.
Qed.

(** The stages of [MultiHeadAttention.weights] and [SelfAttention.weights]. *)
Lemma mha_weights_inv m query key value mask w :
  MultiHeadAttention.weights m query key value mask = Some w ->
  exists q k v s s',
    MultiHeadAttention.heads m query key value = Some (q, k, v) /\
    MultiHeadAttention.raw_scores m q k = Some s /\
    apply_mask s mask = Some s' /\
    softmax_last s' = Some w.
Proof.
  unfold MultiHeadAttention.weights. intros H.
  inv_bind H. destruct a as [[q k] v]. inv_bind H. inv_bind H.
  exists q, k, v, a, a0. auto.
Qed.

Lemma self_weights_inv m x bias mask w :
  SelfAttention.weights m x bias mask = Some w ->
  exists batch_size seq_len hidden k q v k' q' s s',
    shape x = [batch_size; seq_len; hidden] /\
    SelfAttention.project m x bias = Some (k, q, v) /\
    SelfAttention.split_heads m batch_size seq_len k = Some k' /\
    SelfAttention.split_heads m batch_size seq_len q = Some q' /\
    SelfAttention.raw_scores m q' k' = Some s /\
    apply_mask s mask = Some s' /\
    softmax_last s' = Some w.
Proof.
  unfold SelfAttention.weights. intros H.
  destruct (shape x) as [|b [|t [|h [|? ?]]]] eqn:Ex; try discriminate.
  inv_bind H. destruct a as [[k q] v]. inv_bind H. inv_bind H.
  inv_bind H. inv_bind H.
  exists b, t, h, k, q, v, a, a0, a1, a2. auto 10.
Qed.

Lemma softmax_rows_sum s w :
  softmax_last s = Some w -> wf s -> last (shape w) 0 <> 0 ->
  rows_sum_to_one w.
Proof.
  intros Hs Hwf Hlast.
  destruct (softmax_last_spec _ _ Hs Hwf) as (lead & d & Hsp & Hsh & _ & Hch).
  exists lead, d. rewrite Hsh. split; [exact Hsp|].
  intros i Hi. rewrite Hch.
  rewrite (nth_indep _ [] (softmax_row []))
    by (rewrite length_map, chunk_length; exact Hi).
  rewrite (map_nth softmax_row).
  apply softmax_row_sum.
  assert (Hlen : numel lead * d <= length (data s)).
  { unfold wf in Hwf. rewrite Hwf, (split_last_inv _ _ _ Hsp), numel_app.
    simpl. lia. }
  pose proof (chunk_blocks (numel lead) d (data s) Hlen) as Hall.
  rewrite Forall_forall in Hall.
  assert (Hd : d <> 0).
  { rewrite Hsh, (split_last_inv _ _ _ Hsp), last_last in Hlast. exact Hlast. }
  intros Hnil.
  assert (Hin : In (nth i (chunk (numel lead) d (data s)) [])
                   (chunk (numel lead) d (data s)))
    by (apply nth_In; rewrite chunk_length; exact Hi).
  apply Hall in Hin. rewrite Hnil in Hin. simpl in Hin. lia.
Qed.

Lemma mha_weights_rows m query key value mask w :
  MultiHeadAttention.weights m query key value mask = Some w ->
  last (shape w) 0 <> 0 -> rows_sum_to_one w.
Proof.
  intros H Hlast.
  destruct (mha_weights_inv _ _ _ _ _ _ H) as (q & k & v & s & s' & _ & Hs & Hm & Hw).
  eapply softmax_rows_sum; eauto.
  eapply apply_mask_wf; eauto. eapply mha_raw_scores_wf; eauto.
Qed.

(** C5.  Every row of a post-softmax attention-weight tensor of
    [MultiHeadAttention], of [SelfAttention] and of the local and global
    attention of [HierarchicalTemporalAttention] sums to 1, the key axis
    being non-empty. *)
Theorem attention_rows_sum_to_one (w : Tensor R) :
  attention_weights w -> last (shape w) 0 <> 0 -> rows_sum_to_one w.
Proof.
  intros Hw Hlast. destruct Hw as
    [m query key value mask w H
    |m x bias mask w H
    |m B T D x level ws u a w _ _ _ _ H
    |m x w H].
  - eapply mha_weights_rows; eauto.
  - destruct (self_weights_inv _ _ _ _ _ H)
      as (b & t & h & k & q & v & k' & q' & s & s' & _ & _ & _ & _ & Hs & Hm & Hsm).
    eapply softmax_rows_sum; eauto.
    eapply apply_mask_wf; eauto. eapply self_raw_scores_wf; eauto.
  - eapply mha_weights_rows; eauto.
  - eapply mha_weights_rows; eauto.
Qed.

Lemma attention_rows_sum_to_one_witness :
  exists w,
    MultiHeadAttention.weights mha1 x111 x111 x111 None = Some w /\
    attention_weights w /\ last (shape w) 0 <> 0 /\ rows_sum_to_one w.
Proof.
  eexists. split; [reflexivity|].
  match goal with
  | |- attention_weights ?w /\ _ =>
      assert (Ha : attention_weights w)
        by (apply (weights_mha mha1 x111 x111 x111 None); reflexivity);
      assert (Hl : last (shape w) 0 <> 0) by (simpl; discriminate);
      exact (conj Ha (conj Hl (attention_rows_sum_to_one w Ha Hl)))
  end.
Defined.

(** ** Masked positions *)

Lemma softmax_masked_bound (row : list R) (j a : nat) (M : R) :
  j < length row -> a < length row ->
  nth j row 0%R = neg_big ->
  (- M <= nth a row 0)%R ->
  (0 <= nth j (softmax_row row) 0 <= exp (neg_big + M))%R.
Proof.
  intros Hj Ha Hmask Hbound.
  rewrite softmax_row_nth by exact Hj. rewrite Hmask.
  set (S := rsum (map exp row)).
  assert (Hle : (exp (nth a row 0) <= S)%R)
    by (apply exp_le_rsum, nth_In, Ha).
  pose proof (exp_pos (nth a row 0%R)) as Hpa.
  pose proof (exp_pos neg_big) as Hpn.
  assert (HS : (0 < S)%R) by lra.
  split.
  - apply Rlt_le, Rdiv_lt_0_compat; assumption.
  - apply Rle_trans with (exp neg_big / exp (nth a row 0))%R.
    + unfold Rdiv. apply Rmult_le_compat_l; [lra|].
      apply Rinv_le_contravar; assumption.
    + unfold Rdiv. rewrite <- exp_Ropp, <- exp_plus.
      destruct (Rle_lt_or_eq_dec _ _ Hbound) as [Hlt | Heq].
      * apply Rlt_le, exp_increasing. lra.
      * right. f_equal. lra.
Qed.

Lemma masked_softmax_spec s mask s' w :
  wf s -> apply_mask s (Some mask) = Some s' -> softmax_last s' = Some w ->
  exists m lead d,
    broadcast_to (shape s) mask = Some m /\
    split_last (shape s) = Some (lead, d) /\
    shape s' = shape s /\ shape w = shape s /\
    (forall i, i < numel (shape s) ->
       nth i (data s') 0%R =
       if (nth i (data m) 0%Z =? 0)%Z then neg_big else nth i (data s) 0%R) /\
    (forall i j a M, i < numel lead -> j < d -> a < d ->
       nth (i * d + j) (data m) 0%Z = 0%Z ->
       nth (i * d + a) (data m) 0%Z <> 0%Z ->
       (- M <= nth (i * d + a) (data s) 0)%R ->
       (0 <= nth (i * d + j) (data w) 0 <= exp (neg_big + M))%R).
Proof.
  intros Hwf Hm Hs. simpl in Hm.
  destruct (masked_fill_spec _ _ _ _ Hm Hwf) as (m & Hb & Hsh & Hwf' & Hnth).
  destruct (softmax_last_spec _ _ Hs Hwf') as (lead & d & Hsp & Hshw & _ & Hch).
  rewrite Hsh in Hsp. exists m, lead, d.
  split; [exact Hb|]. split; [exact Hsp|]. split; [exact Hsh|].
  split; [congruence|]. split; [exact Hnth|].
  intros i j a M Hi Hj Ha Hmj Hma Hbound.
    assert (Hnum : numel (shape s) = numel lead * d).
    { rewrite (split_last_inv _ _ _ Hsp), numel_app. simpl. lia. }
    assert (Hij : i * d + j < numel (shape s)) by (rewrite Hnum; nia).
    assert (Hia : i * d + a < numel (shape s)) by (rewrite Hnum; nia).
    assert (Hlen : numel lead * d <= length (data s')).
    { unfold wf in Hwf'. rewrite Hwf', Hsh, Hnum. lia. }
    set (row := nth i (chunk (numel lead) d (data s')) []).
    assert (Hrow : length row = d).
    { pose proof (chunk_blocks (numel lead) d (data s') Hlen) as Hall.
      rewrite Forall_forall in Hall. apply Hall.
      apply nth_In. rewrite chunk_length. exact Hi. }
    assert (Hw : nth (i * d + j) (data w) 0%R = nth j (softmax_row row) 0%R).
    { rewrite <- (nth_chunk_nth (numel lead) d (data w) i j 0%R Hi Hj).
      rewrite Hch.
      rewrite (nth_indep _ [] (softmax_row []))
        by (rewrite length_map, chunk_length; exact Hi).
      rewrite (map_nth softmax_row). reflexivity. }
    rewrite Hw. apply softmax_masked_bound with (a := a); try lia.
    + unfold row. rewrite nth_chunk_nth by assumption.
      rewrite (Hnth _ Hij), Hmj. reflexivity.
    + unfold row. rewrite nth_chunk_nth by assumption.
      rewrite (Hnth _ Hia).
      destruct (nth (i * d + a) (data m) 0%Z =? 0)%Z eqn:E.
      * apply Z.eqb_eq in E. contradiction.
      * exact Hbound.
Qed.

(** A masked call that returns weights went through the stages that
    [masked_scores] names. *)
Lemma mha_weights_masked m query key value mask w :
  MultiHeadAttention.weights m query key value (Some mask) = Some w ->
  exists s s', masked_scores s mask s' w.
Proof.
  intros H.
  destruct (mha_weights_inv _ _ _ _ _ _ H)
    as (q & k & v & s & s' & Hh & Hs & Hm & Hw).
  exists s, s'. eapply masked_mha; eauto.
Qed.

Lemma self_weights_masked m x bias mask w :
  SelfAttention.weights m x bias (Some mask) = Some w ->
  exists s s', masked_scores s mask s' w.
Proof.
  intros H.
  destruct (self_weights_inv _ _ _ _ _ H)
    as (b & t & h & k & q & v & k' & q' & s & s' & Hx & Hp & Hk & Hq & Hs & Hm & Hw).
  exists s, s'. eapply masked_self; eauto.
Qed.

(** C4.  In [MultiHeadAttention.forward] and [SelfAttention.forward] called
    with a mask, every score at a position where the (broadcast) mask is 0
    is replaced by [-1e9] before the softmax and the other scores are kept;
    and in a row with an allowed position whose score is at least [-M], the
    weight of every disallowed position lies between 0 and [exp (M - 1e9)]. *)
Theorem masked_positions_vanish (s : Tensor R) (mask : Tensor Z)
    (s' w : Tensor R) :
  masked_scores s mask s' w ->
  exists m lead d,
    broadcast_to (shape s) mask = Some m /\
    split_last (shape s) = Some (lead, d) /\
    shape s' = shape s /\ shape w = shape s /\
    (forall i, i < numel (shape s) ->
       nth i (data s') 0%R =
       if (nth i (data m) 0%Z =? 0)%Z then neg_big else nth i (data s) 0%R) /\
    (forall i j a M, i < numel lead -> j < d -> a < d ->
       nth (i * d + j) (data m) 0%Z = 0%Z ->
       nth (i * d + a) (data m) 0%Z <> 0%Z ->
       (- M <= nth (i * d + a) (data s) 0)%R ->
       (0 <= nth (i * d + j) (data w) 0 <= exp (neg_big + M))%R).
Proof.
  intros H. destruct H as
    [m query key value mask q k v s s' w _ Hs Hm Hw _
    |m x bias mask b t h k q v k' q' s s' w _ _ _ _ Hs Hm Hw _].
  - eapply masked_softmax_spec; eauto. eapply mha_raw_scores_wf; eauto.
  - eapply masked_softmax_spec; eauto. eapply self_raw_scores_wf; eauto.
Qed.

Lemma masked_positions_vanish_witness :
  exists s s' w,
    masked_scores s mask122 s' w /\
    exists m lead d,
      broadcast_to (shape s) mask122 = Some m /\
      split_last (shape s) = Some (lead, d) /\
      shape s' = shape s /\ shape w = shape s /\
      (forall i, i < numel (shape s) ->
         nth i (data s') 0%R =
         if (nth i (data m) 0%Z =? 0)%Z then neg_big else nth i (data s) 0%R) /\
      (forall i j a M, i < numel lead -> j < d -> a < d ->
         nth (i * d + j) (data m) 0%Z = 0%Z ->
         nth (i * d + a) (data m) 0%Z <> 0%Z ->
         (- M <= nth (i * d + a) (data s) 0)%R ->
         (0 <= nth (i * d + j) (data w) 0 <= exp (neg_big + M))%R).
Proof.
  do 3 eexists.
  match goal with
  | |- masked_scores ?s ?mk ?s' ?w /\ _ =>
      assert (Hm : masked_scores s mk s' w)
        by (eapply (masked_mha mha1 x121 x121 x121 mask122); reflexivity);
      exact (conj Hm (masked_positions_vanish s mk s' w Hm))
  end.
Defined.

(** ** The bias input of [SelfAttention] *)

(** C7.  In [SelfAttention.forward] called with a bias input, the query
    that enters the head split is the sum of [linear_q] of the main input
    and [linear_q] of the bias input; the key and the value are [linear_k]
    and [linear_v] of the main input alone, the same tensors as in the call
    without a bias. *)
Theorem self_attention_bias_enters_query_only
    (m : SelfAttention.t) (x b k q v : Tensor R) :
  SelfAttention.project m x (Some b) = Some (k, q, v) ->
  (exists qx qb,
      linear (SelfAttention.linear_q m) x = Some qx /\
      linear (SelfAttention.linear_q m) b = Some qb /\
      add qx qb = Some q /\
      shape q = shape qx /\
      data q = zip_with Rplus (data qx) (data qb)) /\
  linear (SelfAttention.linear_k m) x = Some k /\
  linear (SelfAttention.linear_v m) x = Some v /\
  (exists q0, SelfAttention.project m x None = Some (k, q0, v) /\
              linear (SelfAttention.linear_q m) x = Some q0) /\
  (forall r mask batch_size seq_len hidden,
      shape x = [batch_size; seq_len; hidden] ->
      SelfAttention.forward m r x (Some b) mask =
      SelfAttention.attend m r batch_size seq_len k q v mask).
Proof.
  intros H. pose proof H as Hp.
  unfold SelfAttention.project in H.
  inv_bind H. rename a into k0, E into Ek.
  inv_bind H. rename a into q1, E into Eq.
  inv_bind H. rename a into v0, E into Ev.
  inversion H; subst k0 q1 v0; clear H.
  inv_bind Eq. rename a into qx, E into Eqx.
  inv_bind Eq. rename a into qb, E into Eqb.
  split; [|split; [exact Ek | split; [exact Ev | split]]].
  - exists qx, qb. repeat split; auto.
    + unfold add in Eq. destruct (shape_eqb _ _); [|discriminate].
      inversion Eq; reflexivity.
    + unfold add in Eq. destruct (shape_eqb _ _); [|discriminate].
      inversion Eq; reflexivity.
  - exists qx. split; [|exact Eqx].
    unfold SelfAttention.project. rewrite Ek, Eqx, Ev. reflexivity.
  - intros r mask batch_size seq_len hidden Hx.
    unfold SelfAttention.forward. rewrite Hx, Hp. reflexivity.
Qed.

Lemma self_attention_bias_enters_query_only_witness :
  exists k q v,
    SelfAttention.project sa1 x121 (Some x121) = Some (k, q, v) /\
    (exists qx qb,
        linear (SelfAttention.linear_q sa1) x121 = Some qx /\
        linear (SelfAttention.linear_q sa1) x121 = Some qb /\
        add qx qb = Some q /\
        shape q = shape qx /\
        data q = zip_with Rplus (data qx) (data qb)) /\
    linear (SelfAttention.linear_k sa1) x121 = Some k /\
    linear (SelfAttention.linear_v sa1) x121 = Some v /\
    (exists q0, SelfAttention.project sa1 x121 None = Some (k, q0, v) /\
                linear (SelfAttention.linear_q sa1) x121 = Some q0) /\
    (forall r mask batch_size seq_len hidden,
        shape x121 = [batch_size; seq_len; hidden] ->
        SelfAttention.forward sa1 r x121 (Some x121) mask =
        SelfAttention.attend sa1 r batch_size seq_len k q v mask).
Proof.
  do 3 eexists.
  match goal with
  | |- ?P /\ _ =>
      assert (Hp : P) by reflexivity;
      exact (conj Hp
               (self_attention_bias_enters_query_only sa1 x121 x121 _ _ _ Hp))
  end.
Defined.

(** ** Sliding windows *)

Section Windows.
Context {A : Type} `{Zero A}.

Lemma nth_concat_map_chunk (f : list A -> list A) n k k' (l : list A) i j d :
  (forall c, In c (chunk n k l) -> length (f c) = k') ->
  i < n -> j < k' ->
  nth (i * k' + j) (concat (map f (chunk n k l))) d =
  nth j (f (nth i (chunk n k l) [])) d.
Proof.
  intros Hf Hi Hj. rewrite (nth_concat_blocks k'); auto.
  - rewrite (nth_indep _ [] (f [])) by (rewrite length_map, chunk_length; auto).
    rewrite (map_nth f). reflexivity.
  - apply Forall_forall. intros c Hc. apply in_map_iff in Hc.
    destruct Hc as (c0 & <- & Hc0). auto.
Qed.

Lemma unfold_mat_length l d w (m : list A) :
  length (unfold_mat l d w m) = (l - w + 1) * (d * w).
Proof.
  unfold unfold_mat. rewrite flat_map_concat_map.
  rewrite (concat_length_blocks (d * w)).
  - rewrite length_map, length_seq. reflexivity.
  - apply Forall_forall. intros c Hc. apply in_map_iff in Hc.
    destruct Hc as (t & <- & _). apply tab2_length.
Qed.

Lemma nth_unfold_mat l d w (m : list A) t j k :
  t < l - w + 1 -> j < d -> k < w ->
  nth (t * (d * w) + (j * w + k)) (unfold_mat l d w m) zero =
  at2 d m (t + k) j.
Proof.
  intros Ht Hj Hk. unfold unfold_mat. rewrite flat_map_concat_map.
  rewrite (nth_concat_blocks (d * w)).
  - rewrite (nth_indep _ [] ((fun t => tab2 d w (fun j k => at2 d m (t + k) j)) 0))
      by (rewrite length_map, length_seq; exact Ht).
    rewrite (map_nth (fun t => tab2 d w (fun j k => at2 d m (t + k) j))).
    rewrite seq_nth by exact Ht. simpl.
    apply (nth_tab2 d w (fun j k => at2 d m (t + k) j)); assumption.
  - apply Forall_forall. intros c Hc. apply in_map_iff in Hc.
    destruct Hc as (t' & <- & _). apply tab2_length.
  - nia.
Qed.

Lemma mat_transpose_length p q (m : list A) :
  length (mat_transpose p q m) = q * p.
Proof. apply tab2_length. Qed.

Lemma nth_mat_transpose p q (m : list A) i j :
  i < p -> j < q ->
  nth (j * p + i) (mat_transpose p q m) zero = at2 q m i j.
Proof.
  intros Hi Hj. unfold mat_transpose.
  apply (nth_tab2 q p (fun j i => at2 q m i j)); assumption.
Qed.

Lemma pad_mat_length p d (m : list A) :
  length (pad_mat p d m) = p * d + length m + p * d.
Proof. unfold pad_mat. rewrite !length_app, !repeat_length. lia. Qed.

Lemma nth_pad_mat p l d (m : list A) t j :
  length m = l * d -> j < d ->
  nth (t * d + j) (pad_mat p d m) zero =
  if (p <=? t) && (t <? p + l) then nth ((t - p) * d + j) m zero else zero.
Proof.
  intros Hm Hj. unfold pad_mat.
  destruct (p <=? t) eqn:E1; simpl.
  - apply Nat.leb_le in E1.
    rewrite app_nth2 by (rewrite repeat_length; nia).
    rewrite repeat_length.
    replace (t * d + j - p * d) with ((t - p) * d + j) by nia.
    destruct (t <? p + l) eqn:E2.
    + apply Nat.ltb_lt in E2. rewrite app_nth1 by (rewrite Hm; nia).
      reflexivity.
    + apply Nat.ltb_ge in E2. rewrite app_nth2 by (rewrite Hm; nia).
      apply nth_repeat.
  - apply Nat.leb_gt in E1.
    rewrite app_nth1 by (rewrite repeat_length; nia). apply nth_repeat.
Qed.
End Windows.

Section WindowSpecs.
Context {A : Type} `{Zero A}.

Lemma pad_time_spec (x : Tensor A) B T D p :
  shape x = [B; T; D] -> wf x ->
  exists padded,
    pad_time p x = Some padded /\
    shape padded = [B; p + T + p; D] /\
    forall b t j, b < B -> t < p + T + p -> j < D ->
      get3 padded b t j =
      if (p <=? t) && (t <? p + T) then get3 x b (t - p) j else zero.
Proof.
  intros Hsh Hwf. unfold pad_time. rewrite Hsh. simpl.
  eexists. split; [reflexivity|]. split; [reflexivity|].
  intros b t j Hb Ht Hj. unfold get3. rewrite Hsh. simpl.
  assert (Hlen : B * 1 * (T * D) <= length (data x)).
  { unfold wf in Hwf. rewrite Hwf, Hsh. simpl. lia. }
  pose proof (chunk_blocks (B * 1) (T * D) (data x) Hlen) as Hall.
  rewrite Forall_forall in Hall.
  replace ((b * (p + T + p) + t) * D + j)
    with (b * ((p + T + p) * D) + (t * D + j)) by nia.
  rewrite (nth_concat_map_chunk (pad_mat p D) (B * 1) (T * D) ((p + T + p) * D));
    [ | | lia | nia].
  - rewrite (nth_pad_mat p T D).
    + destruct ((p <=? t) && (t <? p + T)) eqn:E; [|reflexivity].
      apply andb_true_iff in E. destruct E as [E1 E2].
      apply Nat.leb_le in E1. apply Nat.ltb_lt in E2.
      rewrite nth_chunk_nth by nia. f_equal. nia.
    + apply Hall, nth_In. rewrite chunk_length. lia.
    + exact Hj.
  - intros c Hc. rewrite pad_mat_length, (Hall c Hc). nia.
Qed.

Lemma unfold1_spec (x : Tensor A) B L D w :
  shape x = [B; L; D] -> w <= L ->
  exists u,
    unfold1 w x = Some u /\
    shape u = [B; L - w + 1; D; w] /\
    forall b t j k, b < B -> t < L - w + 1 -> j < D -> k < w ->
      nth (((b * (L - w + 1) + t) * D + j) * w + k) (data u) zero =
      get3 x b (t + k) j.
Proof.
  intros Hsh Hw. unfold unfold1. rewrite Hsh.
  apply Nat.leb_le in Hw. rewrite Hw. apply Nat.leb_le in Hw.
  eexists. split; [reflexivity|]. split; [reflexivity|].
  intros b t j k Hb Ht Hj Hk. unfold get3. rewrite Hsh. simpl.
  replace (((b * (L - w + 1) + t) * D + j) * w + k)
    with (b * ((L - w + 1) * (D * w)) + (t * (D * w) + (j * w + k))) by nia.
  rewrite (nth_concat_map_chunk (unfold_mat L D w) B (L * D)
             ((L - w + 1) * (D * w))); [ | | lia | nia].
  - rewrite nth_unfold_mat by assumption. unfold at2.
    rewrite nth_chunk_nth by nia. f_equal. nia.
  - intros c _. apply unfold_mat_length.
Qed.

Lemma permute0132_spec (u : Tensor A) B T D w :
  shape u = [B; T; D; w] ->
  exists v,
    permute0132 u = Some v /\
    shape v = [B; T; w; D] /\
    forall b t k j, b < B -> t < T -> k < w -> j < D ->
      nth (((b * T + t) * w + k) * D + j) (data v) zero =
      nth (((b * T + t) * D + j) * w + k) (data u) zero.
Proof.
  intros Hsh. unfold permute0132, transpose_last2. rewrite Hsh. simpl.
  eexists. split; [reflexivity|]. split; [reflexivity|].
  intros b t k j Hb Ht Hk Hj. simpl.
  replace (((b * T + t) * w + k) * D + j)
    with ((b * T + t) * (w * D) + (k * D + j)) by nia.
  rewrite (nth_concat_map_chunk (mat_transpose D w) (B * (T * 1)) (D * w)
             (w * D)); [ | | nia | nia].
  - rewrite nth_mat_transpose by assumption. unfold at2.
    rewrite nth_chunk_nth by nia. f_equal. nia.
  - intros c _. apply mat_transpose_length.
Qed.

Lemma odd_half w : Nat.odd w = true -> (w - 1) / 2 + (w - 1) / 2 + 1 = w.
Proof.
  intros Hw. apply Nat.odd_spec in Hw. destruct Hw as [n ->].
  replace (2 * n + 1 - 1) with (n * 2) by lia.
  rewrite Nat.div_mul by lia. lia.
Qed.

End WindowSpecs.

(** C3.  For an odd window size [w] and an input of shape [(B, T, D)] with
    [T >= 1], [HierarchicalTemporalAttention.forward] pads the time axis
    with [(w - 1) / 2] zero rows on each side, [unfold] then gives exactly
    [T] windows of width [w], and window [t] of batch item [b] holds the
    timesteps [t - (w - 1) / 2 .. t + (w - 1) / 2] of that item, zero where
    the index leaves [0 .. T - 1]; its middle row is timestep [t]. *)
Theorem hta_windows_centered {A : Type} `{Zero A} (x : Tensor A)
    (B T D w : nat) :
  shape x = [B; T; D] -> wf x -> Nat.odd w = true -> 0 < T ->
  exists padded unfolded u,
    pad_time ((w - 1) / 2) x = Some padded /\
    shape padded = [B; (w - 1) / 2 + T + (w - 1) / 2; D] /\
    (forall b t j, b < B -> t < (w - 1) / 2 + T + (w - 1) / 2 -> j < D ->
       get3 padded b t j =
       if ((w - 1) / 2 <=? t) && (t <? (w - 1) / 2 + T)
       then get3 x b (t - (w - 1) / 2) j else zero) /\
    unfold1 w padded = Some unfolded /\
    shape unfolded = [B; T; D; w] /\
    HierarchicalTemporalAttention.windows B T D w x = Some u /\
    shape u = [B * T; w; D] /\
    (forall b t k j, b < B -> t < T -> k < w -> j < D ->
       get3 u (b * T + t) k j =
       if ((w - 1) / 2 <=? t + k) && (t + k <? (w - 1) / 2 + T)
       then get3 x b (t + k - (w - 1) / 2) j else zero) /\
    (forall b t j, b < B -> t < T -> j < D ->
       get3 u (b * T + t) ((w - 1) / 2) j = get3 x b t j).
Proof.
  intros Hsh Hwf Hodd HT.
  pose proof (odd_half w Hodd) as Hp. set (p := (w - 1) / 2) in *.
  destruct (pad_time_spec x B T D p Hsh Hwf) as (padded & Epad & Hpsh & Hpad).
  assert (HwL : w <= p + T + p) by lia.
  destruct (unfold1_spec padded B (p + T + p) D w Hpsh HwL)
    as (unf & Eunf & Hush & Hunf).
  replace (p + T + p - w + 1) with T in Hush, Hunf by lia.
  destruct (permute0132_spec unf B T D w Hush) as (v & Eperm & Hvsh & Hperm).
  assert (Eview : view [B * T; w; D] (contiguous v)
                  = Some (mkTensor [B * T; w; D] (data v))).
  { unfold view, contiguous. rewrite Hvsh.
    replace (numel [B * T; w; D] =? numel [B; T; w; D]) with true; auto.
    symmetry. apply Nat.eqb_eq. simpl. lia. }
  assert (Hwin : forall b t k j, b < B -> t < T -> k < w -> j < D ->
    get3 (mkTensor [B * T; w; D] (data v)) (b * T + t) k j =
    if (p <=? t + k) && (t + k <? p + T)
    then get3 x b (t + k - p) j else zero).
  { intros b t k j Hb Ht Hk Hj. unfold get3 at 1. simpl.
    rewrite Hperm, Hunf by assumption. apply Hpad; lia. }
  exists padded, unf, (mkTensor [B * T; w; D] (data v)).
  split; [exact Epad|]. split; [exact Hpsh|]. split; [exact Hpad|].
  split; [exact Eunf|]. split; [exact Hush|].
  split.
  { unfold HierarchicalTemporalAttention.windows. fold p.
    rewrite Epad. simpl. rewrite Eunf. simpl. rewrite Eperm. simpl.
    exact Eview. }
  split; [reflexivity|]. split; [exact Hwin|].
  intros b t j Hb Ht Hj. rewrite Hwin by (assumption || lia).
  replace ((p <=? t + p) && (t + p <? p + T)) with true.
  - f_equal. lia.
  - symmetry. apply andb_true_iff. split.
    + apply Nat.leb_le. lia.
    + apply Nat.ltb_lt. lia.
Qed.

Lemma hta_windows_centered_witness :
  shape x132 = [1; 3; 2] /\ wf x132 /\ Nat.odd 3 = true /\ 0 < 3 /\
  exists padded unfolded u,
    pad_time ((3 - 1) / 2) x132 = Some padded /\
    shape padded = [1; (3 - 1) / 2 + 3 + (3 - 1) / 2; 2] /\
    (forall b t j, b < 1 -> t < (3 - 1) / 2 + 3 + (3 - 1) / 2 -> j < 2 ->
       get3 padded b t j =
       if ((3 - 1) / 2 <=? t) && (t <? (3 - 1) / 2 + 3)
       then get3 x132 b (t - (3 - 1) / 2) j else zero) /\
    unfold1 3 padded = Some unfolded /\
    shape unfolded = [1; 3; 2; 3] /\
    HierarchicalTemporalAttention.windows 1 3 2 3 x132 = Some u /\
    shape u = [1 * 3; 3; 2] /\
    (forall b t k j, b < 1 -> t < 3 -> k < 3 -> j < 2 ->
       get3 u (b * 3 + t) k j =
       if ((3 - 1) / 2 <=? t + k) && (t + k <? (3 - 1) / 2 + 3)
       then get3 x132 b (t + k - (3 - 1) / 2) j else zero) /\
    (forall b t j, b < 1 -> t < 3 -> j < 2 ->
       get3 u (b * 3 + t) ((3 - 1) / 2) j = get3 x132 b t j).
Proof.
  assert (H1 : shape x132 = [1; 3; 2]) by reflexivity.
  assert (H2 : wf x132) by reflexivity.
  assert (H3 : Nat.odd 3 = true) by reflexivity.
  assert (H4 : 0 < 3) by lia.
  exact (conj H1 (conj H2 (conj H3 (conj H4
           (hta_windows_centered x132 1 3 2 3 H1 H2 H3 H4))))).
Defined.

(** The runtime raises on an empty sequence: the padded axis is shorter
    than the window. *)
Lemma hta_windows_empty_sequence {A : Type} `{Zero A} (x : Tensor A) B D w :
  shape x = [B; 0; D] -> Nat.odd w = true ->
  HierarchicalTemporalAttention.windows B 0 D w x = None.
Proof.
  intros Hsh Hodd. pose proof (odd_half w Hodd) as Hp.
  unfold HierarchicalTemporalAttention.windows.
  set (p := (w - 1) / 2) in *.
  assert (Epad : exists d0, pad_time p x = Some (mkTensor [B; p + 0 + p; D] d0)).
  { unfold pad_time. rewrite Hsh. eexists. reflexivity. }
  destruct Epad as (d0 & ->).
  change (bind (Some ?a) ?k) with (k a). cbv beta.
  unfold unfold1. cbn [shape].
  destruct (w <=? p + 0 + p) eqn:E; [|reflexivity].
  apply Nat.leb_le in E. lia.
Qed.

(** ** Shapes of the results *)

Ltac step L :=
  let y := fresh "y" in
  let E := fresh "E" in
  let S := fresh "S" in
  destruct L as (y & E & S); rewrite E; cbn [bind].

Lemma floordiv_some a b : 0 < b -> floordiv a b = Some (a / b).
Proof.
  intros Hb. unfold floordiv.
  destruct (b =? 0) eqn:E; [apply Nat.eqb_eq in E; lia | reflexivity].
Qed.

Lemma linear_shape3 l (x : Tensor R) a b c o :
  shape x = [a; b; c] -> linear_dims l c o ->
  exists y, linear l x = Some y /\ shape y = [a; b; o].
Proof.
  intros Hsh [Hi Ho]. unfold linear. rewrite Hsh. cbn [split_last bind].
  rewrite Hi, Nat.eqb_refl, Ho. eexists. split; reflexivity.
Qed.

Lemma layer_norm_shape3 ln (x : Tensor R) a b c :
  shape x = [a; b; c] -> normalized_shape ln = c ->
  exists y, layer_norm ln x = Some y /\ shape y = [a; b; c].
Proof.
  intros Hsh Hn. unfold layer_norm. rewrite Hsh. cbn [split_last bind].
  rewrite Hn, Nat.eqb_refl. eexists. split; reflexivity.
Qed.

Lemma view_infer_spec {A : Type} `{Zero A} (x : Tensor A) a m c :
  numel (shape x) = a * m * c -> 0 < a * c ->
  view_infer a c x = Some (mkTensor [a; m; c] (data x)).
Proof.
  intros Hn Hac. unfold view_infer. rewrite Hn.
  destruct (a * c =? 0) eqn:E; [apply Nat.eqb_eq in E; lia|].
  replace (a * m * c) with (m * (a * c)) by lia.
  rewrite Nat.Div0.mod_mul, Nat.eqb_refl, Nat.div_mul by lia. reflexivity.
Qed.

Lemma view_spec {A : Type} `{Zero A} (x : Tensor A) sh :
  numel sh = numel (shape x) -> view sh x = Some (mkTensor sh (data x)).
Proof. intros Hn. unfold view. rewrite Hn, Nat.eqb_refl. reflexivity. Qed.

Lemma transpose12_shape {A : Type} `{Zero A} (x : Tensor A) a b c :
  shape x = [a; b; c] ->
  exists y, transpose12 x = Some y /\ shape y = [a; c; b].
Proof.
  intros Hsh. unfold transpose12, transpose_last2. rewrite Hsh.
  cbn [split_last2 bind]. eexists. split; reflexivity.
Qed.

Lemma transpose_last2_shape4 {A : Type} `{Zero A} (x : Tensor A) a b c d :
  shape x = [a; b; c; d] ->
  exists y, transpose_last2 x = Some y /\ shape y = [a; b; d; c].
Proof.
  intros Hsh. unfold transpose_last2. rewrite Hsh.
  cbn [split_last2 bind]. eexists. split; reflexivity.
Qed.

Lemma matmul_shape3 (x y : Tensor R) n a b c :
  shape x = [n; a; b] -> shape y = [n; b; c] ->
  exists z, matmul x y = Some z /\ shape z = [n; a; c].
Proof.
  intros Hx Hy. unfold matmul. rewrite Hx, Hy. cbn [split_last2 bind].
  rewrite shape_eqb_refl, Nat.eqb_refl. cbn [andb].
  eexists. split; reflexivity.
Qed.

Lemma matmul_shape4 (x y : Tensor R) n h a b c :
  shape x = [n; h; a; b] -> shape y = [n; h; b; c] ->
  exists z, matmul x y = Some z /\ shape z = [n; h; a; c].
Proof.
  intros Hx Hy. unfold matmul. rewrite Hx, Hy. cbn [split_last2 bind].
  rewrite shape_eqb_refl, Nat.eqb_refl. cbn [andb].
  eexists. split; reflexivity.
Qed.

Lemma bmm_shape (x y : Tensor R) n a b c :
  shape x = [n; a; b] -> shape y = [n; b; c] ->
  exists z, bmm x y = Some z /\ shape z = [n; a; c].
Proof.
  intros Hx Hy. unfold bmm. rewrite Hx, Hy.
  apply (matmul_shape3 x y n a b c); assumption.
Qed.

Lemma apply_mask_shape (s : Tensor R) mask :
  mask_for (shape s) mask ->
  exists s', apply_mask s mask = Some s' /\ shape s' = shape s.
Proof.
  destruct mask as [m|]; simpl; intros Hm.
  - unfold masked_fill, broadcast_to. rewrite Hm. cbn [bind].
    eexists. split; reflexivity.
  - eexists. split; reflexivity.
Qed.

Lemma softmax_last_shape (s : Tensor R) n sh :
  shape s = n :: sh ->
  exists w, softmax_last s = Some w /\ shape w = shape s.
Proof.
  intros Hsh. unfold softmax_last.
  destruct (split_last (shape s)) as [[lead d]|] eqn:E.
  - cbn [bind]. eexists. split; reflexivity.
  - exfalso. rewrite Hsh in E.
    destruct (exists_last (l := n :: sh)) as (l' & a & Hl); [discriminate|].
    rewrite Hl, split_last_app in E. discriminate.
Qed.

Lemma add_shape (a b : Tensor R) :
  shape a = shape b -> exists c, add a b = Some c /\ shape c = shape a.
Proof.
  intros Hsh. unfold add. rewrite Hsh, shape_eqb_refl.
  eexists. split; reflexivity.
Qed.

Lemma dropout_shape d keep (x : Tensor R) : shape (dropout d keep x) = shape x.
Proof.
  unfold dropout. destruct (training d); auto.
  destruct (Req_EM_T (p d) 0); auto.
Qed.

Lemma heads_divide_dh H D :
  heads_divide H D -> 0 < D / H /\ D = H * (D / H).
Proof.
  intros (HH & HD & Hmod).
  assert (E : D = H * (D / H)) by (apply Nat.Div0.div_exact; exact Hmod).
  split; [|exact E]. destruct (D / H); lia.
Qed.

Lemma mha_split_heads_shape {A : Type} {ZA : Zero A} m H D B T (x : Tensor A) :
  mha_built m H D -> heads_divide H D -> 0 < B -> shape x = [B; T; D] ->
  MultiHeadAttention.split_heads m B x
  = Some (mkTensor [B * H; T; D / H] (data x)).
Proof.
  intros (Hh & Hd & _) Hdiv HB Hsh.
  destruct (heads_divide_dh H D Hdiv) as [Hdh HD].
  destruct Hdiv as (HH & _ & _).
  unfold MultiHeadAttention.split_heads. rewrite Hh, Hd.
  rewrite (floordiv_some D H HH). cbn [bind].
  apply view_infer_spec.
  - rewrite Hsh. simpl. rewrite HD at 1. lia.
  - nia.
Qed.

Lemma mha_heads_shape m H D B Tq Tk (query key value : Tensor R) :
  mha_built m H D -> heads_divide H D -> 0 < B ->
  shape query = [B; Tq; D] -> shape key = [B; Tk; D] ->
  shape value = [B; Tk; D] ->
  exists q k v,
    MultiHeadAttention.heads m query key value = Some (q, k, v) /\
    shape q = [B * H; Tq; D / H] /\
    shape k = [B * H; Tk; D / H] /\
    shape v = [B * H; Tk; D / H].
Proof.
  intros Hm Hdiv HB Hq Hk Hv. pose proof Hm as (_ & _ & Lq & Lk & Lv & _).
  unfold MultiHeadAttention.heads, size0. rewrite Hq. cbn [bind].
  step (linear_shape3 _ query B Tq D D Hq Lq).
  step (linear_shape3 _ key B Tk D D Hk Lk).
  step (linear_shape3 _ value B Tk D D Hv Lv).
  rewrite (mha_split_heads_shape m H D B Tq y Hm Hdiv HB S). cbn [bind].
  rewrite (mha_split_heads_shape m H D B Tk y0 Hm Hdiv HB S0). cbn [bind].
  rewrite (mha_split_heads_shape m H D B Tk y1 Hm Hdiv HB S1). cbn [bind].
  do 3 eexists. repeat split.
Qed.

Lemma mha_raw_scores_shape m H D (q k : Tensor R) n Tq Tk dh :
  mha_built m H D -> heads_divide H D ->
  shape q = [n; Tq; dh] -> shape k = [n; Tk; dh] ->
  exists s, MultiHeadAttention.raw_scores m q k = Some s /\
            shape s = [n; Tq; Tk].
Proof.
  intros (Hh & Hd & _) (HH & _ & _) Hq Hk.
  unfold MultiHeadAttention.raw_scores.
  step (transpose12_shape k n Tk dh Hk).
  step (bmm_shape q y n Tq dh Tk Hq S).
  rewrite Hh, Hd, (floordiv_some D H HH). cbn [bind].
  eexists. split; [reflexivity | exact S0].
Qed.

Lemma mha_forward_shape m H D B Tq Tk (query key value : Tensor R) mask :
  mha_built m H D -> heads_divide H D -> 0 < B ->
  shape query = [B; Tq; D] -> shape key = [B; Tk; D] ->
  shape value = [B; Tk; D] -> mask_for [B * H; Tq; Tk] mask ->
  exists o, MultiHeadAttention.forward m query key value mask = Some o /\
            shape o = [B; Tq; D].
Proof.
  intros Hm Hdiv HB Hq Hk Hv Hmask.
  pose proof Hm as (_ & Hd & _ & _ & _ & Lo).
  destruct (heads_divide_dh H D Hdiv) as [Hdh HD].
  pose proof Hdiv as (HH & HDpos & _).
  unfold MultiHeadAttention.forward, size0. rewrite Hq. cbn [bind].
  destruct (mha_heads_shape m H D B Tq Tk query key value Hm Hdiv HB Hq Hk Hv)
    as (q & k & v & E & Sq & Sk & Sv).
  rewrite E. cbn [bind].
  step (mha_raw_scores_shape m H D q k (B * H) Tq Tk (D / H) Hm Hdiv Sq Sk).
  rewrite <- S in Hmask.
  step (apply_mask_shape y mask Hmask). rewrite S in S0.
  step (softmax_last_shape y0 _ _ S0). rewrite S0 in S1.
  step (bmm_shape y1 v (B * H) Tq Tk (D / H) S1 Sv).
  rewrite Hd.
  rewrite (view_infer_spec y2 B Tq D).
  - cbn [bind]. apply (linear_shape3 _ _ B Tq D D); [reflexivity | exact Lo].
  - rewrite S2. simpl. rewrite HD at 2. lia.
  - nia.
Qed.

Lemma self_project_shape m H D B T (x : Tensor R) bias :
  self_built m H D -> shape x = [B; T; D] -> opt_shape [B; T; D] bias ->
  exists k q v,
    SelfAttention.project m x bias = Some (k, q, v) /\
    shape k = [B; T; D] /\ shape q = [B; T; D] /\ shape v = [B; T; D].
Proof.
  intros (_ & _ & _ & Lq & Lk & Lv & _) Hx Hb.
  unfold SelfAttention.project.
  step (linear_shape3 _ x B T D D Hx Lk).
  destruct bias as [b|]; simpl in Hb.
  - step (linear_shape3 _ x B T D D Hx Lq).
    step (linear_shape3 _ b B T D D Hb Lq).
    assert (Hs : shape y0 = shape y1) by congruence.
    step (add_shape y0 y1 Hs).
    step (linear_shape3 _ x B T D D Hx Lv).
    do 3 eexists. repeat split; congruence.
  - step (linear_shape3 _ x B T D D Hx Lq).
    step (linear_shape3 _ x B T D D Hx Lv).
    do 3 eexists. repeat split; congruence.
Qed.

Lemma self_split_heads_shape {A : Type} {ZA : Zero A} m H D B T (x : Tensor A) :
  self_built m H D -> heads_divide H D -> shape x = [B; T; D] ->
  SelfAttention.split_heads m B T x
  = Some (mkTensor [B; H; T; D / H] (data x)).
Proof.
  intros (_ & Hh & Hdh & _) Hdiv Hsh.
  destruct (heads_divide_dh H D Hdiv) as [_ HD].
  unfold SelfAttention.split_heads. rewrite Hh, Hdh.
  apply view_spec. rewrite Hsh. simpl. rewrite HD at 2. lia.
Qed.

Lemma self_attend_shape m H D B T r (k q v : Tensor R) mask :
  self_built m H D -> heads_divide H D ->
  shape k = [B; T; D] -> shape q = [B; T; D] -> shape v = [B; T; D] ->
  mask_for [B; H; T; T] mask ->
  exists o w,
    SelfAttention.attend m r B T k q v mask = Some (o, w) /\
    shape o = [B; T; D] /\ shape w = [B; H; T; T].
Proof.
  intros Hm Hdiv Hk Hq Hv Hmask.
  pose proof Hm as (Hhid & _ & _ & _ & _ & _ & Lo).
  destruct (heads_divide_dh H D Hdiv) as [_ HD].
  unfold SelfAttention.attend.
  rewrite (self_split_heads_shape m H D B T k Hm Hdiv Hk). cbn [bind].
  rewrite (self_split_heads_shape m H D B T q Hm Hdiv Hq). cbn [bind].
  rewrite (self_split_heads_shape m H D B T v Hm Hdiv Hv). cbn [bind].
  unfold SelfAttention.raw_scores.
  step (transpose_last2_shape4 (mkTensor [B; H; T; D / H] (data k))
          B H T (D / H) eq_refl).
  step (matmul_shape4 (mkTensor [B; H; T; D / H] (data q)) y
          B H T (D / H) T eq_refl S).
  assert (Hmask' : mask_for (shape (div_scalar y0
                     (sqrt (INR (SelfAttention.head_dim m))))) mask)
    by (simpl; rewrite S0; exact Hmask).
  step (apply_mask_shape _ mask Hmask'). simpl in S1. rewrite S0 in S1.
  step (softmax_last_shape y1 _ _ S1). rewrite S1 in S2.
  assert (Sd : shape (dropout (SelfAttention.dropout_ m) (draw r 0) y2)
               = [B; H; T; T]) by (rewrite dropout_shape; exact S2).
  step (matmul_shape4 _ (mkTensor [B; H; T; D / H] (data v))
          B H T T (D / H) Sd eq_refl).
  rewrite Hhid. rewrite (view_spec y3 [B; T; D]).
  - cbn [bind].
    step (linear_shape3 (SelfAttention.linear_out m)
            (mkTensor [B; T; D] (data y3)) B T D D eq_refl Lo).
    do 2 eexists. split; [reflexivity|].
    split; [rewrite dropout_shape; exact S4 | exact Sd].
  - rewrite S3. simpl. rewrite HD at 1. lia.
Qed.

Lemma self_forward_shape m H D B T r (x : Tensor R) bias mask :
  self_built m H D -> heads_divide H D ->
  shape x = [B; T; D] -> opt_shape [B; T; D] bias ->
  mask_for [B; H; T; T] mask ->
  exists o w,
    SelfAttention.forward m r x bias mask = Some (o, w) /\
    shape o = [B; T; D] /\ shape w = [B; H; T; T].
Proof.
  intros Hm Hdiv Hx Hb Hmask. unfold SelfAttention.forward. rewrite Hx.
  destruct (self_project_shape m H D B T x bias Hm Hx Hb)
    as (k & q & v & E & Sk & Sq & Sv).
  rewrite E. cbn [bind].
  apply (self_attend_shape m H D); assumption.
Qed.

Lemma mapM_all {A B : Type} (f : A -> res B) (P : B -> Prop) (l : list A) :
  (forall a, In a l -> exists b, f a = Some b /\ P b) ->
  exists bs, mapM f l = Some bs /\ Forall P bs /\ length bs = length l.
Proof.
  induction l as [|a l IH]; intros Hf; simpl.
  - exists []. auto.
  - destruct (Hf a (or_introl eq_refl)) as (b & Eb & Pb). rewrite Eb.
    destruct IH as (bs & Ebs & Pbs & Hlen);
      [intros a' Ha'; apply Hf; right; exact Ha'|].
    rewrite Ebs. cbn [bind]. exists (b :: bs). simpl. auto.
Qed.

Lemma windows_shape {A : Type} {ZA : Zero A} (x : Tensor A) B T D w :
  shape x = [B; T; D] -> Nat.odd w = true -> 0 < T ->
  exists u, HierarchicalTemporalAttention.windows B T D w x = Some u /\
            shape u = [B * T; w; D].
Proof.
  intros Hsh Hodd HT. pose proof (odd_half w Hodd) as Hp.
  unfold HierarchicalTemporalAttention.windows.
  set (p := (w - 1) / 2) in *.
  assert (Epad : exists d0, pad_time p x = Some (mkTensor [B; p + T + p; D] d0)).
  { unfold pad_time. rewrite Hsh. eexists. reflexivity. }
  destruct Epad as (d0 & ->). cbn [bind].
  unfold unfold1. cbn [shape].
  destruct (w <=? p + T + p) eqn:E; [|apply Nat.leb_gt in E; lia].
  cbn [bind]. unfold permute0132, transpose_last2. cbn [shape split_last2 bind].
  unfold contiguous. cbn [app].
  rewrite view_spec.
  - eexists. split; reflexivity.
  - cbn [shape]. simpl. replace (p + T + p - w + 1) with T by lia. lia.
Qed.

Lemma mean_dim2_shape (x : Tensor R) a b c d :
  shape x = [a; b; c; d] ->
  exists y, mean_dim2 x = Some y /\ shape y = [a; b; d].
Proof.
  intros Hsh. unfold mean_dim2. rewrite Hsh. eexists. split; reflexivity.
Qed.

Lemma hta_level_shape m H D B T (x : Tensor R) level :
  hta_built m H D -> hta_windows_odd m -> heads_divide H D ->
  0 < B -> 0 < T -> shape x = [B; T; D] ->
  level < HierarchicalTemporalAttention.num_levels m ->
  exists y, HierarchicalTemporalAttention.level_features m B T D x level
            = Some y /\ shape y = [B; T; D].
Proof.
  intros (_ & _ & Hlen & Hloc & _) (Hn & Hodd) Hdiv HB HT Hx Hlevel.
  unfold HierarchicalTemporalAttention.level_features.
  destruct (nth_error (HierarchicalTemporalAttention.window_sizes m) level)
    as [w|] eqn:Ew; [|apply nth_error_None in Ew; lia].
  cbn [bind].
  assert (Hw : Nat.odd w = true).
  { rewrite Forall_forall in Hodd. apply Hodd.
    apply nth_error_In with (n := level).
    rewrite nth_error_firstn. apply Nat.ltb_lt in Hlevel.
    rewrite Hlevel. exact Ew. }
  step (windows_shape x B T D w Hx Hw HT).
  destruct (nth_error (HierarchicalTemporalAttention.local_attentions m) level)
    as [a|] eqn:Ea; [|apply nth_error_None in Ea; lia].
  cbn [bind].
  assert (Ha : mha_built a H D).
  { rewrite Forall_forall in Hloc. apply Hloc.
    eapply nth_error_In; eauto. }
  assert (HBT : 0 < B * T) by nia.
  step (mha_forward_shape a H D (B * T) w w y y y None Ha Hdiv HBT S S S I).
  rewrite (view_spec y0 [B; T; w; D]) by (rewrite S0; simpl; lia).
  cbn [bind]. apply (mean_dim2_shape _ B T w D). reflexivity.
Qed.

Lemma cat_parts_shape {A : Type} {ZA : Zero A} lead d (ts : list (Tensor A)) :
  Forall (fun t => shape t = lead ++ [d]) ts ->
  exists ps, cat_parts lead ts = Some ps /\
             fold_right Nat.add 0 (map fst ps) = length ts * d.
Proof.
  induction 1 as [|t ts Ht Hts IH]; simpl.
  - exists []. auto.
  - rewrite Ht, split_last_app. cbn [bind]. rewrite shape_eqb_refl.
    destruct IH as (ps & -> & Hsum). cbn [bind].
    eexists. split; [reflexivity|]. simpl. rewrite Hsum. reflexivity.
Qed.

Lemma cat_last_shape {A : Type} {ZA : Zero A} lead d (ts : list (Tensor A)) :
  ts <> [] -> Forall (fun t => shape t = lead ++ [d]) ts ->
  exists c, cat_last ts = Some c /\ shape c = lead ++ [length ts * d].
Proof.
  intros Hne Hall. unfold cat_last. destruct ts as [|t ts]; [congruence|].
  pose proof (Forall_inv Hall) as Ht. simpl in Ht.
  rewrite Ht, split_last_app. cbn [bind].
  destruct (cat_parts_shape lead d (t :: ts) Hall) as (ps & -> & Hsum).
  cbn [bind]. rewrite Hsum. eexists. split; reflexivity.
Qed.

Lemma hta_forward_shape m H D B T r (x : Tensor R) bias mask :
  hta_built m H D -> hta_windows_odd m -> heads_divide H D ->
  0 < B -> 0 < T -> shape x = [B; T; D] ->
  exists o, HierarchicalTemporalAttention.forward m r x bias mask
            = Some (o, None) /\ shape o = [B; T; D].
Proof.
  intros Hm Hodd Hdiv HB HT Hx.
  pose proof Hm as (_ & _ & _ & _ & Hg & Lo).
  unfold HierarchicalTemporalAttention.forward. rewrite Hx.
  destruct (mapM_all (HierarchicalTemporalAttention.level_features m B T D x)
              (fun y => shape y = [B; T; D])
              (seq 0 (HierarchicalTemporalAttention.num_levels m)))
    as (feats & -> & Hfeats & Hlen).
  { intros level Hin. apply in_seq in Hin.
    apply (hta_level_shape m H D); auto. lia. }
  cbn [bind]. rewrite length_seq in Hlen.
  assert (Hmask : mask_for [B * H; T; T] None) by exact I.
  step (mha_forward_shape _ H D B T T x x x None Hg Hdiv HB Hx Hx Hx Hmask).
  destruct (cat_last_shape [B; T] D (feats ++ [y])) as (c & -> & Sc).
  { destruct feats; discriminate. }
  { apply Forall_app. split; [exact Hfeats | constructor; [exact S | constructor]]. }
  cbn [bind]. rewrite length_app, Hlen in Sc. simpl in Sc.
  assert (Lo' : linear_dims (HierarchicalTemporalAttention.linear_out m)
                  ((HierarchicalTemporalAttention.num_levels m + 1) * D) D).
  { destruct Lo as [Li Lout]. split; [rewrite Li; lia | exact Lout]. }
  step (linear_shape3 _ c B T _ D Sc Lo').
  eexists. split; [reflexivity|]. rewrite dropout_shape. exact S0.
Qed.

Lemma encoder_layer_shape gelu m l H D B T r (x : Tensor R) bias mask :
  encoder_layer_built l H D -> heads_divide H D ->
  0 < B -> 0 < T -> shape x = [B; T; D] ->
  exists y, TransformerEncoder.layer_forward gelu m r l x bias mask = Some y /\
            shape y = [B; T; D].
Proof.
  intros (Hhta & Hodd & L1 & L2 & N1 & N2) Hdiv HB HT Hx.
  unfold TransformerEncoder.layer_forward.
  step (hta_forward_shape _ H D B T (sub r 0) x bias mask
          Hhta Hodd Hdiv HB HT Hx).
  assert (Hs : shape x =
               shape (dropout (TransformerEncoder.dropout_ m) (draw r 1) y))
    by (rewrite dropout_shape; congruence).
  step (add_shape x _ Hs). rewrite Hx in S0.
  step (layer_norm_shape3 _ y0 B T D S0 N1).
  step (linear_shape3 _ y1 B T D _ S1 L1).
  assert (Sg : shape (TransformerEncoder.F_gelu gelu y2) = [B; T; 4 * D])
    by exact S2.
  step (linear_shape3 _ _ B T _ D Sg L2).
  assert (Hs' : shape y1 =
                shape (dropout (TransformerEncoder.dropout_ m) (draw r 2) y3))
    by (rewrite dropout_shape; congruence).
  step (add_shape y1 _ Hs'). rewrite S1 in S4.
  apply (layer_norm_shape3 _ y4 B T D S4 N2).
Qed.

Lemma encoder_forward_shape gelu m H D B T r (x : Tensor R) bias mask :
  encoder_built m H D -> heads_divide H D ->
  0 < B -> 0 < T -> shape x = [B; T; D] ->
  exists o, TransformerEncoder.forward gelu m r x bias mask = Some (o, None) /\
            shape o = [B; T; D].
Proof.
  intros Hm Hdiv HB HT Hx. unfold TransformerEncoder.forward.
  assert (Hrun : forall i y, shape y = [B; T; D] ->
    exists o, TransformerEncoder.run_layers gelu m r i
                (TransformerEncoder.layers m) y bias mask = Some o /\
              shape o = [B; T; D]).
  { unfold encoder_built in Hm.
    induction Hm as [|l ls Hl Hls IH]; intros i y Hy; simpl.
    - exists y. auto.
    - step (encoder_layer_shape gelu m l H D B T (sub r i) y bias mask
              Hl Hdiv HB HT Hy).
      apply IH. exact S. }
  destruct (Hrun 0 x Hx) as (o & -> & So). cbn [bind].
  exists o. auto.
Qed.

Lemma decoder_cross_shape m H D B T Tm keep (tgt2 mem : Tensor R) memory_mask :
  decoder_layer_built m H D -> heads_divide H D -> 0 < B ->
  shape tgt2 = [B; T; D] -> shape mem = [B; Tm; D] ->
  mask_for [B * H; T; Tm] memory_mask ->
  exists y, TransformerDecoderLayer.cross m keep tgt2 mem memory_mask = Some y /\
            shape y = [B; T; D].
Proof.
  intros (_ & He & _ & Ne & _) Hdiv HB Ht Hm Hmask.
  unfold TransformerDecoderLayer.cross.
  step (mha_forward_shape _ H D B T Tm tgt2 mem mem memory_mask
          He Hdiv HB Ht Hm Hm Hmask).
  assert (Hs : shape tgt2 =
               shape (dropout (TransformerDecoderLayer.dropout_ m) keep y))
    by (rewrite dropout_shape; congruence).
  step (add_shape tgt2 _ Hs). rewrite Ht in S0.
  apply (layer_norm_shape3 _ y0 B T D S0 Ne).
Qed.

Lemma decoder_layer_shape m H D B T Tm r (tgt memory : Tensor R) memo2
    tgt_mask memory_mask :
  decoder_layer_built m H D -> heads_divide H D -> 0 < B ->
  shape tgt = [B; T; D] -> shape memory = [B; Tm; D] ->
  opt_shape [B; Tm; D] memo2 ->
  mask_for [B * H; T; T] tgt_mask -> mask_for [B * H; T; Tm] memory_mask ->
  exists o, TransformerDecoderLayer.forward m r tgt memory memo2 tgt_mask
              memory_mask = Some o /\
            shape o = [B; T; D].
Proof.
  intros Hm Hdiv HB Ht Hmem Hmemo Htm Hmm.
  pose proof Hm as (Hs & _ & Ns & _ & Nf & (d_ff & F1 & F2)).
  unfold TransformerDecoderLayer.forward.
  step (mha_forward_shape _ H D B T T tgt tgt tgt tgt_mask
          Hs Hdiv HB Ht Ht Ht Htm).
  assert (Hs1 : shape tgt =
                shape (dropout (TransformerDecoderLayer.dropout_ m) (draw r 0) y))
    by (rewrite dropout_shape; congruence).
  step (add_shape tgt _ Hs1). rewrite Ht in S0.
  step (layer_norm_shape3 _ y0 B T D S0 Ns).
  step (decoder_cross_shape m H D B T Tm (draw r 1) y1 memory memory_mask
          Hm Hdiv HB S1 Hmem Hmm).
  assert (E3 : exists tgt3,
    match memo2 with
    | Some memo3 =>
        tgt3_5 <- TransformerDecoderLayer.cross m (draw r 2) y1 memo3
                    memory_mask ;;
        s <- add y2 tgt3_5 ;; Some (div_scalar s 2)
    | None => Some y2
    end = Some tgt3 /\ shape tgt3 = [B; T; D]).
  { destruct memo2 as [memo3|]; simpl in Hmemo.
    - step (decoder_cross_shape m H D B T Tm (draw r 2) y1 memo3 memory_mask
              Hm Hdiv HB S1 Hmemo Hmm).
      assert (Hs2 : shape y2 = shape y3) by congruence.
      step (add_shape y2 y3 Hs2).
      eexists. split; [reflexivity|]. simpl. congruence.
    - exists y2. auto. }
  destruct E3 as (tgt3 & -> & S3). cbn [bind].
  unfold TransformerDecoderLayer.feed_forward.
  step (linear_shape3 _ tgt3 B T D d_ff S3 F1).
  assert (Sr : shape (dropout (TransformerDecoderLayer.ff_dropout1 m)
                        (draw (sub r 3) 0) (relu y3)) = [B; T; d_ff])
    by (rewrite dropout_shape; exact S4).
  step (linear_shape3 _ _ B T d_ff D Sr F2).
  assert (Hs3 : shape tgt3 =
    shape (dropout (TransformerDecoderLayer.dropout_ m) (draw r 4)
             (dropout (TransformerDecoderLayer.ff_dropout2 m)
                (draw (sub r 3) 1) y4)))
    by (rewrite !dropout_shape; congruence).
  step (add_shape tgt3 _ Hs3). rewrite S3 in S6.
  apply (layer_norm_shape3 _ y5 B T D S6 Nf).
Qed.

Lemma decoder_forward_shape m H D B T Tm r (tgt memory : Tensor R)
    memo2 embedding tgt_mask memory_mask :
  decoder_built m H D -> heads_divide H D -> 0 < B ->
  shape tgt = [B; T; D] -> shape memory = [B; Tm; D] ->
  opt_shape [B; Tm; D] memo2 -> opt_shape [B; T; D] embedding ->
  mask_for [B * H; T; T] tgt_mask -> mask_for [B * H; T; Tm] memory_mask ->
  exists o, TransformerDecoder.forward m r tgt memory memo2 embedding tgt_mask
              memory_mask = Some o /\
            shape o = [B; T; D].
Proof.
  intros (Hlen & Hls & Nn) Hdiv HB Ht Hmem Hmemo Hemb Htm Hmm.
  unfold TransformerDecoder.forward.
  assert (Hrun : forall idx y,
    Forall (fun i => i < TransformerDecoder.num_layers m) idx ->
    shape y = [B; T; D] ->
    exists o, TransformerDecoder.run m r memory memo2 embedding tgt_mask
                memory_mask y idx = Some o /\ shape o = [B; T; D]).
  { induction idx as [|i idx IH]; intros y Hidx Hy; simpl.
    - exists y. auto.
    - pose proof (Forall_inv Hidx) as Hi. simpl in Hi.
      pose proof (Forall_inv_tail Hidx) as Hidx'.
      unfold TransformerDecoder.step.
      assert (En : exists nt,
        match embedding with
        | Some e => s <- add y e ;; layer_norm (TransformerDecoder.norm_att m) s
        | None => layer_norm (TransformerDecoder.norm_att m) y
        end = Some nt /\ shape nt = [B; T; D]).
      { destruct embedding as [e|]; simpl in Hemb.
        - assert (Hs : shape y = shape e) by congruence.
          step (add_shape y e Hs). rewrite Hy in S.
          apply (layer_norm_shape3 _ y0 B T D S Nn).
        - apply (layer_norm_shape3 _ y B T D Hy Nn). }
      destruct En as (nt & -> & Snt). cbn [bind].
      step (layer_norm_shape3 _ memory B Tm D Hmem Nn).
      assert (E2 : exists m2,
        match memo2 with
        | Some memo3 => layer_norm (TransformerDecoder.norm_att m) memo3
        | None => Some y0
        end = Some m2 /\ shape m2 = [B; Tm; D]).
      { destruct memo2 as [memo3|]; simpl in Hmemo.
        - apply (layer_norm_shape3 _ memo3 B Tm D Hmemo Nn).
        - exists y0. auto. }
      destruct E2 as (m2 & -> & Sm2). cbn [bind].
      destruct (nth_error (TransformerDecoder.layers m) i) as [l|] eqn:El;
        [|apply nth_error_None in El; lia].
      cbn [bind].
      assert (Hl : decoder_layer_built l H D).
      { rewrite Forall_forall in Hls. apply Hls. eapply nth_error_In; eauto. }
      step (decoder_layer_shape l H D B T Tm (sub r i) nt y0 (Some m2)
              tgt_mask memory_mask Hl Hdiv HB Snt S Sm2 Htm Hmm).
      apply IH; assumption. }
  apply Hrun; [|exact Ht].
  apply Forall_forall. intros i Hi. apply in_seq in Hi. lia.
Qed.

(** C8 (amended).  For an input of shape [(B, T, D)] with [D] positive and
    divisible by the head count, modules built by their constructors (odd
    window sizes), an optional bias or embedding of the shape of the input,
    masks that broadcast to the shape of the scores and, for the decoder,
    memory tensors of shape [(B, Tm, D)], the forward passes return and
    their primary output has shape [(B, T, D)]: that of [SelfAttention] for
    all [B] and [T], those of [TransformerDecoderLayer] and
    [TransformerDecoder] for [B >= 1], and those of
    [HierarchicalTemporalAttention] and [TransformerEncoder] for [B >= 1]
    and [T >= 1]. *)
Theorem forward_preserves_shape
    (gelu : R -> R) (B T Tm D H : nat)
    (sa : SelfAttention.t) (hta : HierarchicalTemporalAttention.t)
    (enc : TransformerEncoder.t) (dl : TransformerDecoderLayer.t)
    (dec : TransformerDecoder.t) (r : rng) (x : Tensor R) :
  heads_divide H D ->
  self_built sa H D ->
  hta_built hta H D -> hta_windows_odd hta ->
  encoder_built enc H D ->
  decoder_layer_built dl H D ->
  decoder_built dec H D ->
  shape x = [B; T; D] ->
  (forall bias mask,
      opt_shape [B; T; D] bias -> mask_for [B; H; T; T] mask ->
      exists o w, SelfAttention.forward sa r x bias mask = Some (o, w) /\
                  shape o = [B; T; D]) /\
  (0 < B -> 0 < T ->
   forall bias mask,
      exists o, HierarchicalTemporalAttention.forward hta r x bias mask
                = Some (o, None) /\
                shape o = [B; T; D]) /\
  (0 < B -> 0 < T ->
   forall bias mask,
      exists o, TransformerEncoder.forward gelu enc r x bias mask
                = Some (o, None) /\
                shape o = [B; T; D]) /\
  (0 < B ->
   forall memory memo2 tgt_mask memory_mask,
      shape memory = [B; Tm; D] -> opt_shape [B; Tm; D] memo2 ->
      mask_for [B * H; T; T] tgt_mask -> mask_for [B * H; T; Tm] memory_mask ->
      exists o, TransformerDecoderLayer.forward dl r x memory memo2 tgt_mask
                  memory_mask = Some o /\
                shape o = [B; T; D]) /\
  (0 < B ->
   forall memory memo2 embedding tgt_mask memory_mask,
      shape memory = [B; Tm; D] -> opt_shape [B; Tm; D] memo2 ->
      opt_shape [B; T; D] embedding ->
      mask_for [B * H; T; T] tgt_mask -> mask_for [B * H; T; Tm] memory_mask ->
      exists o, TransformerDecoder.forward dec r x memory memo2 embedding
                  tgt_mask memory_mask = Some o /\
                shape o = [B; T; D]).
Proof.
  intros Hdiv Hsa Hhta Hodd Henc Hdl Hdec Hx.
  split; [|split; [|split; [|split]]].
  - intros bias mask Hb Hm.
    destruct (self_forward_shape sa H D B T r x bias mask Hsa Hdiv Hx Hb Hm)
      as (o & w & E & So & _).
    exists o, w. auto.
  - intros HB HT bias mask. apply (hta_forward_shape hta H D); assumption.
  - intros HB HT bias mask.
    apply (encoder_forward_shape gelu enc H D); assumption.
  - intros HB memory memo2 tgt_mask memory_mask Hmem Hmemo Htm Hmm.
    apply (decoder_layer_shape dl H D B T Tm); assumption.
  - intros HB memory memo2 embedding tgt_mask memory_mask Hmem Hmemo Hemb
      Htm Hmm.
    apply (decoder_forward_shape dec H D B T Tm); assumption.
Qed.

Lemma mha1_built : mha_built mha1 1 1.
Proof. repeat split. Defined.

Lemma dl1_built : decoder_layer_built dl1 1 1.
Proof.
  split; [apply mha1_built|]. split; [apply mha1_built|].
  repeat split. exists 4. repeat split.
Defined.

Lemma forward_preserves_shape_witness :
  heads_divide 1 1 /\
  self_built sa1 1 1 /\
  hta_built hta1 1 1 /\ hta_windows_odd hta1 /\
  encoder_built enc1 1 1 /\
  decoder_layer_built dl1 1 1 /\
  decoder_built dec1 1 1 /\
  shape x121 = [1; 2; 1] /\
  (forall bias mask,
      opt_shape [1; 2; 1] bias -> mask_for [1; 1; 2; 2] mask ->
      exists o w, SelfAttention.forward sa1 keep_all x121 bias mask
                  = Some (o, w) /\
                  shape o = [1; 2; 1]) /\
  (0 < 1 -> 0 < 2 ->
   forall bias mask,
      exists o, HierarchicalTemporalAttention.forward hta1 keep_all x121
                  bias mask = Some (o, None) /\
                shape o = [1; 2; 1]) /\
  (0 < 1 -> 0 < 2 ->
   forall bias mask,
      exists o, TransformerEncoder.forward act1 enc1 keep_all x121 bias mask
                = Some (o, None) /\
                shape o = [1; 2; 1]) /\
  (0 < 1 ->
   forall memory memo2 tgt_mask memory_mask,
      shape memory = [1; 3; 1] -> opt_shape [1; 3; 1] memo2 ->
      mask_for [1 * 1; 2; 2] tgt_mask -> mask_for [1 * 1; 2; 3] memory_mask ->
      exists o, TransformerDecoderLayer.forward dl1 keep_all x121 memory memo2
                  tgt_mask memory_mask = Some o /\
                shape o = [1; 2; 1]) /\
  (0 < 1 ->
   forall memory memo2 embedding tgt_mask memory_mask,
      shape memory = [1; 3; 1] -> opt_shape [1; 3; 1] memo2 ->
      opt_shape [1; 2; 1] embedding ->
      mask_for [1 * 1; 2; 2] tgt_mask -> mask_for [1 * 1; 2; 3] memory_mask ->
      exists o, TransformerDecoder.forward dec1 keep_all x121 memory memo2
                  embedding tgt_mask memory_mask = Some o /\
                shape o = [1; 2; 1]).
Proof.
  assert (Hdiv : heads_divide 1 1) by (repeat split; lia).
  assert (Hsa : self_built sa1 1 1) by (repeat split).
  assert (Hhta : hta_built hta1 1 1)
    by (repeat split; repeat constructor; apply mha1_built).
  assert (Hodd : hta_windows_odd hta1)
    by (split; [simpl; lia | repeat constructor]).
  assert (Henc : encoder_built enc1 1 1)
    by (repeat constructor; assumption).
  assert (Hdl : decoder_layer_built dl1 1 1) by exact dl1_built.
  assert (Hdec : decoder_built dec1 1 1)
    by (split; [reflexivity
        | split; [constructor; [exact Hdl | constructor] | reflexivity]]).
  assert (Hx : shape x121 = [1; 2; 1]) by reflexivity.
  repeat (split; [assumption|]).
  exact (forward_preserves_shape act1 1 2 3 1 1 sa1 hta1 enc1 dl1 dec1
           keep_all x121 Hdiv Hsa Hhta Hodd Henc Hdl Hdec Hx).
Defined.

(** C8 as the specification states it, for every input of shape
    [(B, T, D)] with [D] divisible by the head count, fails.  On an empty
    batch the [view(.., -1, ..)] of [MultiHeadAttention] raises, and with it
    the hierarchical attention, the encoder and the decoder; on an empty
    sequence and with an even window size the sliding windows of the
    hierarchical attention raise; and so does a forward pass called with a
    mask that does not broadcast to the scores, or with a bias or an
    embedding of another length than the input. *)
Lemma forward_shape_not_preserved :
  heads_divide 1 1 /\
  self_built sa1 1 1 /\ hta_built hta1 1 1 /\ hta_windows_odd hta1 /\
  encoder_built enc1 1 1 /\ decoder_layer_built dl1 1 1 /\
  decoder_built dec1 1 1 /\
  (shape x011 = [0; 1; 1] /\
   HierarchicalTemporalAttention.forward hta1 keep_all x011 None None = None /\
   TransformerEncoder.forward act1 enc1 keep_all x011 None None = None /\
   TransformerDecoderLayer.forward dl1 keep_all x011 x011 None None None
   = None /\
   TransformerDecoder.forward dec1 keep_all x011 x011 None None None None
   = None) /\
  (shape x101 = [1; 0; 1] /\
   HierarchicalTemporalAttention.forward hta1 keep_all x101 None None = None /\
   TransformerEncoder.forward act1 enc1 keep_all x101 None None = None) /\
  (hta_built hta_even 1 1 /\ shape x111 = [1; 1; 1] /\
   HierarchicalTemporalAttention.forward hta_even keep_all x111 None None
   = None) /\
  (shape x121 = [1; 2; 1] /\ shape x131 = [1; 3; 1] /\
   shape mask133 = [1; 3; 3] /\
   SelfAttention.forward sa1 keep_all x121 None (Some mask133) = None /\
   SelfAttention.forward sa1 keep_all x121 (Some x131) None = None /\
   TransformerDecoderLayer.forward dl1 keep_all x121 x121 None
     (Some mask133) None = None /\
   TransformerDecoder.forward dec1 keep_all x121 x121 None (Some x131)
     None None = None).
Proof.
  split; [repeat split; lia|].
  split; [repeat split|].
  split; [repeat split; repeat constructor; apply mha1_built|].
  split; [split; [simpl; lia | repeat constructor]|].
  split.
  { repeat constructor; try apply mha1_built. }
  split; [exact dl1_built|].
  split.
  { split; [reflexivity|].
    split; [constructor; [exact dl1_built | constructor] | reflexivity]. }
  split; [repeat split|].
  split; [repeat split|].
  split.
  { split; [repeat split; repeat constructor; apply mha1_built|].
    split; reflexivity. }
  repeat split.
Qed.

(** ** [SelfAttention] against [MultiHeadAttention] *)

(** X17.  The two attention classes agree with each other.  With dropout
    disabled in the [SelfAttention] module and a non-empty batch, for an
    input of shape [(B, T, D)] with [D] positive and divisible by the head
    count and the same projection layers in both modules,
    [SelfAttention.forward x] without bias and mask returns the attended
    output of [MultiHeadAttention.forward x x x], and the weights it returns
    are the softmax weights of the latter, under the shape [(B, H, T, T)]
    instead of [(B * H, T, T)]. *)
Theorem self_attention_equals_mha
    (sa : SelfAttention.t) (mha : MultiHeadAttention.t) (H D B T : nat)
    (r : rng) (x : Tensor R) :
  0 < B -> heads_divide H D ->
  self_built sa H D -> mha_built mha H D ->
  SelfAttention.linear_q sa = MultiHeadAttention.query_linear mha ->
  SelfAttention.linear_k sa = MultiHeadAttention.key_linear mha ->
  SelfAttention.linear_v sa = MultiHeadAttention.value_linear mha ->
  SelfAttention.linear_out sa = MultiHeadAttention.output_linear mha ->
  dropout_off (SelfAttention.dropout_ sa) ->
  shape x = [B; T; D] ->
  exists o w wm,
    SelfAttention.forward sa r x None None = Some (o, w) /\
    MultiHeadAttention.forward mha x x x None = Some o /\
    MultiHeadAttention.weights mha x x x None = Some wm /\
    data w = data wm /\
    shape w = [B; H; T; T] /\ shape wm = [B * H; T; T] /\
    shape o = [B; T; D].
Proof.
  intros HB Hdiv Hsa Hmha Eq Ek Ev Eo Hoff Hx.
  pose proof Hsa as (Hhid & Hnh & Hhd & Lq & Lk & Lv & Lo).
  pose proof Hmha as (Mh & Md & _).
  destruct (heads_divide_dh H D Hdiv) as [Hdh HD].
  pose proof Hdiv as (HH & HDpos & _).
  destruct (linear_shape3 _ x B T D D Hx Lq) as (q & Elq & Sq).
  destruct (linear_shape3 _ x B T D D Hx Lk) as (k & Elk & Sk).
  destruct (linear_shape3 _ x B T D D Hx Lv) as (v & Elv & Sv).
  unfold SelfAttention.forward, SelfAttention.project. rewrite Hx.
  rewrite Elk, Elq, Elv. cbn [bind].
  unfold SelfAttention.attend.
  rewrite (self_split_heads_shape sa H D B T k Hsa Hdiv Sk). cbn [bind].
  rewrite (self_split_heads_shape sa H D B T q Hsa Hdiv Sq). cbn [bind].
  rewrite (self_split_heads_shape sa H D B T v Hsa Hdiv Sv). cbn [bind].
  unfold SelfAttention.raw_scores, transpose_last2, matmul.
  cbn [shape data split_last2 bind app].
  rewrite !shape_eqb_refl, !Nat.eqb_refl. cbn [andb bind].
  unfold apply_mask, softmax_last, div_scalar.
  cbn [shape data split_last bind app].
  rewrite !(dropout_off_id _ _ _ Hoff).
  cbn [shape data split_last2 bind app].
  rewrite !shape_eqb_refl, !Nat.eqb_refl. cbn [andb bind].
  cbn [numel fold_right]. rewrite ?Nat.mul_1_r, ?Nat.mul_assoc, Hhd, Hhid.
  rewrite view_spec
    by (cbn [shape numel fold_right]; rewrite HD at 1; lia).
  cbn [bind].
  match goal with
  | |- context [linear (SelfAttention.linear_out sa) ?a] =>
      destruct (linear_shape3 (SelfAttention.linear_out sa) a B T D D
                  eq_refl Lo) as (o & Elo & So)
  end.
  rewrite Elo. cbn [bind]. rewrite (dropout_off_id _ _ _ Hoff).
  exists o. eexists. eexists. split; [reflexivity|].
  unfold MultiHeadAttention.forward, MultiHeadAttention.weights,
    MultiHeadAttention.heads, size0.
  rewrite Hx, <- Eq, <- Ek, <- Ev, <- Eo, Elq, Elk, Elv. cbn [bind].
  rewrite (mha_split_heads_shape mha H D B T q Hmha Hdiv HB Sq).
  rewrite (mha_split_heads_shape mha H D B T k Hmha Hdiv HB Sk).
  rewrite (mha_split_heads_shape mha H D B T v Hmha Hdiv HB Sv).
  cbn [bind].
  unfold MultiHeadAttention.raw_scores, transpose12, transpose_last2, bmm,
    matmul.
  cbn [shape data split_last2 bind app].
  rewrite !shape_eqb_refl, !Nat.eqb_refl. cbn [andb bind].
  rewrite Mh, Md, (floordiv_some D H HH). cbn [bind].
  unfold apply_mask, softmax_last, div_scalar.
  cbn [shape data split_last bind app].
  cbn [shape data split_last2 bind app].
  rewrite !shape_eqb_refl, !Nat.eqb_refl. cbn [andb bind].
  cbn [numel fold_right]. rewrite ?Nat.mul_1_r, ?Nat.mul_assoc.
  rewrite (view_infer_spec _ B T D)
    by (cbn [shape numel fold_right]; try rewrite HD at 2; nia).
  cbn [bind].
  split; [exact Elo|]. split; [reflexivity|]. split; [reflexivity|].
  split; [reflexivity|]. split; [reflexivity | exact So].
Qed.

Lemma self_attention_equals_mha_witness :
  0 < 1 /\ heads_divide 2 2 /\
  self_built sa2z 2 2 /\ mha_built mha2 2 2 /\
  SelfAttention.linear_q sa2z = MultiHeadAttention.query_linear mha2 /\
  SelfAttention.linear_k sa2z = MultiHeadAttention.key_linear mha2 /\
  SelfAttention.linear_v sa2z = MultiHeadAttention.value_linear mha2 /\
  SelfAttention.linear_out sa2z = MultiHeadAttention.output_linear mha2 /\
  dropout_off (SelfAttention.dropout_ sa2z) /\
  shape x122 = [1; 2; 2] /\
  exists o w wm,
    SelfAttention.forward sa2z keep_all x122 None None = Some (o, w) /\
    MultiHeadAttention.forward mha2 x122 x122 x122 None = Some o /\
    MultiHeadAttention.weights mha2 x122 x122 x122 None = Some wm /\
    data w = data wm /\
    shape w = [1; 2; 2; 2] /\ shape wm = [1 * 2; 2; 2] /\
    shape o = [1; 2; 2].
Proof.
  assert (H1 : 0 < 1) by lia.
  assert (Hdiv : heads_divide 2 2) by (repeat split; lia).
  assert (Hsa : self_built sa2z 2 2) by (repeat split).
  assert (Hmha : mha_built mha2 2 2) by (repeat split).
  assert (Hoff : dropout_off (SelfAttention.dropout_ sa2z))
    by (left; reflexivity).
  repeat (split; [assumption || reflexivity|]).
  exact (self_attention_equals_mha sa2z mha2 2 2 1 2 keep_all x122
           H1 Hdiv Hsa Hmha eq_refl eq_refl eq_refl eq_refl Hoff eq_refl).
Defined.

Lemma dropout_train_fun :
  dropout drop_train =
  fun keep x =>
    mkTensor (shape x)
      (zip_with (fun i v => if keep i then (v / (1 - 1 / 2))%R else 0%R)
                (seq 0 (length (data x))) (data x)).
Proof.
  apply FunctionalExtensionality.functional_extensionality; intros keep.
  apply FunctionalExtensionality.functional_extensionality; intros x.
  unfold dropout, drop_train. cbn [training p].
  destruct (Req_EM_T (1 / 2) 0) as [E|_]; [lra | reflexivity].
Qed.

(** Both hypotheses are needed: in training mode [SelfAttention] drops
    weights and outputs that [MultiHeadAttention] keeps, and on an empty
    batch [MultiHeadAttention]'s [view(.., -1, ..)] raises while
    [SelfAttention] returns an empty tensor. *)
Lemma self_attention_differs_from_mha :
  heads_divide 1 1 /\
  self_built sa1_train 1 1 /\ self_built sa1 1 1 /\ mha_built mha1 1 1 /\
  SelfAttention.linear_q sa1_train = MultiHeadAttention.query_linear mha1 /\
  SelfAttention.linear_k sa1_train = MultiHeadAttention.key_linear mha1 /\
  SelfAttention.linear_v sa1_train = MultiHeadAttention.value_linear mha1 /\
  SelfAttention.linear_out sa1_train = MultiHeadAttention.output_linear mha1 /\
  shape x111 = [1; 1; 1] /\ shape x011 = [0; 1; 1] /\
  (exists o w o',
      SelfAttention.forward sa1_train keep_none x111 None None = Some (o, w) /\
      MultiHeadAttention.forward mha1 x111 x111 x111 None = Some o' /\
      o <> o') /\
  (exists o w,
      SelfAttention.forward sa1 keep_all x011 None None = Some (o, w) /\
      MultiHeadAttention.forward mha1 x011 x011 x011 None = None).
Proof.
  split; [repeat split; lia|].
  do 9 (split; [repeat split|]).
  split.
  - do 3 eexists. split.
    { unfold SelfAttention.forward, SelfAttention.attend.
      change (SelfAttention.dropout_ sa1_train) with drop_train.
      rewrite dropout_train_fun. reflexivity. }
    split; [reflexivity|].
    intros Heq. apply (f_equal (@data R)) in Heq. cbn in Heq.
    injection Heq as H0.
    match type of H0 with
    | context [exp ?s] => pose proof (exp_pos s) as He; set (e := exp s) in *
    end.
    assert (E1 : (e / (e + 0) = 1)%R) by (field; lra).
    rewrite E1 in H0. lra.
  - do 2 eexists. split; reflexivity.
Qed.

(** ** The head split of [MultiHeadAttention.forward] *)

(** What [view(batch_size * num_heads, -1, d_model // num_heads)] puts in a
    head: row [t] of head [h] of batch item [b] is the block
    [(h T + t) mod H] of the features of timestep [(h T + t) / H]. *)
Lemma mha_split_heads_layout {A : Type} {ZA : Zero A} m H D B T (x : Tensor A) :
  mha_built m H D -> heads_divide H D -> 0 < B -> shape x = [B; T; D] ->
  exists u,
    MultiHeadAttention.split_heads m B x = Some u /\
    shape u = [B * H; T; D / H] /\
    forall b h t j, b < B -> h < H -> t < T -> j < D / H ->
      get3 u (b * H + h) t j =
      get3 x b ((h * T + t) / H) (((h * T + t) mod H) * (D / H) + j).
Proof.
  intros Hm Hdiv HB Hsh.
  destruct (heads_divide_dh H D Hdiv) as [_ HD].
  rewrite (mha_split_heads_shape m H D B T x Hm Hdiv HB Hsh).
  eexists. split; [reflexivity|]. split; [reflexivity|].
  intros b h t j Hb Hh Ht Hj. unfold get3. cbn [shape data]. rewrite Hsh.
  f_equal.
  pose proof (Nat.div_mod_eq (h * T + t) H) as E.
  set (q := (h * T + t) / H) in *. set (r := (h * T + t) mod H) in *.
  set (dh := D / H) in *.
  replace ((b * H + h) * T + t) with (b * H * T + (H * q + r)) by lia.
  rewrite HD. ring.
Qed.

Ltac eval_uniform :=
  cbn; rewrite ?sqrt_1;
  repeat match goal with
         | |- context [exp ?s] =>
             lazymatch s with
             | 0%R => fail
             | _ => replace s with 0%R by lra
             end
         end;
  rewrite ?exp_0;
  repeat (f_equal; try lra).

(** C1 (defect).  On one batch item of two timesteps and two features,
    with two heads, the [view] of [MultiHeadAttention.forward] puts at time
    1 of head 0 the feature 1 of timestep 0, where the split of the feature
    axis that the specification describes puts the feature 0 of timestep 1.
    With uniform attention and identity value and output projections the
    forward pass then averages the two features of each timestep,
    [[1/2, 1/2], [0, 0]], instead of averaging each feature over the two
    timesteps, [[1/2, 0], [1/2, 0]]. *)
Theorem mha_view_mixes_timesteps :
  (exists u u',
      MultiHeadAttention.split_heads mha2 1 l122 = Some u /\
      spec_split_heads 2 l122 = Some u' /\
      shape u = [2; 2; 1] /\ shape u' = [2; 2; 1] /\
      get3 u 0 1 0 = get3 l122 0 0 1 /\
      get3 u' 0 1 0 = get3 l122 0 1 0 /\
      get3 u 0 1 0 <> get3 u' 0 1 0) /\
  (exists o o',
      MultiHeadAttention.forward mha2 x122 x122 x122 None = Some o /\
      spec_attend mha2 x122 x122 x122 None = Some o' /\
      shape o = [1; 2; 2] /\ shape o' = [1; 2; 2] /\
      data o = [1 / 2; 1 / 2; 0; 0]%R /\
      data o' = [1 / 2; 0; 1 / 2; 0]%R /\
      o <> o').
Proof.
  split.
  - do 2 eexists. split; [reflexivity|]. split; [reflexivity|].
    repeat split. vm_compute. discriminate.
  - assert (E : exists o o',
      MultiHeadAttention.forward mha2 x122 x122 x122 None = Some o /\
      spec_attend mha2 x122 x122 x122 None = Some o' /\
      shape o = [1; 2; 2] /\ shape o' = [1; 2; 2] /\
      data o = [1 / 2; 1 / 2; 0; 0]%R /\
      data o' = [1 / 2; 0; 1 / 2; 0]%R).
    { do 2 eexists. split; [reflexivity|]. split; [reflexivity|].
      split; [reflexivity|]. split; [reflexivity|].
      split; eval_uniform. }
    destruct E as (o & o' & E1 & E2 & S1 & S2 & D1 & D2).
    exists o, o'. repeat split; auto.
    intros Heq. rewrite Heq, D2 in D1.
    apply (f_equal (fun l => nth 1 l 0%R)) in D1. simpl in D1. lra.
Qed.

(** C2 (defect).  [SelfAttention.forward] does not compute the attention of
    section 4.1 either.  Its head split is [view(B, H, T, head_dim)] of the
    projected [(B, T, D)] buffer, without a transpose: on one batch item of
    two timesteps and two features, with two heads, time 1 of head 0 holds
    the feature 1 of timestep 0, where the split of the feature axis holds
    the feature 0 of timestep 1.  With the projection layers of [mha2], no
    bias, no mask and dropout disabled, the forward pass returns
    [[1/2, 1/2], [0, 0]], and the attention of section 4.1 on the same
    parameters [[1/2, 0], [1/2, 0]]. *)
Theorem self_attention_view_mixes_timesteps :
  SelfAttention.linear_q sa2z = MultiHeadAttention.query_linear mha2 /\
  SelfAttention.linear_k sa2z = MultiHeadAttention.key_linear mha2 /\
  SelfAttention.linear_v sa2z = MultiHeadAttention.value_linear mha2 /\
  SelfAttention.linear_out sa2z = MultiHeadAttention.output_linear mha2 /\
  dropout_off (SelfAttention.dropout_ sa2z) /\
  (exists u u',
      SelfAttention.split_heads sa2z 1 2 l122 = Some u /\
      spec_split_heads 2 l122 = Some u' /\
      shape u = [1; 2; 2; 1] /\ shape u' = [2; 2; 1] /\
      get4 u 0 0 1 0 = get3 l122 0 0 1 /\
      get3 u' 0 1 0 = get3 l122 0 1 0 /\
      get4 u 0 0 1 0 <> get3 u' 0 1 0) /\
  (exists o w o',
      SelfAttention.forward sa2z keep_all x122 None None = Some (o, w) /\
      spec_attend mha2 x122 x122 x122 None = Some o' /\
      shape o = [1; 2; 2] /\ shape o' = [1; 2; 2] /\
      data o = [1 / 2; 1 / 2; 0; 0]%R /\
      data o' = [1 / 2; 0; 1 / 2; 0]%R /\
      o <> o').
Proof.
  do 4 (split; [reflexivity|]). split; [left; reflexivity|].
  split.
  - do 2 eexists. split; [reflexivity|]. split; [reflexivity|].
    repeat split. vm_compute. discriminate.
  - assert (E : exists o w o',
      SelfAttention.forward sa2z keep_all x122 None None = Some (o, w) /\
      spec_attend mha2 x122 x122 x122 None = Some o' /\
      shape o = [1; 2; 2] /\ shape o' = [1; 2; 2] /\
      data o = [1 / 2; 1 / 2; 0; 0]%R /\
      data o' = [1 / 2; 0; 1 / 2; 0]%R).
    { do 3 eexists. split; [reflexivity|]. split; [reflexivity|].
      split; [reflexivity|]. split; [reflexivity|].
      split; eval_uniform. }
    destruct E as (o & w & o' & E1 & E2 & S1 & S2 & D1 & D2).
    exists o, w, o'. repeat split; auto.
    intros Heq. rewrite Heq, D2 in D1.
    apply (f_equal (fun l => nth 1 l 0%R)) in D1. simpl in D1. lra.
Qed.

(** ** The weight tensors are those of the forward passes *)

Lemma mha_forward_weights m query key value mask o :
  MultiHeadAttention.forward m query key value mask = Some o ->
  exists w, MultiHeadAttention.weights m query key value mask = Some w.
Proof.
  unfold MultiHeadAttention.forward, MultiHeadAttention.weights.
  destruct (size0 query); cbn [bind]; [|discriminate].
  destruct (MultiHeadAttention.heads m query key value) as [[[q k] v]|];
    cbn [bind]; [|discriminate].
  destruct (MultiHeadAttention.raw_scores m q k); cbn [bind]; [|discriminate].
  destruct (apply_mask _ mask); cbn [bind]; [|discriminate].
  destruct (softmax_last _) as [w|]; cbn [bind]; [|discriminate].
  intros _. exists w. reflexivity.
Qed.

Lemma self_forward_weights m r x bias mask o w :
  SelfAttention.forward m r x bias mask = Some (o, w) ->
  exists w0, SelfAttention.weights m x bias mask = Some w0 /\
             w = dropout (SelfAttention.dropout_ m) (draw r 0) w0.
Proof.
  unfold SelfAttention.forward, SelfAttention.weights, SelfAttention.attend.
  destruct (shape x) as [|b [|t [|h [|? ?]]]]; try discriminate.
  destruct (SelfAttention.project m x bias) as [[[k q] v]|];
    cbn [bind]; [|discriminate].
  destruct (SelfAttention.split_heads m b t k) as [k'|];
    cbn [bind]; [|discriminate].
  destruct (SelfAttention.split_heads m b t q) as [q'|];
    cbn [bind]; [|discriminate].
  destruct (SelfAttention.split_heads m b t v) as [v'|];
    cbn [bind]; [|discriminate].
  destruct (SelfAttention.raw_scores m q' k'); cbn [bind]; [|discriminate].
  destruct (apply_mask _ mask); cbn [bind]; [|discriminate].
  destruct (softmax_last _) as [w0|]; cbn [bind]; [|discriminate].
  destruct (matmul _ v'); cbn [bind]; [|discriminate].
  destruct (view _ _); cbn [bind]; [|discriminate].
  destruct (linear _ _); cbn [bind]; [|discriminate].
  intros Hf. inversion Hf; subst. exists w0. split; reflexivity.
Qed.

(** An empty batch makes [view(batch_size * num_heads, -1, _)] ambiguous:
    [MultiHeadAttention.forward] raises. *)
Lemma mha_forward_empty_batch m T D (query key value : Tensor R) mask :
  linear_dims (MultiHeadAttention.query_linear m) D D ->
  linear_dims (MultiHeadAttention.key_linear m) D D ->
  linear_dims (MultiHeadAttention.value_linear m) D D ->
  shape query = [0; T; D] ->
  MultiHeadAttention.forward m query key value mask = None.
Proof.
  intros Lq Lk Lv Hq.
  unfold MultiHeadAttention.forward, MultiHeadAttention.heads, size0.
  rewrite Hq. cbn [bind].
  destruct (linear _ query) as [q|]; [cbn [bind]|reflexivity].
  destruct (linear _ key) as [k|]; [cbn [bind]|reflexivity].
  destruct (linear _ value) as [v|]; [cbn [bind]|reflexivity].
  unfold MultiHeadAttention.split_heads at 1.
  destruct (floordiv _ _) as [dh|]; reflexivity.
Qed.

(** * Further properties of the forward passes *)

(** ** The decoder *)

(** X1.  [TransformerDecoder.forward] always runs the two-memory branch of
    its layers: called without [memo2] it hands the normalised [memory] to
    each layer as second memory, so it returns what the call with
    [memo2 = memory] returns, dropout enabled or not. *)
Theorem decoder_default_second_memory
    (m : TransformerDecoder.t) (r : rng) (tgt memory : Tensor R)
    (embedding : option (Tensor R)) (tgt_mask memory_mask : option (Tensor Z)) :
  TransformerDecoder.forward m r tgt memory None embedding tgt_mask memory_mask
  = TransformerDecoder.forward m r tgt memory (Some memory) embedding tgt_mask
      memory_mask.
Proof.
  unfold TransformerDecoder.forward.
  generalize (seq 0 (TransformerDecoder.num_layers m)) as idx. intros idx.
  revert tgt. induction idx as [|i idx IH]; intros tgt; simpl; auto.
  assert (Hstep :
    TransformerDecoder.step m r memory None embedding tgt_mask memory_mask tgt i
    = TransformerDecoder.step m r memory (Some memory) embedding tgt_mask
        memory_mask tgt i).
  { unfold TransformerDecoder.step.
    destruct (match embedding with Some e => _ | None => _ end) as [nt|];
      cbn [bind]; auto.
    destruct (layer_norm (TransformerDecoder.norm_att m) memory) as [m1|];
      reflexivity. }
  rewrite Hstep.
  destruct (TransformerDecoder.step m r memory (Some memory) embedding tgt_mask
              memory_mask tgt i); cbn [bind]; auto.
Qed.

Lemma zip_with_plus_comm (u v : list R) :
  zip_with Rplus u v = zip_with Rplus v u.
Proof.
  unfold zip_with. revert v; induction u as [|a u IH]; intros [|b v]; simpl; auto.
  rewrite IH. f_equal. apply Rplus_comm.
Qed.

Lemma add_comm (a b : Tensor R) : add a b = add b a.
Proof.
  unfold add. destruct (shape_eqb (shape a) (shape b)) eqn:E.
  - apply shape_eqb_eq in E. rewrite <- E, shape_eqb_refl.
    rewrite zip_with_plus_comm. reflexivity.
  - destruct (shape_eqb (shape b) (shape a)) eqn:E'; auto.
    apply shape_eqb_eq in E'. rewrite E', shape_eqb_refl in E. discriminate.
Qed.

(** X2.  With dropout disabled, the two memories of
    [TransformerDecoderLayer.forward] are interchangeable: the layer
    averages the two cross-attention results, so swapping [memory] and
    [memo2] does not change its output. *)
Theorem decoder_layer_memories_commute
    (m : TransformerDecoderLayer.t) (r r' : rng) (tgt memory memo2 : Tensor R)
    (tgt_mask memory_mask : option (Tensor Z)) :
  decoder_layer_dropout_off m ->
  TransformerDecoderLayer.forward m r tgt memory (Some memo2) tgt_mask
    memory_mask =
  TransformerDecoderLayer.forward m r' tgt memo2 (Some memory) tgt_mask
    memory_mask.
Proof.
  intros Hoff. pose proof Hoff as (Hd & H1 & H2).
  rewrite (decoder_layer_rng m r r' tgt memory (Some memo2) tgt_mask
             memory_mask Hoff).
  assert (Hcross : forall keep keep' tgt2 mem,
    TransformerDecoderLayer.cross m keep tgt2 mem memory_mask =
    TransformerDecoderLayer.cross m keep' tgt2 mem memory_mask).
  { intros. unfold TransformerDecoderLayer.cross.
    rewrite (dropout_off_fun _ Hd). reflexivity. }
  unfold TransformerDecoderLayer.forward.
  destruct (MultiHeadAttention.forward _ tgt tgt tgt tgt_mask) as [a|];
    cbn [bind]; auto.
  destruct (add tgt _) as [s|]; cbn [bind]; auto.
  destruct (layer_norm _ s) as [tgt2|]; cbn [bind]; auto.
  rewrite (Hcross (draw r' 2) (draw r' 1) tgt2 memo2).
  rewrite (Hcross (draw r' 2) (draw r' 1) tgt2 memory).
  destruct (TransformerDecoderLayer.cross m (draw r' 1) tgt2 memory memory_mask)
    as [c1|];
  destruct (TransformerDecoderLayer.cross m (draw r' 1) tgt2 memo2 memory_mask)
    as [c2|]; cbn [bind]; auto.
  rewrite (add_comm c1 c2). reflexivity.
Qed.

Lemma decoder_layer_memories_commute_witness :
  decoder_layer_dropout_off dl1 /\
  TransformerDecoderLayer.forward dl1 keep_all x111 x111 (Some x121) None None =
  TransformerDecoderLayer.forward dl1 keep_none x111 x121 (Some x111) None None.
Proof.
  assert (Hoff : dropout_off drop_eval) by (left; reflexivity).
  assert (Hdl : decoder_layer_dropout_off dl1) by (repeat split; exact Hoff).
  exact (conj Hdl (decoder_layer_memories_commute dl1 keep_all keep_none
                     x111 x111 x121 None None Hdl)).
Defined.

(** ** The levels of the hierarchical attention *)

Lemma mapM_ext {A B : Type} (f g : A -> res B) (l : list A) :
  (forall a, In a l -> f a = g a) -> mapM f l = mapM g l.
Proof.
  induction l as [|a l IH]; intros Hfg; simpl; auto.
  rewrite (Hfg a (or_introl eq_refl)).
  rewrite IH by (intros a' Ha'; apply Hfg; right; exact Ha'). reflexivity.
Qed.

Lemma mapM_none {A B : Type} (f : A -> res B) (l : list A) (a : A) :
  In a l -> f a = None -> mapM f l = None.
Proof.
  induction l as [|a' l IH]; intros Hin Hf; [contradiction|]. simpl.
  destruct Hin as [-> | Hin].
  - rewrite Hf. reflexivity.
  - destruct (f a'); cbn [bind]; auto. rewrite (IH Hin Hf). reflexivity.
Qed.

(** X3.  [HierarchicalTemporalAttention.forward] reads the window sizes and
    local attention modules of its first [num_levels] levels only: further
    entries of [window_sizes] (the encoder passes its whole list and keeps
    the default of three levels) have no effect on the result. *)
Theorem hta_reads_num_levels_only
    (m : HierarchicalTemporalAttention.t) (r : rng) (x : Tensor R)
    (bias : option (Tensor R)) (mask : option (Tensor Z)) :
  HierarchicalTemporalAttention.forward m r x bias mask =
  HierarchicalTemporalAttention.forward (hta_levels_only m) r x bias mask.
Proof.
  unfold HierarchicalTemporalAttention.forward.
  destruct (shape x) as [|B [|T [|D [|? ?]]]]; auto.
  cbn [hta_levels_only HierarchicalTemporalAttention.num_levels
       HierarchicalTemporalAttention.global_attention
       HierarchicalTemporalAttention.linear_out
       HierarchicalTemporalAttention.dropout_].
  rewrite (mapM_ext
             (HierarchicalTemporalAttention.level_features m B T D x)
             (HierarchicalTemporalAttention.level_features
                (hta_levels_only m) B T D x)); auto.
  intros level Hin. apply in_seq in Hin.
  unfold HierarchicalTemporalAttention.level_features.
  cbn [hta_levels_only HierarchicalTemporalAttention.window_sizes
       HierarchicalTemporalAttention.local_attentions].
  rewrite !nth_error_firstn.
  replace (level <? HierarchicalTemporalAttention.num_levels m) with true
    by (symmetry; apply Nat.ltb_lt; lia).
  reflexivity.
Qed.

(** X4.  When [window_sizes] has fewer entries than [num_levels],
    [HierarchicalTemporalAttention.forward] raises on every input: the loop
    over the levels indexes [window_sizes] out of range. *)
Theorem hta_too_few_window_sizes
    (m : HierarchicalTemporalAttention.t) (r : rng) (x : Tensor R)
    (bias : option (Tensor R)) (mask : option (Tensor Z)) :
  length (HierarchicalTemporalAttention.window_sizes m)
  < HierarchicalTemporalAttention.num_levels m ->
  HierarchicalTemporalAttention.forward m r x bias mask = None.
Proof.
  intros Hlen. unfold HierarchicalTemporalAttention.forward.
  destruct (shape x) as [|B [|T [|D [|? ?]]]]; auto.
  rewrite (mapM_none _ _
             (length (HierarchicalTemporalAttention.window_sizes m))).
  - reflexivity.
  - apply in_seq. lia.
  - unfold HierarchicalTemporalAttention.level_features.
    replace (nth_error (HierarchicalTemporalAttention.window_sizes m)
               (length (HierarchicalTemporalAttention.window_sizes m)))
      with (@None nat); [reflexivity|].
    symmetry. apply nth_error_None. lia.
Qed.

Lemma hta_too_few_window_sizes_witness :
  length (HierarchicalTemporalAttention.window_sizes hta_short)
  < HierarchicalTemporalAttention.num_levels hta_short /\
  HierarchicalTemporalAttention.forward hta_short keep_all x111 None None
  = None.
Proof.
  assert (Hlen : length (HierarchicalTemporalAttention.window_sizes hta_short)
                 < HierarchicalTemporalAttention.num_levels hta_short)
    by (simpl; lia).
  exact (conj Hlen (hta_too_few_window_sizes hta_short keep_all x111 None None
                      Hlen)).
Defined.

Lemma half_window_lt w : 0 < w -> (w - 1) / 2 + (w - 1) / 2 < w.
Proof.
  intros Hw.
  pose proof (Nat.Div0.mul_div_le (w - 1) 2). lia.
Qed.

Lemma pad_time_some {A : Type} {ZA : Zero A} (x : Tensor A) B T D p :
  shape x = [B; T; D] ->
  exists d0, pad_time p x = Some (mkTensor [B; p + T + p; D] d0).
Proof.
  intros Hsh. unfold pad_time. rewrite Hsh. eexists. reflexivity.
Qed.

(** The windows of an empty sequence, and those of an even window size. *)
Lemma windows_empty {A : Type} {ZA : Zero A} (x : Tensor A) B D w :
  shape x = [B; 0; D] -> 0 < w ->
  HierarchicalTemporalAttention.windows B 0 D w x = None.
Proof.
  intros Hsh Hw. pose proof (half_window_lt w Hw) as Hp.
  unfold HierarchicalTemporalAttention.windows.
  set (p := (w - 1) / 2) in *.
  destruct (pad_time_some x B 0 D p Hsh) as (d0 & ->). cbn [bind].
  unfold unfold1. cbn [shape].
  destruct (w <=? p + 0 + p) eqn:E; [|reflexivity].
  apply Nat.leb_le in E. lia.
Qed.

Lemma even_half w : 0 < w -> Nat.even w = true ->
  (w - 1) / 2 + (w - 1) / 2 + 2 = w.
Proof.
  intros Hw He. apply Nat.even_spec in He. destruct He as [n ->].
  replace (2 * n - 1) with (1 + (n - 1) * 2) by lia.
  rewrite Nat.div_add by lia. simpl. lia.
Qed.

Lemma windows_even {A : Type} {ZA : Zero A} (x : Tensor A) B T D w :
  shape x = [B; T; D] -> 0 < B -> 0 < D -> 0 < w -> Nat.even w = true ->
  HierarchicalTemporalAttention.windows B T D w x = None.
Proof.
  intros Hsh HB HD Hw He. pose proof (even_half w Hw He) as Hp.
  unfold HierarchicalTemporalAttention.windows.
  set (p := (w - 1) / 2) in *.
  destruct (pad_time_some x B T D p Hsh) as (d0 & ->). cbn [bind].
  unfold unfold1. cbn [shape].
  destruct (w <=? p + T + p) eqn:E; [|reflexivity].
  apply Nat.leb_le in E. cbn [bind].
  unfold permute0132, transpose_last2. cbn [shape split_last2 bind app].
  unfold contiguous, view. cbn [shape].
  replace (numel [B * T; w; D] =? numel [B; p + T + p - w + 1; w; D])
    with false; [reflexivity|].
  symmetry. apply Nat.eqb_neq. simpl.
  replace (p + T + p - w + 1) with (T - 1) by lia. nia.
Qed.

(** X5.  [HierarchicalTemporalAttention.forward] raises on an empty
    sequence: with at least one level, the padded time axis is shorter than
    the first window and [unfold] fails. *)
Theorem hta_empty_sequence_raises
    (m : HierarchicalTemporalAttention.t) (r : rng) (x : Tensor R)
    (bias : option (Tensor R)) (mask : option (Tensor Z)) (B D w : nat) :
  shape x = [B; 0; D] ->
  0 < HierarchicalTemporalAttention.num_levels m ->
  nth_error (HierarchicalTemporalAttention.window_sizes m) 0 = Some w ->
  0 < w ->
  HierarchicalTemporalAttention.forward m r x bias mask = None.
Proof.
  intros Hsh Hn Hw0 Hw. unfold HierarchicalTemporalAttention.forward.
  rewrite Hsh. rewrite (mapM_none _ _ 0).
  - reflexivity.
  - apply in_seq. lia.
  - unfold HierarchicalTemporalAttention.level_features. rewrite Hw0.
    cbn [bind]. rewrite (windows_empty x B D w Hsh Hw). reflexivity.
Qed.

Lemma hta_empty_sequence_raises_witness :
  shape x101 = [1; 0; 1] /\
  0 < HierarchicalTemporalAttention.num_levels hta1 /\
  nth_error (HierarchicalTemporalAttention.window_sizes hta1) 0 = Some 3 /\
  0 < 3 /\
  HierarchicalTemporalAttention.forward hta1 keep_all x101 None None = None.
Proof.
  assert (H1 : shape x101 = [1; 0; 1]) by reflexivity.
  assert (H2 : 0 < HierarchicalTemporalAttention.num_levels hta1)
    by (simpl; lia).
  assert (H3 : nth_error (HierarchicalTemporalAttention.window_sizes hta1) 0
               = Some 3) by reflexivity.
  assert (H4 : 0 < 3) by lia.
  exact (conj H1 (conj H2 (conj H3 (conj H4
           (hta_empty_sequence_raises hta1 keep_all x101 None None 1 1 3
              H1 H2 H3 H4))))).
Defined.

(** X6.  An even window size makes [HierarchicalTemporalAttention.forward]
    raise on every non-empty input: the padding [(w - 1) // 2] on each side
    leaves [T - 1] windows, which [view(B * T, w, D)] rejects (and for
    [T = 1] the padded axis is shorter than the window). *)
Theorem hta_even_window_raises
    (m : HierarchicalTemporalAttention.t) (r : rng) (x : Tensor R)
    (bias : option (Tensor R)) (mask : option (Tensor Z))
    (B T D level w : nat) :
  shape x = [B; T; D] -> 0 < B -> 0 < D ->
  level < HierarchicalTemporalAttention.num_levels m ->
  nth_error (HierarchicalTemporalAttention.window_sizes m) level = Some w ->
  0 < w -> Nat.even w = true ->
  HierarchicalTemporalAttention.forward m r x bias mask = None.
Proof.
  intros Hsh HB HD Hlevel Hw0 Hw He.
  unfold HierarchicalTemporalAttention.forward.
  rewrite Hsh. rewrite (mapM_none _ _ level).
  - reflexivity.
  - apply in_seq. lia.
  - unfold HierarchicalTemporalAttention.level_features. rewrite Hw0.
    cbn [bind]. rewrite (windows_even x B T D w Hsh HB HD Hw He). reflexivity.
Qed.

Lemma hta_even_window_raises_witness :
  shape x111 = [1; 1; 1] /\ 0 < 1 /\ 0 < 1 /\
  1 < HierarchicalTemporalAttention.num_levels hta_even /\
  nth_error (HierarchicalTemporalAttention.window_sizes hta_even) 1 = Some 4 /\
  0 < 4 /\ Nat.even 4 = true /\
  HierarchicalTemporalAttention.forward hta_even keep_all x111 None None = None.
Proof.
  assert (H1 : shape x111 = [1; 1; 1]) by reflexivity.
  assert (H2 : 0 < 1) by lia.
  assert (H3 : 1 < HierarchicalTemporalAttention.num_levels hta_even)
    by (simpl; lia).
  assert (H4 : nth_error (HierarchicalTemporalAttention.window_sizes hta_even) 1
               = Some 4) by reflexivity.
  assert (H5 : 0 < 4) by lia.
  assert (H6 : Nat.even 4 = true) by reflexivity.
  exact (conj H1 (conj H2 (conj H2 (conj H3 (conj H4 (conj H5 (conj H6
           (hta_even_window_raises hta_even keep_all x111 None None
              1 1 1 1 4 H1 H2 H2 H3 H4 H5 H6)))))))).
Defined.

(** ** Attention weights as probabilities *)

Lemma softmax_row_probs (r : list R) :
  Forall (fun v => 0 <= v <= 1)%R (softmax_row r).
Proof.
  unfold softmax_row. apply Forall_forall. intros v Hv.
  apply in_map_iff in Hv. destruct Hv as (x & <- & Hx).
  pose proof (exp_pos x) as Hp. pose proof (exp_le_rsum r x Hx) as Hle.
  assert (HS : (0 < rsum (map exp r))%R) by lra.
  split.
  - apply Rlt_le. apply Rdiv_lt_0_compat; assumption.
  - apply Rmult_le_reg_r with (rsum (map exp r)); [exact HS|].
    unfold Rdiv. rewrite Rmult_assoc, Rinv_l by lra. lra.
Qed.

Lemma softmax_last_probs s w :
  softmax_last s = Some w -> Forall (fun v => 0 <= v <= 1)%R (data w).
Proof.
  unfold softmax_last. intros Hs. inv_bind Hs. destruct a as [lead d].
  inversion Hs; subst w; clear Hs. cbn [data].
  apply Forall_concat. apply Forall_forall. intros c Hc.
  apply in_map_iff in Hc. destruct Hc as (c0 & <- & _).
  apply softmax_row_probs.
Qed.

(** X7.  Every entry of a post-softmax attention-weight tensor of
    [MultiHeadAttention], [SelfAttention] and of the local and global
    attention of [HierarchicalTemporalAttention] lies between 0 and 1, both
    included: a weight is a probability. *)
Theorem attention_weights_in_unit_interval (w : Tensor R) :
  attention_weights w -> Forall (fun v => 0 <= v <= 1)%R (data w).
Proof.
  intros Hw. destruct Hw as
    [m query key value mask w H
    |m x bias mask w H
    |m B T D x level ws u a w _ _ _ _ H
    |m x w H].
  - destruct (mha_weights_inv _ _ _ _ _ _ H) as (? & ? & ? & ? & s' & _ & _ & _ & Hs).
    eapply softmax_last_probs; eauto.
  - destruct (self_weights_inv _ _ _ _ _ H)
      as (? & ? & ? & ? & ? & ? & ? & ? & ? & s' & _ & _ & _ & _ & _ & _ & Hs).
    eapply softmax_last_probs; eauto.
  - destruct (mha_weights_inv _ _ _ _ _ _ H) as (? & ? & ? & ? & s' & _ & _ & _ & Hs).
    eapply softmax_last_probs; eauto.
  - destruct (mha_weights_inv _ _ _ _ _ _ H) as (? & ? & ? & ? & s' & _ & _ & _ & Hs).
    eapply softmax_last_probs; eauto.
Qed.

Lemma attention_weights_in_unit_interval_witness :
  exists w,
    MultiHeadAttention.weights mha1 x121 x121 x121 (Some mask122) = Some w /\
    attention_weights w /\ Forall (fun v => 0 <= v <= 1)%R (data w).
Proof.
  eexists. split; [reflexivity|].
  match goal with
  | |- attention_weights ?w /\ _ =>
      assert (Ha : attention_weights w)
        by (apply (weights_mha mha1 x121 x121 x121 (Some mask122));
            reflexivity);
      exact (conj Ha (attention_weights_in_unit_interval w Ha))
  end.
Defined.

(** ** Rows that are masked everywhere, masks that allow everything *)

Lemma rsum_exp_const (r : list R) (c : R) :
  (forall j, j < length r -> nth j r 0%R = c) ->
  rsum (map exp r) = (INR (length r) * exp c)%R.
Proof.
  induction r as [|a r IH]; intros Hall.
  - simpl. lra.
  - assert (Ha : a = c) by (apply (Hall 0); simpl; lia).
    assert (Hr : forall j, j < length r -> nth j r 0%R = c)
      by (intros j Hj; apply (Hall (S j)); simpl; lia).
    cbn [map rsum fold_right length]. fold (rsum (map exp r)).
    rewrite (IH Hr), S_INR, Ha. lra.
Qed.

Lemma softmax_row_const (r : list R) (c : R) (j : nat) :
  (forall j, j < length r -> nth j r 0%R = c) -> j < length r ->
  nth j (softmax_row r) 0%R = (1 / INR (length r))%R.
Proof.
  intros Hall Hj. rewrite softmax_row_nth by exact Hj.
  rewrite (Hall j Hj), (rsum_exp_const r c Hall).
  pose proof (exp_pos c).
  assert (0 < INR (length r))%R by (apply lt_0_INR; lia).
  field. split; lra.
Qed.

(** X8.  A row of scores that the mask disallows everywhere does not get
    zero weights: every score of the row is [-1e9], and the softmax gives
    each of the [d] keys the weight [1 / d]. *)
Theorem fully_masked_row_is_uniform (s : Tensor R) (mask : Tensor Z)
    (s' w : Tensor R) :
  masked_scores s mask s' w ->
  exists m lead d,
    broadcast_to (shape s) mask = Some m /\
    split_last (shape s) = Some (lead, d) /\
    forall i, i < numel lead ->
      (forall j, j < d -> nth (i * d + j) (data m) 0%Z = 0%Z) ->
      forall j, j < d -> nth (i * d + j) (data w) 0%R = (1 / INR d)%R.
Proof.
  intros H.
  assert (Hwf : wf s).
  { destruct H; [eapply mha_raw_scores_wf | eapply self_raw_scores_wf]; eauto. }
  assert (Hm : apply_mask s (Some mask) = Some s') by (destruct H; assumption).
  assert (Hs : softmax_last s' = Some w) by (destruct H; assumption).
  clear H. simpl in Hm.
  destruct (masked_fill_spec _ _ _ _ Hm Hwf) as (m & Hb & Hsh & Hwf' & Hnth).
  destruct (softmax_last_spec _ _ Hs Hwf') as (lead & d & Hsp & Hshw & _ & Hch).
  rewrite Hsh in Hsp. exists m, lead, d.
  split; [exact Hb|]. split; [exact Hsp|].
  intros i Hi Hall j Hj.
  assert (Hnum : numel (shape s) = numel lead * d).
  { rewrite (split_last_inv _ _ _ Hsp), numel_app. simpl. lia. }
  assert (Hlen : numel lead * d <= length (data s')).
  { unfold wf in Hwf'. rewrite Hwf', Hsh, Hnum. lia. }
  set (row := nth i (chunk (numel lead) d (data s')) []).
  assert (Hrow : length row = d).
  { pose proof (chunk_blocks (numel lead) d (data s') Hlen) as Hb'.
    rewrite Forall_forall in Hb'. apply Hb'.
    apply nth_In. rewrite chunk_length. exact Hi. }
  assert (Hw : nth (i * d + j) (data w) 0%R = nth j (softmax_row row) 0%R).
  { rewrite <- (nth_chunk_nth (numel lead) d (data w) i j 0%R Hi Hj).
    rewrite Hch.
    rewrite (nth_indep _ [] (softmax_row []))
      by (rewrite length_map, chunk_length; exact Hi).
    rewrite (map_nth softmax_row). reflexivity. }
  rewrite Hw.
  replace (INR d) with (INR (length row)) by (rewrite Hrow; reflexivity).
  apply softmax_row_const with (c := neg_big); [|lia].
  intros j' Hj'. rewrite Hrow in Hj'. unfold row.
  rewrite nth_chunk_nth by assumption.
  assert (Hij : i * d + j' < numel (shape s)) by (rewrite Hnum; nia).
  rewrite (Hnth _ Hij), (Hall j' Hj'). reflexivity.
Qed.

Lemma fully_masked_row_is_uniform_witness :
  exists s s' w,
    masked_scores s zeros122 s' w /\
    exists m lead d,
      broadcast_to (shape s) zeros122 = Some m /\
      split_last (shape s) = Some (lead, d) /\
      forall i, i < numel lead ->
        (forall j, j < d -> nth (i * d + j) (data m) 0%Z = 0%Z) ->
        forall j, j < d -> nth (i * d + j) (data w) 0%R = (1 / INR d)%R.
Proof.
  do 3 eexists.
  match goal with
  | |- masked_scores ?s ?mk ?s' ?w /\ _ =>
      assert (Hm : masked_scores s mk s' w)
        by (eapply (masked_mha mha1 x121 x121 x121 zeros122); reflexivity);
      exact (conj Hm (fully_masked_row_is_uniform s mk s' w Hm))
  end.
Defined.

Lemma unravel_adjust sh : forall i, i < numel sh ->
  zip_with (fun m j => if m =? 1 then 0 else j) sh (unravel sh i)
  = unravel sh i.
Proof.
  induction sh as [|n sh IH]; intros i Hi; [reflexivity|].
  simpl in Hi. assert (HN : 0 < numel sh) by nia.
  cbn [unravel]. unfold zip_with in *. cbn [combine map fst snd].
  rewrite IH by (apply Nat.mod_upper_bound; lia). f_equal.
  destruct (n =? 1) eqn:E; [|reflexivity].
  apply Nat.eqb_eq in E. subst n. symmetry. apply Nat.div_small. lia.
Qed.

Lemma ravel_unravel sh : forall i, i < numel sh -> ravel sh (unravel sh i) = i.
Proof.
  induction sh as [|n sh IH]; intros i Hi.
  - simpl in *. lia.
  - simpl in Hi. assert (HN : 0 < numel sh) by nia.
    cbn [unravel ravel]. rewrite IH by (apply Nat.mod_upper_bound; lia).
    pose proof (Nat.div_mod_eq i (numel sh)). lia.
Qed.

Lemma broadcastable_refl sh : broadcastable sh sh = true.
Proof.
  induction sh as [|n sh IH]; simpl; auto.
  rewrite Nat.eqb_refl, IH. reflexivity.
Qed.

Lemma map_nth_seq_id {A : Type} (l : list A) (d : A) :
  map (fun i => nth i l d) (seq 0 (length l)) = l.
Proof.
  apply nth_ext with (d := d) (d' := d).
  - rewrite length_map, length_seq. reflexivity.
  - intros n Hn. rewrite length_map, length_seq in Hn.
    rewrite (nth_indep _ d ((fun i => nth i l d) 0))
      by (rewrite length_map, length_seq; exact Hn).
    rewrite (map_nth (fun i => nth i l d)), seq_nth by exact Hn. reflexivity.
Qed.

(** Broadcasting a tensor to its own shape returns it. *)
Lemma broadcast_to_same {A : Type} {ZA : Zero A} (t : Tensor A) :
  wf t -> broadcast_to (shape t) t = Some t.
Proof.
  intros Hwf. unfold broadcast_to.
  rewrite Nat.sub_diag. cbn [repeat app]. rewrite broadcastable_refl.
  f_equal. destruct t as [sh d]. cbn [shape data] in *. f_equal.
  unfold wf in Hwf. cbn [shape data] in Hwf. rewrite <- Hwf.
  rewrite <- (map_nth_seq_id d zero) at 2.
  apply map_ext_in. intros i Hi. apply in_seq in Hi.
  rewrite unravel_adjust, ravel_unravel by lia. reflexivity.
Qed.

Lemma masked_fill_all_allowed (s : Tensor R) (mask : Tensor Z) (v : R) :
  wf s -> wf mask -> shape mask = shape s ->
  Forall (fun z => z <> 0%Z) (data mask) ->
  masked_fill s mask v = Some s.
Proof.
  intros Hs Hm Hsh Hall. unfold masked_fill.
  rewrite <- Hsh, (broadcast_to_same mask Hm). cbn [bind].
  f_equal. destruct s as [sh d]. cbn [shape data] in *. rewrite Hsh. f_equal.
  assert (Hlen : length d = length (data mask)).
  { unfold wf in *. cbn [shape data] in *. congruence. }
  clear Hs Hm Hsh. revert Hlen Hall. generalize (data mask) as dm.
  unfold zip_with.
  induction d as [|a d IH]; intros [|b dm] Hlen Hall; simpl in *;
    try discriminate; auto.
  inversion Hall as [|? ? Hb Hall']; subst.
  destruct (b =? 0)%Z eqn:E; [apply Z.eqb_eq in E; contradiction|].
  f_equal. apply IH; auto.
Qed.

(** X9.  A mask of the shape of the scores that allows every position is
    the same as no mask: [MultiHeadAttention.forward] returns the same
    result with it and with [mask = None]. *)
Theorem mha_all_allowed_mask_is_no_mask
    (m : MultiHeadAttention.t) (H D B Tq Tk : nat)
    (query key value : Tensor R) (mask : Tensor Z) :
  mha_built m H D -> heads_divide H D -> 0 < B ->
  shape query = [B; Tq; D] -> shape key = [B; Tk; D] ->
  shape value = [B; Tk; D] ->
  shape mask = [B * H; Tq; Tk] -> wf mask ->
  Forall (fun z => z <> 0%Z) (data mask) ->
  MultiHeadAttention.forward m query key value (Some mask) =
  MultiHeadAttention.forward m query key value None.
Proof.
  intros Hm Hdiv HB Hq Hk Hv Hmsh Hmwf Hall.
  unfold MultiHeadAttention.forward.
  destruct (size0 query) as [batch_size|]; cbn [bind]; auto.
  destruct (mha_heads_shape m H D B Tq Tk query key value Hm Hdiv HB Hq Hk Hv)
    as (q & k & v & E & Sq & Sk & Sv).
  rewrite E. cbn [bind].
  destruct (mha_raw_scores_shape m H D q k (B * H) Tq Tk (D / H) Hm Hdiv Sq Sk)
    as (s & Es & Ss).
  rewrite Es. cbn [bind apply_mask].
  rewrite (masked_fill_all_allowed s mask neg_big); auto.
  - eapply mha_raw_scores_wf; eauto.
  - congruence.
Qed.

Lemma mha_all_allowed_mask_is_no_mask_witness :
  mha_built mha1 1 1 /\ heads_divide 1 1 /\ 0 < 1 /\
  shape x111 = [1; 1; 1] /\ shape x111 = [1; 1; 1] /\ shape x111 = [1; 1; 1] /\
  shape ones111 = [1 * 1; 1; 1] /\ wf ones111 /\
  Forall (fun z => z <> 0%Z) (data ones111) /\
  MultiHeadAttention.forward mha1 x111 x111 x111 (Some ones111) =
  MultiHeadAttention.forward mha1 x111 x111 x111 None.
Proof.
  assert (Hm : mha_built mha1 1 1) by (repeat split).
  assert (Hdiv : heads_divide 1 1) by (repeat split; lia).
  assert (H1 : 0 < 1) by lia.
  assert (Hx : shape x111 = [1; 1; 1]) by reflexivity.
  assert (Hs : shape ones111 = [1 * 1; 1; 1]) by reflexivity.
  assert (Hw : wf ones111) by reflexivity.
  assert (Ha : Forall (fun z => z <> 0%Z) (data ones111))
    by (repeat constructor; discriminate).
  exact (conj Hm (conj Hdiv (conj H1 (conj Hx (conj Hx (conj Hx (conj Hs
           (conj Hw (conj Ha
              (mha_all_allowed_mask_is_no_mask mha1 1 1 1 1 1 x111 x111 x111
                 ones111 Hm Hdiv H1 Hx Hx Hx Hs Hw Ha)))))))))).
Defined.

(** ** The bias input of [SelfAttention], again *)

Section ZipBlocks.
Context {A B C : Type}.

Lemma firstn_zip_with (f : A -> B -> C) n (u : list A) (v : list B) :
  firstn n (zip_with f u v) = zip_with f (firstn n u) (firstn n v).
Proof.
  unfold zip_with. rewrite firstn_map, combine_firstn. reflexivity.
Qed.

Lemma skipn_zip_with (f : A -> B -> C) n (u : list A) (v : list B) :
  skipn n (zip_with f u v) = zip_with f (skipn n u) (skipn n v).
Proof.
  unfold zip_with. revert u v; induction n as [|n IH]; intros u v; auto.
  destruct u as [|a u]; [reflexivity|].
  destruct v as [|b v]; simpl.
  - destruct (skipn n u); reflexivity.
  - apply IH.
Qed.

Lemma chunk_zip_with (f : A -> B -> C) n k (u : list A) (v : list B) :
  chunk n k (zip_with f u v)
  = zip_with (zip_with f) (chunk n k u) (chunk n k v).
Proof.
  revert u v; induction n as [|n IH]; intros u v; [reflexivity|].
  cbn [chunk]. rewrite firstn_zip_with, skipn_zip_with, IH. reflexivity.
Qed.
End ZipBlocks.

Lemma dot_plus_l (r1 r2 w : list R) :
  length r1 = length r2 ->
  dot (zip_with Rplus r1 r2) w = (dot r1 w + dot r2 w)%R.
Proof.
  unfold dot, zip_with. revert r2 w.
  induction r1 as [|a r1 IH]; intros [|b r2] w Hlen; simpl in *;
    try discriminate; [lra|].
  destruct w as [|c w]; simpl; [lra|].
  rewrite IH by lia. lra.
Qed.

Lemma nth_linear_row l (x : list R) o :
  o < out_features l ->
  nth o (linear_row l x) 0%R
  = (dot x (nth o (weight l) []) + nth o (lbias l) 0)%R.
Proof.
  intros Ho. unfold linear_row.
  rewrite (nth_indep _ 0%R
             ((fun o => dot x (nth o (weight l) []) + nth o (lbias l) 0)%R 0))
    by (rewrite length_map, length_seq; exact Ho).
  rewrite (map_nth (fun o => dot x (nth o (weight l) []) + nth o (lbias l) 0)%R).
  rewrite seq_nth by exact Ho. reflexivity.
Qed.

Lemma linear_row_length l (x : list R) :
  length (linear_row l x) = out_features l.
Proof. unfold linear_row. rewrite length_map, length_seq. reflexivity. Qed.

Lemma nth_linear3 l (x y : Tensor R) B T D i o :
  shape x = [B; T; D] -> in_features l = D -> linear l x = Some y ->
  i < B * T -> o < out_features l ->
  shape y = [B; T; out_features l] /\
  length (data y) = B * T * out_features l /\
  nth (i * out_features l + o) (data y) 0%R
  = (dot (nth i (chunk (B * T) D (data x)) []) (nth o (weight l) [])
     + nth o (lbias l) 0)%R.
Proof.
  intros Hsh Hin Hy Hi Ho. unfold linear in Hy. rewrite Hsh in Hy.
  cbn [split_last bind] in Hy. rewrite Hin, Nat.eqb_refl in Hy.
  inversion Hy; subst y; clear Hy. cbn [shape data app].
  simpl numel. rewrite Nat.mul_1_r.
  split; [reflexivity|]. split.
  - rewrite (concat_length_blocks (out_features l)).
    + rewrite length_map, chunk_length. reflexivity.
    + apply Forall_forall. intros c Hc. apply in_map_iff in Hc.
      destruct Hc as (c0 & <- & _). apply linear_row_length.
  - rewrite (nth_concat_map_chunk (linear_row l) (B * T) D (out_features l));
      auto using linear_row_length.
    apply nth_linear_row. exact Ho.
Qed.

(** X10.  The bias vector of [linear_q] is counted twice when a bias input
    is given: the query [linear_q(x) + linear_q(bias)] is
    [linear_q(x + bias)] plus the bias vector of the layer, so a zero bias
    input is not the same as no bias input. *)
Theorem self_bias_adds_query_bias_twice
    (m : SelfAttention.t) (B T D : nat) (x b k q v : Tensor R) :
  shape x = [B; T; D] -> shape b = [B; T; D] -> wf x -> wf b ->
  in_features (SelfAttention.linear_q m) = D ->
  SelfAttention.project m x (Some b) = Some (k, q, v) ->
  exists xb qs,
    add x b = Some xb /\
    linear (SelfAttention.linear_q m) xb = Some qs /\
    shape q = shape qs /\
    forall i o, i < B * T -> o < out_features (SelfAttention.linear_q m) ->
      nth (i * out_features (SelfAttention.linear_q m) + o) (data q) 0%R
      = (nth (i * out_features (SelfAttention.linear_q m) + o) (data qs) 0
         + nth o (lbias (SelfAttention.linear_q m)) 0)%R.
Proof.
  intros Hx Hb Hwx Hwb Hin Hp.
  set (l := SelfAttention.linear_q m) in *.
  unfold SelfAttention.project in Hp. fold l in Hp.
  inv_bind Hp. inv_bind Hp. inv_bind Hp.
  injection Hp as Hk Hq Hv.
  repeat match goal with
         | H : ?a = k |- _ => subst a
         | H : ?a = q |- _ => subst a
         | H : ?a = v |- _ => subst a
         end.
  clear E E1.
  apply bind_some in E0. destruct E0 as (qx & Eqx & E0).
  apply bind_some in E0. destruct E0 as (qb & Eqb & E0).
  assert (Exb : add x b = Some (mkTensor [B; T; D] (zip_with Rplus (data x) (data b)))).
  { unfold add. rewrite Hx, Hb, shape_eqb_refl. reflexivity. }
  destruct (linear_shape3 l (mkTensor [B; T; D] (zip_with Rplus (data x) (data b)))
              B T D (out_features l) eq_refl (conj Hin eq_refl))
    as (qs & Eqs & Sqs).
  exists (mkTensor [B; T; D] (zip_with Rplus (data x) (data b))), qs.
  split; [exact Exb|]. split; [exact Eqs|].
  assert (Hq : shape q = shape qx /\ data q = zip_with Rplus (data qx) (data qb)).
  { unfold add in E0. destruct (shape_eqb _ _); [|discriminate].
    inversion E0; auto. }
  destruct Hq as [Sq Dq].
  assert (Hlx : length (data x) = B * T * D)
    by (unfold wf in Hwx; rewrite Hwx, Hx; simpl; lia).
  assert (Hlb : length (data b) = B * T * D)
    by (unfold wf in Hwb; rewrite Hwb, Hb; simpl; lia).
  split.
  - destruct (linear_shape3 l x B T D (out_features l) Hx (conj Hin eq_refl))
      as (qx' & Eqx' & Sqx).
    rewrite Eqx in Eqx'. injection Eqx' as <-. congruence.
  - intros i o Hi Ho.
    destruct (nth_linear3 l x qx B T D i o Hx Hin Eqx Hi Ho) as (_ & Lx & Nx).
    destruct (nth_linear3 l b qb B T D i o Hb Hin Eqb Hi Ho) as (_ & Lb & Nb).
    destruct (nth_linear3 l
                (mkTensor [B; T; D] (zip_with Rplus (data x) (data b)))
                qs B T D i o eq_refl Hin Eqs Hi Ho) as (_ & _ & Ns).
    cbn [data] in Ns.
    rewrite Dq, (nth_zip_with Rplus _ _ _ 0%R 0%R 0%R) by nia.
    rewrite Nx, Nb, Ns, chunk_zip_with.
    rewrite (nth_zip_with (zip_with Rplus) _ _ i [] [] [])
      by (rewrite chunk_length; exact Hi).
    rewrite dot_plus_l; [lra|].
    assert (Hbx : B * T * D <= length (data x)) by lia.
    assert (Hbb : B * T * D <= length (data b)) by lia.
    pose proof (chunk_blocks (B * T) D (data x) Hbx) as Fx.
    pose proof (chunk_blocks (B * T) D (data b) Hbb) as Fb.
    rewrite Forall_forall in Fx, Fb.
    rewrite (Fx (nth i (chunk (B * T) D (data x)) []))
      by (apply nth_In; rewrite chunk_length; exact Hi).
    rewrite (Fb (nth i (chunk (B * T) D (data b)) []))
      by (apply nth_In; rewrite chunk_length; exact Hi).
    reflexivity.
Qed.

Lemma self_bias_adds_query_bias_twice_witness :
  exists k q v,
    shape x121 = [1; 2; 1] /\ shape x121 = [1; 2; 1] /\ wf x121 /\ wf x121 /\
    in_features (SelfAttention.linear_q sa1) = 1 /\
    SelfAttention.project sa1 x121 (Some x121) = Some (k, q, v) /\
    exists xb qs,
      add x121 x121 = Some xb /\
      linear (SelfAttention.linear_q sa1) xb = Some qs /\
      shape q = shape qs /\
      forall i o, i < 1 * 2 -> o < out_features (SelfAttention.linear_q sa1) ->
        nth (i * out_features (SelfAttention.linear_q sa1) + o) (data q) 0%R
        = (nth (i * out_features (SelfAttention.linear_q sa1) + o) (data qs) 0
           + nth o (lbias (SelfAttention.linear_q sa1)) 0)%R.
Proof.
  do 3 eexists.
  assert (Hx : shape x121 = [1; 2; 1]) by reflexivity.
  assert (Hw : wf x121) by reflexivity.
  assert (Hi : in_features (SelfAttention.linear_q sa1) = 1) by reflexivity.
  split; [exact Hx|]. split; [exact Hx|]. split; [exact Hw|].
  split; [exact Hw|]. split; [exact Hi|].
  match goal with
  | |- ?P /\ _ =>
      assert (Hp : P) by reflexivity;
      exact (conj Hp
               (self_bias_adds_query_bias_twice sa1 1 2 1 x121 x121 _ _ _
                  Hx Hx Hw Hw Hi Hp))
  end.
Defined.

(** ** Cross-attention shapes, the empty batch and the empty memory *)

(** X11.  For a query of shape [(B, Tq, D)] and a key and value of shape
    [(B, Tk, D)], with a non-empty batch, [MultiHeadAttention.forward]
    returns an output of the shape of the query, and its softmax weights
    have shape [(B * H, Tq, Tk)]; [Tq] and [Tk] may differ and may be 0. *)
Theorem mha_forward_returns
    (m : MultiHeadAttention.t) (H D B Tq Tk : nat)
    (query key value : Tensor R) (mask : option (Tensor Z)) :
  mha_built m H D -> heads_divide H D -> 0 < B ->
  shape query = [B; Tq; D] -> shape key = [B; Tk; D] ->
  shape value = [B; Tk; D] -> mask_for [B * H; Tq; Tk] mask ->
  exists o w,
    MultiHeadAttention.forward m query key value mask = Some o /\
    shape o = [B; Tq; D] /\
    MultiHeadAttention.weights m query key value mask = Some w /\
    shape w = [B * H; Tq; Tk].
Proof.
  intros Hm Hdiv HB Hq Hk Hv Hmask.
  destruct (mha_forward_shape m H D B Tq Tk query key value mask
              Hm Hdiv HB Hq Hk Hv Hmask) as (o & Eo & So).
  exists o.
  unfold MultiHeadAttention.weights.
  destruct (mha_heads_shape m H D B Tq Tk query key value Hm Hdiv HB Hq Hk Hv)
    as (q & k & v & E & Sq & Sk & Sv).
  rewrite E. cbn [bind].
  step (mha_raw_scores_shape m H D q k (B * H) Tq Tk (D / H) Hm Hdiv Sq Sk).
  rewrite <- S in Hmask.
  step (apply_mask_shape y mask Hmask). rewrite S in S0.
  destruct (softmax_last_shape y0 _ _ S0) as (w & Ew & Sw).
  exists w. rewrite Ew. repeat split; auto. congruence.
Qed.

Lemma mha_forward_returns_witness :
  mha_built mha1 1 1 /\ heads_divide 1 1 /\ 0 < 1 /\
  shape x111 = [1; 1; 1] /\ shape x121 = [1; 2; 1] /\ shape x121 = [1; 2; 1] /\
  mask_for [1 * 1; 1; 2] None /\
  exists o w,
    MultiHeadAttention.forward mha1 x111 x121 x121 None = Some o /\
    shape o = [1; 1; 1] /\
    MultiHeadAttention.weights mha1 x111 x121 x121 None = Some w /\
    shape w = [1 * 1; 1; 2].
Proof.
  assert (Hm : mha_built mha1 1 1) by (repeat split).
  assert (Hdiv : heads_divide 1 1) by (repeat split; lia).
  assert (H1 : 0 < 1) by lia.
  assert (Hq : shape x111 = [1; 1; 1]) by reflexivity.
  assert (Hk : shape x121 = [1; 2; 1]) by reflexivity.
  assert (Hmk : mask_for [1 * 1; 1; 2] None) by exact I.
  exact (conj Hm (conj Hdiv (conj H1 (conj Hq (conj Hk (conj Hk (conj Hmk
           (mha_forward_returns mha1 1 1 1 1 2 x111 x121 x121 None
              Hm Hdiv H1 Hq Hk Hk Hmk)))))))).
Defined.

(** X12.  On an empty batch [MultiHeadAttention.forward] raises, whatever
    the other sizes: [view(batch_size * num_heads, -1, _)] cannot infer the
    middle size of a tensor without elements. *)
Theorem mha_empty_batch_raises
    (m : MultiHeadAttention.t) (T D : nat) (query key value : Tensor R)
    (mask : option (Tensor Z)) :
  linear_dims (MultiHeadAttention.query_linear m) D D ->
  linear_dims (MultiHeadAttention.key_linear m) D D ->
  linear_dims (MultiHeadAttention.value_linear m) D D ->
  shape query = [0; T; D] ->
  MultiHeadAttention.forward m query key value mask = None.
Proof.
  intros Lq Lk Lv Hq.
  unfold MultiHeadAttention.forward, MultiHeadAttention.heads, size0.
  rewrite Hq. cbn [bind].
  destruct (linear _ query) as [q|]; [cbn [bind]|reflexivity].
  destruct (linear _ key) as [k|]; [cbn [bind]|reflexivity].
  destruct (linear _ value) as [v|]; [cbn [bind]|reflexivity].
  unfold MultiHeadAttention.split_heads at 1.
  destruct (floordiv _ _) as [dh|]; reflexivity.
Qed.

Lemma mha_empty_batch_raises_witness :
  linear_dims (MultiHeadAttention.query_linear mha1) 1 1 /\
  linear_dims (MultiHeadAttention.key_linear mha1) 1 1 /\
  linear_dims (MultiHeadAttention.value_linear mha1) 1 1 /\
  shape x011 = [0; 1; 1] /\
  MultiHeadAttention.forward mha1 x011 x011 x011 None = None.
Proof.
  assert (L : linear_dims (lin 1 1) 1 1) by (split; reflexivity).
  assert (Hx : shape x011 = [0; 1; 1]) by reflexivity.
  exact (conj L (conj L (conj L (conj Hx
           (mha_empty_batch_raises mha1 1 1 x011 x011 x011 None L L L Hx))))).
Defined.

Lemma Forall_block {A : Type} (P : A -> Prop) (n k : nat) (l : list A) :
  Forall P l -> Forall P (firstn k (skipn n l)).
Proof.
  intros Hl. revert n k. induction Hl as [|a l Ha Hl IH]; intros n k.
  - rewrite skipn_nil, firstn_nil. constructor.
  - destruct n as [|n]; [|apply IH].
    cbn [skipn]. destruct k as [|k]; cbn [firstn]; constructor; auto.
    apply (IH 0 k).
Qed.

Lemma dot_zeros (r w : list R) :
  Forall (fun v => v = 0%R) r -> dot r w = 0%R.
Proof.
  unfold dot, zip_with. intros Hr. revert w.
  induction Hr as [|a r Ha Hr IH]; intros [|c w]; simpl; auto.
  rewrite IH, Ha. lra.
Qed.

Lemma mat_mul_empty p r (a b : list R) :
  Forall (fun v => v = 0%R) (mat_mul p 0 r a b).
Proof.
  unfold mat_mul, tab2. apply Forall_forall. intros v Hv.
  apply in_flat_map in Hv. destruct Hv as (i & _ & Hv).
  apply in_map_iff in Hv. destruct Hv as (j & <- & _). reflexivity.
Qed.

(** X13.  Cross-attention over an empty memory ([Tk = 0]) does not raise:
    every weight row is empty, the attended values are 0, and
    [MultiHeadAttention.forward] returns the bias vector of its output
    layer at every position of the query. *)
Theorem mha_empty_memory_returns_output_bias
    (m : MultiHeadAttention.t) (H D B Tq : nat)
    (query key value : Tensor R) (mask : option (Tensor Z)) :
  mha_built m H D -> heads_divide H D -> 0 < B ->
  shape query = [B; Tq; D] -> shape key = [B; 0; D] ->
  shape value = [B; 0; D] -> mask_for [B * H; Tq; 0] mask ->
  exists o,
    MultiHeadAttention.forward m query key value mask = Some o /\
    shape o = [B; Tq; D] /\
    forall i c, i < B * Tq -> c < D ->
      nth (i * D + c) (data o) 0%R
      = nth c (lbias (MultiHeadAttention.output_linear m)) 0%R.
Proof.
  intros Hm Hdiv HB Hq Hk Hv Hmask.
  pose proof Hm as (_ & Hd & _ & _ & _ & Lo).
  destruct (heads_divide_dh H D Hdiv) as [Hdh HD].
  pose proof Hdiv as (HH & HDpos & _).
  unfold MultiHeadAttention.forward, size0. rewrite Hq. cbn [bind].
  destruct (mha_heads_shape m H D B Tq 0 query key value Hm Hdiv HB Hq Hk Hv)
    as (q & k & v & E & Sq & Sk & Sv).
  rewrite E. cbn [bind].
  step (mha_raw_scores_shape m H D q k (B * H) Tq 0 (D / H) Hm Hdiv Sq Sk).
  rewrite <- S in Hmask.
  step (apply_mask_shape y mask Hmask). rewrite S in S0.
  step (softmax_last_shape y0 _ _ S0). rewrite S0 in S1.
  unfold bmm, matmul. rewrite S1, Sv. cbn [split_last2 bind].
  rewrite shape_eqb_refl, Nat.eqb_refl. cbn [andb bind app].
  rewrite Hd.
  rewrite (view_infer_spec _ B Tq D)
    by (cbn [shape numel fold_right]; try rewrite HD at 2; nia).
  cbn [bind data].
  match goal with
  | |- context [linear ?l ?a] =>
      destruct (linear_shape3 l a B Tq D D eq_refl Lo) as (o & Eo & So)
  end.
  exists o. split; [exact Eo|]. split; [exact So|].
  intros i c Hi Hc. destruct Lo as [Lin Lout].
  match type of Eo with
  | linear ?l ?a = _ =>
      destruct (nth_linear3 l a o B Tq D i c eq_refl Lin Eo Hi
                  ltac:(rewrite Lout; exact Hc)) as (_ & _ & Hn)
  end.
  rewrite Lout in Hn. rewrite Hn, dot_zeros; [lra|].
  rewrite nth_chunk by exact Hi.
  apply Forall_block. cbn [data].
  apply Forall_concat. apply Forall_forall. intros blk Hblk.
  unfold zip_with in Hblk. apply in_map_iff in Hblk.
  destruct Hblk as (ab & <- & _). apply mat_mul_empty.
Qed.

Lemma mha_empty_memory_returns_output_bias_witness :
  mha_built mha1 1 1 /\ heads_divide 1 1 /\ 0 < 1 /\
  shape x111 = [1; 1; 1] /\ shape x101 = [1; 0; 1] /\ shape x101 = [1; 0; 1] /\
  mask_for [1 * 1; 1; 0] None /\
  exists o,
    MultiHeadAttention.forward mha1 x111 x101 x101 None = Some o /\
    shape o = [1; 1; 1] /\
    forall i c, i < 1 * 1 -> c < 1 ->
      nth (i * 1 + c) (data o) 0%R
      = nth c (lbias (MultiHeadAttention.output_linear mha1)) 0%R.
Proof.
  assert (Hm : mha_built mha1 1 1) by (repeat split).
  assert (Hdiv : heads_divide 1 1) by (repeat split; lia).
  assert (H1 : 0 < 1) by lia.
  assert (Hq : shape x111 = [1; 1; 1]) by reflexivity.
  assert (Hk : shape x101 = [1; 0; 1]) by reflexivity.
  assert (Hmk : mask_for [1 * 1; 1; 0] None) by exact I.
  exact (conj Hm (conj Hdiv (conj H1 (conj Hq (conj Hk (conj Hk (conj Hmk
           (mha_empty_memory_returns_output_bias mha1 1 1 1 1 x111 x101 x101
              None Hm Hdiv H1 Hq Hk Hk Hmk)))))))).
Defined.

(** ** What the two [view] calls put in a head *)

(** X14.  In both attention classes the head split is a [view] of the
    contiguous projection, with the same layout: row [t] of head [h] of
    batch item [b] is the block [(h T + t) mod H] of the [D / H]-wide
    feature blocks of timestep [(h T + t) / H].  It is the block [h] of
    timestep [t] only when [h T + t = t H + h]. *)
Theorem view_head_layout
    {A : Type} {ZA : Zero A}
    (mha : MultiHeadAttention.t) (sa : SelfAttention.t)
    (H D B T : nat) (x : Tensor A) :
  mha_built mha H D -> self_built sa H D -> heads_divide H D -> 0 < B ->
  shape x = [B; T; D] ->
  exists u u',
    MultiHeadAttention.split_heads mha B x = Some u /\
    SelfAttention.split_heads sa B T x = Some u' /\
    shape u = [B * H; T; D / H] /\ shape u' = [B; H; T; D / H] /\
    forall b h t j, b < B -> h < H -> t < T -> j < D / H ->
      get3 u (b * H + h) t j =
      get3 x b ((h * T + t) / H) (((h * T + t) mod H) * (D / H) + j) /\
      get4 u' b h t j =
      get3 x b ((h * T + t) / H) (((h * T + t) mod H) * (D / H) + j).
Proof.
  intros Hm Hs Hdiv HB Hsh.
  destruct (heads_divide_dh H D Hdiv) as [_ HD].
  rewrite (mha_split_heads_shape mha H D B T x Hm Hdiv HB Hsh).
  rewrite (self_split_heads_shape sa H D B T x Hs Hdiv Hsh).
  do 2 eexists. split; [reflexivity|]. split; [reflexivity|].
  split; [reflexivity|]. split; [reflexivity|].
  intros b h t j Hb Hh Ht Hj. unfold get3, get4. cbn [shape data].
  rewrite Hsh.
  pose proof (Nat.div_mod_eq (h * T + t) H) as E.
  set (q := (h * T + t) / H) in *. set (r := (h * T + t) mod H) in *.
  set (dh := D / H) in *.
  assert (Hidx : (b * T + q) * D + (r * dh + j)
                 = ((b * H + h) * T + t) * dh + j).
  { replace ((b * H + h) * T + t) with (b * H * T + (H * q + r)) by lia.
    rewrite HD. ring. }
  rewrite Hidx. split; reflexivity.
Qed.

Lemma view_head_layout_witness :
  mha_built mha2 2 2 /\
  self_built sa2 2 2 /\
  heads_divide 2 2 /\ 0 < 1 /\ shape l122 = [1; 2; 2] /\
  exists u u',
    MultiHeadAttention.split_heads mha2 1 l122 = Some u /\
    SelfAttention.split_heads sa2 1 2 l122 = Some u' /\
    shape u = [1 * 2; 2; 2 / 2] /\ shape u' = [1; 2; 2; 2 / 2] /\
    forall b h t j, b < 1 -> h < 2 -> t < 2 -> j < 2 / 2 ->
      get3 u (b * 2 + h) t j =
      get3 l122 b ((h * 2 + t) / 2) (((h * 2 + t) mod 2) * (2 / 2) + j) /\
      get4 u' b h t j =
      get3 l122 b ((h * 2 + t) / 2) (((h * 2 + t) mod 2) * (2 / 2) + j).
Proof.
  assert (Hm : mha_built mha2 2 2) by (repeat split).
  assert (Hs : self_built sa2 2 2) by (repeat split).
  assert (Hdiv : heads_divide 2 2) by (repeat split; lia).
  assert (H1 : 0 < 1) by lia.
  assert (Hx : shape l122 = [1; 2; 2]) by reflexivity.
  exact (conj Hm (conj Hs (conj Hdiv (conj H1 (conj Hx
           (view_head_layout mha2 sa2 2 2 1 2 l122 Hm Hs Hdiv H1 Hx)))))).
Defined.

(** ** The weights that [SelfAttention.forward] returns *)

(** X15.  The second result of [SelfAttention.forward] is the softmax
    output after the dropout of line 103: a tensor of shape
    [(B, H, T, T)] which, with dropout disabled and [T >= 1], has rows
    that sum to 1 and entries between 0 and 1, both included. *)
Theorem self_attention_returned_weights
    (m : SelfAttention.t) (H D B T : nat) (r : rng) (x : Tensor R)
    (bias : option (Tensor R)) (mask : option (Tensor Z)) :
  self_built m H D -> heads_divide H D ->
  shape x = [B; T; D] -> opt_shape [B; T; D] bias ->
  mask_for [B; H; T; T] mask -> 0 < T ->
  exists o w w0,
    SelfAttention.forward m r x bias mask = Some (o, w) /\
    SelfAttention.weights m x bias mask = Some w0 /\
    w = dropout (SelfAttention.dropout_ m) (draw r 0) w0 /\
    shape w = [B; H; T; T] /\
    (dropout_off (SelfAttention.dropout_ m) ->
     w = w0 /\ rows_sum_to_one w /\
     Forall (fun v => 0 <= v <= 1)%R (data w)).
Proof.
  intros Hm Hdiv Hx Hb Hmask HT.
  destruct (self_forward_shape m H D B T r x bias mask Hm Hdiv Hx Hb Hmask)
    as (o & w & E & _ & Sw).
  destruct (self_forward_weights m r x bias mask o w E) as (w0 & Ew & Hw).
  exists o, w, w0. split; [exact E|]. split; [exact Ew|].
  split; [exact Hw|]. split; [exact Sw|].
  intros Hoff. rewrite (dropout_off_id _ _ _ Hoff) in Hw. subst w0.
  split; [reflexivity|].
  destruct (self_weights_inv _ _ _ _ _ Ew)
    as (b & t & h & k & q & v & k' & q' & s & s' & _ & _ & _ & _ & Hs & Hmk & Hsm).
  split.
  - eapply softmax_rows_sum; eauto.
    + eapply apply_mask_wf; eauto. eapply self_raw_scores_wf; eauto.
    + rewrite Sw. simpl. lia.
  - eapply softmax_last_probs; eauto.
Qed.

Lemma self_attention_returned_weights_witness :
  self_built sa1 1 1 /\ heads_divide 1 1 /\
  shape x121 = [1; 2; 1] /\ opt_shape [1; 2; 1] (@None (Tensor R)) /\
  mask_for [1; 1; 2; 2] None /\ 0 < 2 /\
  exists o w w0,
    SelfAttention.forward sa1 keep_all x121 None None = Some (o, w) /\
    SelfAttention.weights sa1 x121 None None = Some w0 /\
    w = dropout (SelfAttention.dropout_ sa1) (draw keep_all 0) w0 /\
    shape w = [1; 1; 2; 2] /\
    (dropout_off (SelfAttention.dropout_ sa1) ->
     w = w0 /\ rows_sum_to_one w /\
     Forall (fun v => 0 <= v <= 1)%R (data w)).
Proof.
  assert (Hm : self_built sa1 1 1) by (repeat split).
  assert (Hdiv : heads_divide 1 1) by (repeat split; lia).
  assert (Hx : shape x121 = [1; 2; 1]) by reflexivity.
  assert (Hb : opt_shape [1; 2; 1] (@None (Tensor R))) by exact I.
  assert (Hmk : mask_for [1; 1; 2; 2] None) by exact I.
  assert (H2 : 0 < 2) by lia.
  exact (conj Hm (conj Hdiv (conj Hx (conj Hb (conj Hmk (conj H2
           (self_attention_returned_weights sa1 1 1 1 2 keep_all x121 None
              None Hm Hdiv Hx Hb Hmk H2))))))).
Defined.

(** ** Batch items do not interact *)

Lemma mha_forward_buffer m H D B Tq Tk (query key value : Tensor R) :
  mha_built m H D -> heads_divide H D -> 0 < B ->
  shape query = [B; Tq; D] -> shape key = [B; Tk; D] ->
  shape value = [B; Tk; D] ->
  MultiHeadAttention.forward m query key value None
  = Some (mkTensor [B; Tq; D]
            (mha_buffer m B Tq Tk (data query) (data key) (data value))).
Proof.
  intros Hm Hdiv HB Hq Hk Hv.
  pose proof Hm as (Mh & Md & (Lqi & Lqo) & (Lki & Lko) & (Lvi & Lvo) & (Loi & Loo)).
  destruct (heads_divide_dh H D Hdiv) as [Hdh HD].
  pose proof Hdiv as (HH & HDpos & _).
  unfold MultiHeadAttention.forward, MultiHeadAttention.heads, size0.
  rewrite Hq. cbn [bind].
  unfold linear. rewrite Hq, Hk, Hv. cbn [split_last bind].
  rewrite Lqi, Lki, Lvi, !Nat.eqb_refl. cbn [bind app].
  rewrite Lqo, Lko, Lvo.
  repeat match goal with
         | |- context [MultiHeadAttention.split_heads m B
                         (mkTensor [B; ?T; D] ?d)] =>
             rewrite (mha_split_heads_shape m H D B T (mkTensor [B; T; D] d)
                        Hm Hdiv HB eq_refl)
         end.
  cbn [bind].
  unfold MultiHeadAttention.raw_scores, transpose12, transpose_last2, bmm,
    matmul.
  cbn [shape data split_last2 bind app].
  rewrite !shape_eqb_refl, !Nat.eqb_refl. cbn [andb bind].
  rewrite Mh, Md, (floordiv_some D H HH). cbn [bind].
  unfold apply_mask, softmax_last, div_scalar.
  cbn [shape data split_last bind app].
  cbn [shape data split_last2 bind app].
  rewrite !shape_eqb_refl, !Nat.eqb_refl. cbn [andb bind].
  rewrite (view_infer_spec _ B Tq D)
    by (cbn [shape numel fold_right]; try rewrite HD at 2; nia).
  cbn [bind shape data split_last].
  rewrite Loi, Nat.eqb_refl, Loo. cbn [app].
  unfold mha_buffer. rewrite Mh, Md.
  cbn [numel fold_right]. rewrite ?Nat.mul_1_r, ?Nat.mul_assoc.
  reflexivity.
Qed.

Section CoarseBlocks.
Context {A : Type}.

Lemma chunk_app a b k (l : list A) :
  chunk (a + b) k l = chunk a k l ++ chunk b k (skipn (a * k) l).
Proof.
  revert l; induction a as [|a IH]; intros l; [reflexivity|].
  cbn [Nat.add chunk app]. rewrite IH, skipn_skipn.
  replace (S a * k) with (a * k + k) by lia. reflexivity.
Qed.

Lemma chunk_firstn m k (l : list A) :
  chunk m k (firstn (m * k) l) = chunk m k l.
Proof.
  revert l; induction m as [|m IH]; intros l; [reflexivity|].
  cbn [chunk]. rewrite firstn_firstn, skipn_firstn_comm.
  replace (Nat.min k (S m * k)) with k by lia.
  replace (S m * k - k) with (m * k) by lia.
  rewrite IH. reflexivity.
Qed.

Lemma item_map {B : Type} (g : A -> B) n K (l : list A) b :
  b < n -> nth b (chunk n K (map g l)) [] = map g (nth b (chunk n K l) []).
Proof.
  intros Hb. rewrite !nth_chunk by exact Hb.
  rewrite skipn_map, firstn_map. reflexivity.
Qed.
End CoarseBlocks.

Lemma firstn_app_len {A : Type} (X Y : list A) n :
  length X = n -> firstn n (X ++ Y) = X.
Proof.
  intros <-. rewrite firstn_app, Nat.sub_diag, firstn_O, app_nil_r.
  apply firstn_all.
Qed.

Lemma skipn_app_len {A : Type} (X Y : list A) n :
  length X = n -> skipn n (X ++ Y) = Y.
Proof.
  intros <-. rewrite skipn_app, Nat.sub_diag, skipn_O, skipn_all.
  reflexivity.
Qed.

Lemma zip_with_app {A B C : Type} (f : A -> B -> C) (a1 r1 : list A)
    (a2 r2 : list B) :
  length a1 = length a2 ->
  zip_with f (a1 ++ r1) (a2 ++ r2) = zip_with f a1 a2 ++ zip_with f r1 r2.
Proof.
  unfold zip_with. revert a2; induction a1 as [|x a1 IH]; intros [|y a2] Hlen;
    simpl in *; try discriminate; auto.
  rewrite IH by lia. reflexivity.
Qed.

Lemma chunk_bmap {A B : Type} (f : list A -> list B) n m k k' (l : list A) :
  n * (m * k) <= length l ->
  (forall c, length c = k -> length (f c) = k') ->
  chunk n (m * k') (concat (map f (chunk (n * m) k l)))
  = map (fun blk => concat (map f (chunk m k blk))) (chunk n (m * k) l).
Proof.
  intros Hl Hf. revert l Hl; induction n as [|n IH]; intros l Hl;
    [reflexivity|].
  replace (S n * m) with (m + n * m) by lia.
  rewrite chunk_app, map_app, concat_app.
  assert (HX : length (concat (map f (chunk m k l))) = m * k').
  { rewrite (concat_length_blocks k').
    - rewrite length_map, chunk_length. reflexivity.
    - apply Forall_forall. intros c Hc. apply in_map_iff in Hc.
      destruct Hc as (c0 & <- & Hc0). apply Hf.
      assert (Hm : m * k <= length l) by nia.
      pose proof (chunk_blocks m k l Hm) as Hall.
      rewrite Forall_forall in Hall. auto. }
  cbn [chunk map].
  rewrite (firstn_app_len _ _ _ HX), (skipn_app_len _ _ _ HX).
  rewrite chunk_firstn. f_equal.
  apply IH. rewrite length_skipn. nia.
Qed.

Lemma chunk_bzip {A B C : Type} (f : list A -> list B -> list C)
    n m k1 k2 k' (l1 : list A) (l2 : list B) :
  (forall c1 c2, length (f c1 c2) = k') ->
  chunk n (m * k')
    (concat (zip_with f (chunk (n * m) k1 l1) (chunk (n * m) k2 l2)))
  = zip_with (fun b1 b2 => concat (zip_with f (chunk m k1 b1) (chunk m k2 b2)))
      (chunk n (m * k1) l1) (chunk n (m * k2) l2).
Proof.
  intros Hf. revert l1 l2; induction n as [|n IH]; intros l1 l2;
    [reflexivity|].
  replace (S n * m) with (m + n * m) by lia.
  rewrite !chunk_app, zip_with_app by (rewrite !chunk_length; reflexivity).
  rewrite concat_app.
  assert (HX : length (concat (zip_with f (chunk m k1 l1) (chunk m k2 l2)))
               = m * k').
  { rewrite (concat_length_blocks k').
    - rewrite zip_with_length, !chunk_length. lia.
    - apply Forall_forall. intros c Hc. unfold zip_with in Hc.
      apply in_map_iff in Hc. destruct Hc as (ab & <- & _). apply Hf. }
  cbn [chunk].
  rewrite (firstn_app_len _ _ _ HX), (skipn_app_len _ _ _ HX).
  rewrite IH. unfold zip_with. cbn [combine map fst snd].
  rewrite !chunk_firstn. reflexivity.
Qed.

Lemma nth_map_blocks {A B : Type} (F : list A -> list B) ls b :
  b < length ls -> nth b (map F ls) [] = F (nth b ls []).
Proof.
  intros Hb. rewrite (nth_indep _ [] (F [])) by (rewrite length_map; exact Hb).
  apply map_nth.
Qed.

Lemma item_bmap {A B : Type} (f : list A -> list B) n m k k' N K KK
    (l : list A) b :
  b < n -> N = n * m -> K = m * k' -> KK = m * k -> n * KK <= length l ->
  (forall c, length c = k -> length (f c) = k') ->
  nth b (chunk n K (concat (map f (chunk N k l)))) []
  = concat (map f (chunk m k (nth b (chunk n KK l) []))).
Proof.
  intros Hb -> -> -> Hl Hf.
  rewrite (chunk_bmap f n m k k' l Hl Hf).
  apply (nth_map_blocks (fun blk => concat (map f (chunk m k blk)))).
  rewrite chunk_length. exact Hb.
Qed.

Lemma item_bzip {A B C : Type} (f : list A -> list B -> list C)
    n m k1 k2 k' N K KK1 KK2 (l1 : list A) (l2 : list B) b :
  b < n -> N = n * m -> K = m * k' -> KK1 = m * k1 -> KK2 = m * k2 ->
  (forall c1 c2, length (f c1 c2) = k') ->
  nth b (chunk n K (concat (zip_with f (chunk N k1 l1) (chunk N k2 l2)))) []
  = concat (zip_with f (chunk m k1 (nth b (chunk n KK1 l1) []))
                       (chunk m k2 (nth b (chunk n KK2 l2) []))).
Proof.
  intros Hb -> -> -> -> Hf.
  rewrite (chunk_bzip f n m k1 k2 k' l1 l2 Hf).
  apply (nth_zip_with
           (fun b1 b2 => concat (zip_with f (chunk m k1 b1) (chunk m k2 b2))));
    rewrite chunk_length; exact Hb.
Qed.

Lemma length_concat_map_const {A B : Type} (f : list A -> list B) n k k'
    (l : list A) :
  (forall c, length (f c) = k') ->
  length (concat (map f (chunk n k l))) = n * k'.
Proof.
  intros Hf. rewrite (concat_length_blocks k').
  - rewrite length_map, chunk_length. reflexivity.
  - apply Forall_forall. intros c Hc. apply in_map_iff in Hc.
    destruct Hc as (c0 & <- & _). apply Hf.
Qed.

Lemma length_concat_zip_const {A B C : Type} (f : list A -> list B -> list C)
    n k1 k2 k' (l1 : list A) (l2 : list B) :
  (forall c1 c2, length (f c1 c2) = k') ->
  length (concat (zip_with f (chunk n k1 l1) (chunk n k2 l2))) = n * k'.
Proof.
  intros Hf. rewrite (concat_length_blocks k').
  - rewrite zip_with_length, !chunk_length. lia.
  - apply Forall_forall. intros c Hc. unfold zip_with in Hc.
    apply in_map_iff in Hc. destruct Hc as (ab & <- & _). apply Hf.
Qed.

Lemma mat_mul_length p q r (a b : list R) :
  length (mat_mul p q r a b) = p * r.
Proof. apply tab2_length. Qed.

(** Item [b] of the buffer that the forward pass computes from a batch is
    the buffer it computes from item [b] of the query, the key and the
    value alone. *)
Lemma mha_buffer_item m H D B Tq Tk (dq dk dv : list R) b :
  mha_built m H D -> heads_divide H D -> b < B ->
  length dq = B * Tq * D -> length dk = B * Tk * D ->
  length dv = B * Tk * D ->
  nth b (chunk B (Tq * D) (mha_buffer m B Tq Tk dq dk dv)) []
  = mha_buffer m 1 Tq Tk (nth b (chunk B (Tq * D) dq) [])
      (nth b (chunk B (Tk * D) dk) []) (nth b (chunk B (Tk * D) dv) []).
Proof.
  intros Hm Hdiv Hb Ldq Ldk Ldv.
  pose proof Hm as (Mh & Md & (Lqi & Lqo) & (Lki & Lko) & (Lvi & Lvo) & (Loi & Loo)).
  destruct (heads_divide_dh H D Hdiv) as [Hdh HD].
  unfold mha_buffer. rewrite Mh, Md, !Nat.mul_1_l.
  set (dh := D / H) in *. clearbody dh.
  set (lq := linear_row (MultiHeadAttention.query_linear m)).
  set (lk := linear_row (MultiHeadAttention.key_linear m)).
  set (lv := linear_row (MultiHeadAttention.value_linear m)).
  set (lo := linear_row (MultiHeadAttention.output_linear m)).
  assert (Elq : forall c, length (lq c) = D)
    by (intros c; unfold lq; rewrite linear_row_length; exact Lqo).
  assert (Elk : forall c, length (lk c) = D)
    by (intros c; unfold lk; rewrite linear_row_length; exact Lko).
  assert (Elv : forall c, length (lv c) = D)
    by (intros c; unfold lv; rewrite linear_row_length; exact Lvo).
  assert (Elo : forall c, length (lo c) = D)
    by (intros c; unfold lo; rewrite linear_row_length; exact Loo).
  rewrite (item_bmap lo B Tq D D (B * Tq) (Tq * D) (Tq * D));
    [| exact Hb | reflexivity | reflexivity | reflexivity
     | rewrite (length_concat_zip_const _ _ _ _ (Tq * dh))
         by (intros; apply mat_mul_length); rewrite HD; lia
     | intros; apply Elo].
  rewrite (item_bzip (mat_mul Tq Tk dh) B H (Tq * Tk) (Tk * dh) (Tq * dh)
             (B * H) (Tq * D) (H * Tq * Tk) (Tk * D));
    [| exact Hb | reflexivity | rewrite HD; lia | lia | rewrite HD; lia
     | intros; apply mat_mul_length].
  rewrite (item_bmap softmax_row B (H * Tq) Tk Tk (B * H * Tq) (H * Tq * Tk)
             (H * Tq * Tk));
    [| exact Hb | lia | reflexivity | reflexivity
     | rewrite length_map,
         (length_concat_zip_const _ _ _ _ (Tq * Tk))
         by (intros; apply mat_mul_length); lia
     | intros c Hc; rewrite softmax_row_length; exact Hc].
  rewrite (item_map _ B (H * Tq * Tk) _ b Hb).
  rewrite (item_bzip (mat_mul Tq dh Tk) B H (Tq * dh) (dh * Tk) (Tq * Tk)
             (B * H) (H * Tq * Tk) (Tq * D) (Tk * D));
    [| exact Hb | reflexivity | lia | rewrite HD; lia | rewrite HD; lia
     | intros; apply mat_mul_length].
  rewrite (item_bmap lq B Tq D D (B * Tq) (Tq * D) (Tq * D));
    [| exact Hb | reflexivity | reflexivity | reflexivity
     | rewrite Ldq; lia | intros; apply Elq].
  rewrite (item_bmap (mat_transpose Tk dh) B H (Tk * dh) (dh * Tk) (B * H)
             (Tk * D) (Tk * D));
    [| exact Hb | reflexivity | rewrite HD; lia | rewrite HD; lia
     | rewrite (length_concat_map_const _ _ _ D) by exact Elk; lia
     | intros; apply mat_transpose_length].
  rewrite (item_bmap lk B Tk D D (B * Tk) (Tk * D) (Tk * D));
    [| exact Hb | reflexivity | reflexivity | reflexivity
     | rewrite Ldk; lia | intros; apply Elk].
  rewrite (item_bmap lv B Tk D D (B * Tk) (Tk * D) (Tk * D));
    [| exact Hb | reflexivity | reflexivity | reflexivity
     | rewrite Ldv; lia | intros; apply Elv].
  reflexivity.
Qed.

(** X16.  Without a mask, [MultiHeadAttention.forward] treats the items of a
    batch independently: item [b] of the result on a batch is the result on
    item [b] of the query, the key and the value taken alone as batches of
    one.  The head split of the [view] mixes time steps and features of one
    item, never two items. *)
Theorem mha_batch_items_independent m H D B Tq Tk
    (query key value : Tensor R) b :
  mha_built m H D -> heads_divide H D -> b < B ->
  shape query = [B; Tq; D] -> shape key = [B; Tk; D] ->
  shape value = [B; Tk; D] ->
  wf query -> wf key -> wf value ->
  exists o ob,
    MultiHeadAttention.forward m query key value None = Some o /\
    MultiHeadAttention.forward m (batch_item b query) (batch_item b key)
      (batch_item b value) None = Some ob /\
    batch_item b o = ob.
Proof.
  intros Hm Hdiv Hb Hq Hk Hv Wq Wk Wv.
  assert (HB : 0 < B) by lia.
  unfold wf in Wq, Wk, Wv. rewrite Hq in Wq. rewrite Hk in Wk.
  rewrite Hv in Wv. cbn [numel fold_right] in Wq, Wk, Wv.
  do 2 eexists. split; [|split].
  - apply (mha_forward_buffer m H D B Tq Tk query key value Hm Hdiv HB Hq Hk Hv).
  - apply (mha_forward_buffer m H D 1 Tq Tk); try assumption; try lia;
      unfold batch_item; [rewrite Hq | rewrite Hk | rewrite Hv]; reflexivity.
  - unfold batch_item at 1. cbn [shape data]. f_equal.
    rewrite (mha_buffer_item m H D B Tq Tk _ _ _ b Hm Hdiv Hb)
      by (rewrite ?Wq, ?Wk, ?Wv; lia).
    unfold batch_item. rewrite Hq, Hk, Hv. reflexivity.
Qed.

Lemma mha_batch_items_independent_witness :
  mha_built mha1 1 1 /\ heads_divide 1 1 /\ 1 < 2 /\
  shape x211 = [2; 1; 1] /\ wf x211 /\
  exists o ob,
    MultiHeadAttention.forward mha1 x211 x211 x211 None = Some o /\
    MultiHeadAttention.forward mha1 (batch_item 1 x211) (batch_item 1 x211)
      (batch_item 1 x211) None = Some ob /\
    batch_item 1 o = ob.
Proof.
  assert (Hm : mha_built mha1 1 1) by (repeat split).
  assert (Hdiv : heads_divide 1 1) by (repeat split; lia).
  assert (Hb : 1 < 2) by lia.
  assert (Hx : shape x211 = [2; 1; 1]) by reflexivity.
  assert (Wx : wf x211) by reflexivity.
  exact (conj Hm (conj Hdiv (conj Hb (conj Hx (conj Wx
           (mha_batch_items_independent mha1 1 1 2 1 1 x211 x211 x211 1
              Hm Hdiv Hb Hx Hx Hx Wx Wx Wx)))))).
Defined.

(** * The forward passes on the store *)

(** ** Stores that grow *)

Lemma extends_refl h : extends h h.
Proof. exists []. rewrite app_nil_r. reflexivity. Qed.

Lemma extends_trans h1 h2 h3 :
  extends h1 h2 -> extends h2 h3 -> extends h1 h3.
Proof.
  intros [e1 ->] [e2 ->]. exists (e1 ++ e2). rewrite app_assoc. reflexivity.
Qed.

Lemma extends_unchanged h h' : extends h h' -> unchanged h h'.
Proof.
  intros [e ->] a Ha. apply nth_error_app1. exact Ha.
Qed.

Lemma extends_nth_error h h' a c :
  extends h h' -> nth_error h a = Some c -> nth_error h' a = Some c.
Proof.
  intros [e ->] Hc. rewrite nth_error_app1; [exact Hc|].
  apply nth_error_Some. congruence.
Qed.

Lemma contents_mono h h' x t :
  extends h h' -> contents x h = Some t -> contents x h' = Some t.
Proof.
  unfold contents. intros E Hc.
  destruct (nth_error h (addr x)) as [c|] eqn:Ec; [|discriminate].
  rewrite (extends_nth_error _ _ _ _ E Ec). exact Hc.
Qed.

Lemma mask_contents_mono h h' x t :
  extends h h' -> mask_contents x h = Some t -> mask_contents x h' = Some t.
Proof.
  unfold mask_contents. intros E Hc.
  destruct (nth_error h (addr x)) as [c|] eqn:Ec; [|discriminate].
  rewrite (extends_nth_error _ _ _ _ E Ec). exact Hc.
Qed.

Lemma holds_mono h h' x t : extends h h' -> holds h x t -> holds h' x t.
Proof. apply contents_mono. Qed.

Lemma holds_opt_mono h h' x t :
  extends h h' -> holds_opt h x t -> holds_opt h' x t.
Proof.
  unfold holds_opt, opt_contents. intros E. destruct x as [x|]; auto.
  intros Hc. inv_bind Hc. rewrite (contents_mono _ _ _ _ E E0). exact Hc.
Qed.

Lemma holds_mask_mono h h' x t :
  extends h h' -> holds_mask h x t -> holds_mask h' x t.
Proof.
  unfold holds_mask, opt_mask_contents. intros E. destruct x as [x|]; auto.
  intros Hc. inv_bind Hc. rewrite (mask_contents_mono _ _ _ _ E E0). exact Hc.
Qed.

Lemma holds_shape h x t : holds h x t -> shape t = rshape x.
Proof.
  unfold holds, contents. destruct (nth_error h (addr x)) as [[d|d]|];
    try discriminate.
  intros E; inversion E; reflexivity.
Qed.

Lemma mapM_mono {A B : Type} (f g : A -> res B) (l : list A) (l' : list B) :
  (forall a b, In a l -> f a = Some b -> g a = Some b) ->
  mapM f l = Some l' -> mapM g l = Some l'.
Proof.
  revert l'; induction l as [|a l IH]; intros l' Hfg Hm; simpl in *; auto.
  inv_bind Hm. inv_bind Hm. inversion Hm; subst l'.
  rewrite (Hfg a a0 (or_introl eq_refl) E). cbn [bind].
  rewrite (IH a1); auto.
Qed.

Lemma mapM_nth_error {A B : Type} (f : A -> res B) (l : list A) (l' : list B)
    i :
  mapM f l = Some l' ->
  match nth_error l i with
  | Some a => exists b, nth_error l' i = Some b /\ f a = Some b
  | None => nth_error l' i = None
  end.
Proof.
  revert l' i; induction l as [|a l IH]; intros l' i Hm; simpl in Hm.
  - inversion Hm; subst l'. destruct i; reflexivity.
  - inv_bind Hm. inv_bind Hm. inversion Hm; subst l'.
    destruct i; simpl.
    + exists a0. auto.
    + apply IH. exact E0.
Qed.

(** ** The parameters stay where they are *)

Lemma linear_load_mono h h' l v :
  extends h h' -> LinearRef.load h l = Some v -> LinearRef.load h' l = Some v.
Proof.
  unfold LinearRef.load. intros E Hl. inv_bind Hl. inv_bind Hl.
  rewrite (contents_mono _ _ _ _ E E0), (contents_mono _ _ _ _ E E1).
  exact Hl.
Qed.

Lemma layer_norm_load_mono h h' l v :
  extends h h' -> LayerNormRef.load h l = Some v ->
  LayerNormRef.load h' l = Some v.
Proof.
  unfold LayerNormRef.load. intros E Hl. inv_bind Hl. inv_bind Hl.
  rewrite (contents_mono _ _ _ _ E E0), (contents_mono _ _ _ _ E E1).
  exact Hl.
Qed.

Lemma mha_load_mono h h' m v :
  extends h h' -> MultiHeadAttentionRef.load h m = Some v ->
  MultiHeadAttentionRef.load h' m = Some v.
Proof.
  unfold MultiHeadAttentionRef.load. intros E Hl.
  do 4 inv_bind Hl.
  rewrite (linear_load_mono _ _ _ _ E E0), (linear_load_mono _ _ _ _ E E1),
    (linear_load_mono _ _ _ _ E E2), (linear_load_mono _ _ _ _ E E3).
  exact Hl.
Qed.

Lemma self_load_mono h h' m v :
  extends h h' -> SelfAttentionRef.load h m = Some v ->
  SelfAttentionRef.load h' m = Some v.
Proof.
  unfold SelfAttentionRef.load. intros E Hl.
  do 4 inv_bind Hl.
  rewrite (linear_load_mono _ _ _ _ E E0), (linear_load_mono _ _ _ _ E E1),
    (linear_load_mono _ _ _ _ E E2), (linear_load_mono _ _ _ _ E E3).
  exact Hl.
Qed.

Lemma hta_load_mono h h' m v :
  extends h h' -> HierarchicalTemporalAttentionRef.load h m = Some v ->
  HierarchicalTemporalAttentionRef.load h' m = Some v.
Proof.
  unfold HierarchicalTemporalAttentionRef.load. intros E Hl.
  do 3 inv_bind Hl.
  rewrite (mapM_mono (MultiHeadAttentionRef.load h)
             (MultiHeadAttentionRef.load h') _ a
             (fun x y _ => mha_load_mono _ _ x y E) E0).
  rewrite (mha_load_mono _ _ _ _ E E1), (linear_load_mono _ _ _ _ E E2).
  exact Hl.
Qed.

Lemma encoder_layer_load_mono h h' l v :
  extends h h' -> TransformerEncoderRef.load_layer h l = Some v ->
  TransformerEncoderRef.load_layer h' l = Some v.
Proof.
  unfold TransformerEncoderRef.load_layer. intros E Hl.
  do 5 inv_bind Hl.
  rewrite (hta_load_mono _ _ _ _ E E0), (linear_load_mono _ _ _ _ E E1),
    (linear_load_mono _ _ _ _ E E2), (layer_norm_load_mono _ _ _ _ E E3),
    (layer_norm_load_mono _ _ _ _ E E4).
  exact Hl.
Qed.

Lemma encoder_load_mono h h' m v :
  extends h h' -> TransformerEncoderRef.load h m = Some v ->
  TransformerEncoderRef.load h' m = Some v.
Proof.
  unfold TransformerEncoderRef.load. intros E Hl. inv_bind Hl.
  rewrite (mapM_mono (TransformerEncoderRef.load_layer h)
             (TransformerEncoderRef.load_layer h') _ a
             (fun x y _ => encoder_layer_load_mono _ _ x y E) E0).
  exact Hl.
Qed.

Lemma decoder_layer_load_mono h h' m v :
  extends h h' -> TransformerDecoderLayerRef.load h m = Some v ->
  TransformerDecoderLayerRef.load h' m = Some v.
Proof.
  unfold TransformerDecoderLayerRef.load. intros E Hl.
  do 7 inv_bind Hl.
  rewrite (mha_load_mono _ _ _ _ E E0), (layer_norm_load_mono _ _ _ _ E E1),
    (mha_load_mono _ _ _ _ E E2), (layer_norm_load_mono _ _ _ _ E E3),
    (linear_load_mono _ _ _ _ E E4), (linear_load_mono _ _ _ _ E E5),
    (layer_norm_load_mono _ _ _ _ E E6).
  exact Hl.
Qed.

Lemma decoder_load_mono h h' m v :
  extends h h' -> TransformerDecoderRef.load h m = Some v ->
  TransformerDecoderRef.load h' m = Some v.
Proof.
  unfold TransformerDecoderRef.load. intros E Hl.
  do 5 inv_bind Hl.
  rewrite (mapM_mono (TransformerDecoderLayerRef.load h)
             (TransformerDecoderLayerRef.load h') _ a
             (fun x y _ => decoder_layer_load_mono _ _ x y E) E0).
  rewrite (layer_norm_load_mono _ _ _ _ E E1),
    (layer_norm_load_mono _ _ _ _ E E2), (layer_norm_load_mono _ _ _ _ E E3),
    (layer_norm_load_mono _ _ _ _ E E4).
  exact Hl.
Qed.

(** ** Simulation: the rules of the store monad *)

Section SimRules.
Context {A B C D : Type}.

Lemma sim_ret (Rel : heap -> A -> B -> Prop) a b h :
  Rel h a b -> sim Rel (ret a) (Some b) h.
Proof. intros H. exists a, h. split; [reflexivity|]. split; [apply extends_refl | exact H]. Qed.

Lemma sim_bind_val (R1 : heap -> A -> B -> Prop) (R2 : heap -> C -> D -> Prop)
    (c : M A) (k : A -> M C) (b : B) (v : res D) h :
  sim R1 c (Some b) h ->
  (forall a h', extends h h' -> R1 h' a b -> sim R2 (k a) v h') ->
  sim R2 (mbind c k) v h.
Proof.
  intros (a & h' & Ec & E & Ha) Hk. specialize (Hk a h' E Ha).
  unfold sim, mbind in *. rewrite Ec.
  destruct v as [d|]; [|exact Hk].
  destruct Hk as (c0 & h'' & Ek & E' & Hc).
  exists c0, h''. split; [exact Ek|]. split; [|exact Hc].
  eapply extends_trans; eauto.
Qed.

Lemma sim_bind (R1 : heap -> A -> B -> Prop) (R2 : heap -> C -> D -> Prop)
    (c : M A) (k : A -> M C) (v : res B) (k' : B -> res D) h :
  sim R1 c v h ->
  (forall a b h', extends h h' -> R1 h' a b -> sim R2 (k a) (k' b) h') ->
  sim R2 (mbind c k) (bind v k') h.
Proof.
  intros Hc Hk. destruct v as [b|].
  - simpl. apply (sim_bind_val R1 R2 c k b); auto.
  - simpl in *. unfold mbind. rewrite Hc. reflexivity.
Qed.
End SimRules.

Lemma sim_lift {A : Type} (o : res A) h : sim same (lift o) o h.
Proof.
  unfold sim, lift, ask. destruct o as [a|]; [|reflexivity].
  exists a, h. split; [reflexivity|]. split; [apply extends_refl | reflexivity].
Qed.

Lemma sim_ask {A : Type} (f : heap -> res A) h : sim same (ask f) (f h) h.
Proof.
  unfold sim, ask. destruct (f h) as [a|]; [|reflexivity].
  exists a, h. split; [reflexivity|]. split; [apply extends_refl | reflexivity].
Qed.

Lemma sim_get x t h : holds h x t -> sim same (get x) (Some t) h.
Proof.
  intros Hx. unfold get. pose proof (sim_ask (contents x) h) as S.
  unfold holds in Hx. rewrite Hx in S. exact S.
Qed.

Lemma sim_new t h : sim holds (new t) (Some t) h.
Proof.
  exists (mkRef (length h) (shape t)), (h ++ [Reals (data t)]).
  split; [reflexivity|]. split; [eexists; reflexivity|].
  unfold holds, contents. cbn [addr rshape].
  rewrite nth_error_app2 by lia. rewrite Nat.sub_diag. simpl.
  destruct t; reflexivity.
Qed.

Lemma sim_fail {A B : Type} (Rel : heap -> A -> B -> Prop) h :
  sim Rel fail None h.
Proof. reflexivity. Qed.

(** ** Simulation: the tensor operations *)

Lemma sim_lift_new (o : res (Tensor R)) h :
  sim holds (mbind (lift o) new) o h.
Proof.
  destruct o as [y|]; [|reflexivity].
  apply (sim_bind_val same holds _ _ y); [apply sim_lift|].
  intros a h1 E1 ->. apply sim_new.
Qed.

Lemma sim_out1 f x t h : holds h x t -> sim holds (out1 f x) (f t) h.
Proof.
  intros Hx. unfold out1.
  apply (sim_bind_val same holds _ _ t); [apply sim_get; exact Hx|].
  intros a h1 E1 ->. apply sim_lift_new.
Qed.

Lemma sim_out2 f x y tx ty h :
  holds h x tx -> holds h y ty -> sim holds (out2 f x y) (f tx ty) h.
Proof.
  intros Hx Hy. unfold out2.
  apply (sim_bind_val same holds _ _ tx); [apply sim_get; exact Hx|].
  intros a h1 E1 ->.
  apply (sim_bind_val same holds _ _ ty);
    [apply sim_get; eapply holds_mono; eauto|].
  intros b h2 E2 ->. apply sim_lift_new.
Qed.

Lemma sim_view_of f x t h :
  holds h x t -> (forall y, f t = Some y -> data y = data t) ->
  sim holds (view_of f x) (f t) h.
Proof.
  intros Hx Hf. unfold view_of.
  apply (sim_bind_val same holds _ _ t); [apply sim_get; exact Hx|].
  intros a h1 E1 ->.
  destruct (f t) as [y|] eqn:Ef; [|reflexivity].
  apply (sim_bind_val same holds _ _ y); [apply sim_lift|].
  intros b h2 E2 ->. apply sim_ret.
  assert (Hx2 : holds h2 x t)
    by (apply (holds_mono h1 h2 _ _ E2), (holds_mono h h1 _ _ E1), Hx).
  pose proof (Hf y eq_refl) as Hd.
  unfold holds, contents in *. cbn [addr rshape].
  destruct (nth_error h2 (addr x)) as [[d|d]|]; try discriminate.
  inversion Hx2; subst t. destruct y as [sy dy]. simpl in Hd. subst dy.
  reflexivity.
Qed.

Lemma sim_dropout d keep x t h :
  holds h x t -> sim holds (dropout_on d keep x) (Some (dropout d keep t)) h.
Proof.
  intros Hx. pose proof (sim_out1 (tot (dropout d keep)) x t h Hx) as S.
  unfold tot in S. revert S. unfold dropout_on, dropout.
  destruct (training d); [|intros _; apply sim_ret; exact Hx].
  destruct (Req_EM_T (p d) 0); [intros _; apply sim_ret; exact Hx|].
  unfold tot. auto.
Qed.

Lemma sim_apply_mask scores mask ts tmask h :
  holds h scores ts -> holds_mask h mask tmask ->
  sim holds (apply_mask_on scores mask) (apply_mask ts tmask) h.
Proof.
  intros Hs Hm. unfold holds_mask, opt_mask_contents in Hm.
  destruct mask as [m|].
  - inv_bind Hm. inversion Hm; subst tmask; clear Hm.
    unfold apply_mask_on, apply_mask.
    apply (sim_bind_val same holds _ _ ts); [apply sim_get; exact Hs|].
    intros s h1 E1 ->.
    apply (sim_bind_val same holds _ _ a).
    { pose proof (sim_ask (mask_contents m) h1) as S.
      rewrite (mask_contents_mono _ _ _ _ E1 E) in S. exact S. }
    intros tm h2 E2 ->. apply sim_lift_new.
  - inversion Hm; subst tmask. apply sim_ret. exact Hs.
Qed.

Lemma sim_linear l lv x t h :
  LinearRef.load h l = Some lv -> holds h x t ->
  sim holds (LinearRef.forward l x) (linear lv t) h.
Proof.
  intros Hl Hx. unfold LinearRef.forward.
  apply (sim_bind_val same holds _ _ lv).
  { pose proof (sim_ask (fun h => LinearRef.load h l) h) as S.
    cbv beta in S. rewrite Hl in S. exact S. }
  intros a h1 E1 ->. apply sim_out1. eapply holds_mono; eauto.
Qed.

Lemma sim_layer_norm l lv x t h :
  LayerNormRef.load h l = Some lv -> holds h x t ->
  sim holds (LayerNormRef.forward l x) (layer_norm lv t) h.
Proof.
  intros Hl Hx. unfold LayerNormRef.forward.
  apply (sim_bind_val same holds _ _ lv).
  { pose proof (sim_ask (fun h => LayerNormRef.load h l) h) as S.
    cbv beta in S. rewrite Hl in S. exact S. }
  intros a h1 E1 ->. apply sim_out1. eapply holds_mono; eauto.
Qed.

Lemma Forall2_holds_mono h h' xs ts :
  extends h h' -> Forall2 (holds h) xs ts -> Forall2 (holds h') xs ts.
Proof.
  intros E H. induction H; constructor; auto. eapply holds_mono; eauto.
Qed.

(** A loop over a list: the results of the earlier iterations are still
    in the store when the loop ends. *)
Lemma sim_mapM {A : Type} (f : A -> M ref) (g : A -> res (Tensor R)) l h :
  (forall a h', In a l -> extends h h' -> sim holds (f a) (g a) h') ->
  sim (fun h => Forall2 (holds h)) (mapM_on f l) (mapM g l) h.
Proof.
  revert h; induction l as [|a l IH]; intros h Hf; simpl.
  - apply (sim_ret (fun h => Forall2 (holds h))). constructor.
  - apply (sim_bind holds); [apply Hf; [left; reflexivity | apply extends_refl]|].
    intros x t h1 E1 Hx.
    apply (sim_bind (fun h => Forall2 (holds h))).
    { apply IH. intros a' h' Ha' E'. apply Hf; [right; exact Ha'|].
      eapply extends_trans; eauto. }
    intros xs ts h2 E2 Hxs.
    apply (sim_ret (fun h => Forall2 (holds h))). constructor; auto.
    eapply holds_mono; eauto.
Qed.

Lemma sim_get_all xs ts h :
  Forall2 (holds h) xs ts -> sim same (mapM_on get xs) (Some ts) h.
Proof.
  revert ts h. induction xs as [|x xs IH]; intros ts h H;
    inversion H; subst; cbn [mapM_on].
  - apply (sim_ret same). reflexivity.
  - apply (sim_bind_val same same _ _ y); [apply sim_get; assumption|].
    intros a h1 E1 ->.
    apply (sim_bind_val same same _ _ l').
    { apply IH. eapply Forall2_holds_mono; eauto. }
    intros b h2 E2 ->. apply (sim_ret same). reflexivity.
Qed.

Lemma sim_cat xs ts h :
  Forall2 (holds h) xs ts -> sim holds (cat_on xs) (cat_last ts) h.
Proof.
  intros H. unfold cat_on.
  apply (sim_bind_val same holds _ _ ts); [apply sim_get_all; exact H|].
  intros a h1 E1 ->. apply sim_lift_new.
Qed.

(** Bringing what is known of a store to a store that extends it. *)
Ltac transport E :=
  repeat match goal with
         | H : holds _ _ _ |- _ => apply (holds_mono _ _ _ _ E) in H
         | H : holds_opt _ _ _ |- _ => apply (holds_opt_mono _ _ _ _ E) in H
         | H : holds_mask _ _ _ |- _ => apply (holds_mask_mono _ _ _ _ E) in H
         | H : LinearRef.load _ _ = Some _ |- _ =>
             apply (linear_load_mono _ _ _ _ E) in H
         | H : LayerNormRef.load _ _ = Some _ |- _ =>
             apply (layer_norm_load_mono _ _ _ _ E) in H
         | H : MultiHeadAttentionRef.load _ _ = Some _ |- _ =>
             apply (mha_load_mono _ _ _ _ E) in H
         | H : SelfAttentionRef.load _ _ = Some _ |- _ =>
             apply (self_load_mono _ _ _ _ E) in H
         | H : HierarchicalTemporalAttentionRef.load _ _ = Some _ |- _ =>
             apply (hta_load_mono _ _ _ _ E) in H
         | H : TransformerEncoderRef.load_layer _ _ = Some _ |- _ =>
             apply (encoder_layer_load_mono _ _ _ _ E) in H
         | H : TransformerEncoderRef.load _ _ = Some _ |- _ =>
             apply (encoder_load_mono _ _ _ _ E) in H
         | H : TransformerDecoderLayerRef.load _ _ = Some _ |- _ =>
             apply (decoder_layer_load_mono _ _ _ _ E) in H
         | H : TransformerDecoderRef.load _ _ = Some _ |- _ =>
             apply (decoder_load_mono _ _ _ _ E) in H
         end.

(** One statement of a method: [L] is the simulation of the operation. *)
Ltac run L :=
  first [ eapply (sim_bind holds); [L |]
        | eapply (sim_bind_val holds); [L |] ];
  let x := fresh "x" in
  let t := fresh "t" in
  let h := fresh "h" in
  let E := fresh "E" in
  let Hx := fresh "Hx" in
  first [ intros x t h E Hx | intros x h E Hx ]; transport E.

(** ** Simulation: the classes *)

Lemma view_infer_data {A : Type} {ZA : Zero A} a c (t y : Tensor A) :
  view_infer a c t = Some y -> data y = data t.
Proof.
  unfold view_infer. destruct (a * c =? 0); [discriminate|].
  destruct (_ =? 0); [|discriminate]. intros E; inversion E; reflexivity.
Qed.

Lemma view_data {A : Type} {ZA : Zero A} sh (t y : Tensor A) :
  view sh t = Some y -> data y = data t.
Proof.
  unfold view. destruct (_ =? _); [|discriminate].
  intros E; inversion E; reflexivity.
Qed.

Lemma mha_load_inv h sm m :
  MultiHeadAttentionRef.load h sm = Some m ->
  MultiHeadAttention.num_heads m = MultiHeadAttentionRef.num_heads sm /\
  MultiHeadAttention.d_model m = MultiHeadAttentionRef.d_model sm /\
  LinearRef.load h (MultiHeadAttentionRef.query_linear sm)
    = Some (MultiHeadAttention.query_linear m) /\
  LinearRef.load h (MultiHeadAttentionRef.key_linear sm)
    = Some (MultiHeadAttention.key_linear m) /\
  LinearRef.load h (MultiHeadAttentionRef.value_linear sm)
    = Some (MultiHeadAttention.value_linear m) /\
  LinearRef.load h (MultiHeadAttentionRef.output_linear sm)
    = Some (MultiHeadAttention.output_linear m).
Proof.
  unfold MultiHeadAttentionRef.load. intros Hl. do 4 inv_bind Hl.
  inversion Hl; subst m. simpl. auto 10.
Qed.

Lemma sim_mha_split_heads sm m B x t h :
  MultiHeadAttentionRef.load h sm = Some m -> holds h x t ->
  sim holds (MultiHeadAttentionRef.split_heads sm B x)
      (MultiHeadAttention.split_heads m B t) h.
Proof.
  intros Hl Hx. destruct (mha_load_inv _ _ _ Hl) as (Hn & Hd & _).
  unfold MultiHeadAttentionRef.split_heads, MultiHeadAttention.split_heads.
  rewrite Hn, Hd.
  apply (sim_bind same); [apply sim_lift|].
  intros dh dh' h1 E1 ->. transport E1.
  apply sim_view_of; [exact Hx|]. intros y. apply view_infer_data.
Qed.

Lemma sim_size0 x t h :
  holds h x t ->
  sim same (mbind (get x) (fun q => lift (size0 q))) (size0 t) h.
Proof.
  intros Hx.
  apply (sim_bind_val same same _ _ t); [apply sim_get; exact Hx|].
  intros a h1 E1 ->. apply sim_lift.
Qed.

Lemma sim_mha_heads sm m q k v tq tk tv h :
  MultiHeadAttentionRef.load h sm = Some m ->
  holds h q tq -> holds h k tk -> holds h v tv ->
  sim holds3 (MultiHeadAttentionRef.heads sm q k v)
      (MultiHeadAttention.heads m tq tk tv) h.
Proof.
  intros Hl Hq Hk Hv.
  unfold MultiHeadAttentionRef.heads, MultiHeadAttention.heads.
  apply (sim_bind same); [apply sim_size0; exact Hq|].
  intros B B' h1 E1 ->. transport E1.
  destruct (mha_load_inv _ _ _ Hl) as (_ & _ & Lq & Lk & Lv & _).
  run ltac:(apply sim_linear; eassumption).
  run ltac:(apply sim_linear; eassumption).
  run ltac:(apply sim_linear; eassumption).
  run ltac:(apply sim_mha_split_heads; eassumption).
  run ltac:(apply sim_mha_split_heads; eassumption).
  run ltac:(apply sim_mha_split_heads; eassumption).
  apply sim_ret. repeat split; assumption.
Qed.

Lemma sim_mha_raw_scores sm m q k tq tk h :
  MultiHeadAttentionRef.load h sm = Some m ->
  holds h q tq -> holds h k tk ->
  sim holds (MultiHeadAttentionRef.raw_scores sm q k)
      (MultiHeadAttention.raw_scores m tq tk) h.
Proof.
  intros Hl Hq Hk. destruct (mha_load_inv _ _ _ Hl) as (Hn & Hd & _).
  unfold MultiHeadAttentionRef.raw_scores, MultiHeadAttention.raw_scores.
  rewrite Hn, Hd.
  run ltac:(apply sim_out1; eassumption).
  run ltac:(apply sim_out2; eassumption).
  apply (sim_bind same); [apply sim_lift|].
  intros dh dh' hd Ed ->. transport Ed.
  apply (sim_out1 (tot (fun s => div_scalar s (sqrt (INR dh'))))).
  assumption.
Qed.

(** [MultiHeadAttention.forward] on the store computes what the function
    of the values computes. *)
Lemma sim_mha_forward sm m q k v mask tq tk tv tmask h :
  MultiHeadAttentionRef.load h sm = Some m ->
  holds h q tq -> holds h k tk -> holds h v tv -> holds_mask h mask tmask ->
  sim holds (MultiHeadAttentionRef.forward sm q k v mask)
      (MultiHeadAttention.forward m tq tk tv tmask) h.
Proof.
  intros Hl Hq Hk Hv Hm.
  unfold MultiHeadAttentionRef.forward, MultiHeadAttention.forward.
  apply (sim_bind same); [apply sim_size0; exact Hq|].
  intros B B' hb Eb ->. transport Eb.
  apply (sim_bind holds3); [apply sim_mha_heads; assumption|].
  intros [[q1 k1] v1] [[tq1 tk1] tv1] hp Ep (Hq1 & Hk1 & Hv1).
  cbn [fst snd] in Hq1, Hk1, Hv1. transport Ep.
  destruct (mha_load_inv _ _ _ Hl) as (_ & Hd & _ & _ & _ & Lo).
  rewrite Hd.
  run ltac:(apply sim_mha_raw_scores; eassumption).
  run ltac:(apply sim_apply_mask; eassumption).
  run ltac:(apply sim_out1; eassumption).
  run ltac:(apply sim_out2; eassumption).
  run ltac:(apply sim_view_of; [eassumption | intros ?; apply view_infer_data]).
  apply sim_linear; assumption.
Qed.

Lemma self_load_inv h sm m :
  SelfAttentionRef.load h sm = Some m ->
  SelfAttention.hidden_dim m = SelfAttentionRef.hidden_dim sm /\
  SelfAttention.num_heads m = SelfAttentionRef.num_heads sm /\
  SelfAttention.head_dim m = SelfAttentionRef.head_dim sm /\
  SelfAttention.dropout_ m = SelfAttentionRef.dropout_ sm /\
  LinearRef.load h (SelfAttentionRef.linear_q sm)
    = Some (SelfAttention.linear_q m) /\
  LinearRef.load h (SelfAttentionRef.linear_k sm)
    = Some (SelfAttention.linear_k m) /\
  LinearRef.load h (SelfAttentionRef.linear_v sm)
    = Some (SelfAttention.linear_v m) /\
  LinearRef.load h (SelfAttentionRef.linear_out sm)
    = Some (SelfAttention.linear_out m).
Proof.
  unfold SelfAttentionRef.load. intros Hl. do 4 inv_bind Hl.
  inversion Hl; subst m. simpl. auto 10.
Qed.

Lemma sim_self_project sm m x bias tx tbias h :
  SelfAttentionRef.load h sm = Some m ->
  holds h x tx -> holds_opt h bias tbias ->
  sim holds3 (SelfAttentionRef.project sm x bias)
      (SelfAttention.project m tx tbias) h.
Proof.
  intros Hl Hx Hb.
  destruct (self_load_inv _ _ _ Hl) as (_ & _ & _ & _ & Lq & Lk & Lv & _).
  unfold SelfAttentionRef.project, SelfAttention.project.
  run ltac:(apply sim_linear; eassumption).
  apply (sim_bind holds) with (v := match tbias with
       | Some b =>
           qx <- linear (SelfAttention.linear_q m) tx ;;
           qb <- linear (SelfAttention.linear_q m) b ;;
           add qx qb
       | None => linear (SelfAttention.linear_q m) tx
       end).
  { unfold holds_opt, opt_contents in Hb. destruct bias as [b|].
    - inv_bind Hb. inversion Hb; subst tbias; clear Hb.
      fold (holds h0 b a) in E0.
      run ltac:(apply sim_linear; eassumption).
      run ltac:(apply sim_linear; eassumption).
      apply sim_out2; assumption.
    - inversion Hb; subst tbias. apply sim_linear; assumption. }
  intros q tq hq Eq Hq. transport Eq.
  run ltac:(apply sim_linear; eassumption).
  apply sim_ret. repeat split; assumption.
Qed.

Lemma sim_self_split_heads sm m B T x t h :
  SelfAttentionRef.load h sm = Some m -> holds h x t ->
  sim holds (SelfAttentionRef.split_heads sm B T x)
      (SelfAttention.split_heads m B T t) h.
Proof.
  intros Hl Hx. destruct (self_load_inv _ _ _ Hl) as (_ & Hn & Hd & _).
  unfold SelfAttentionRef.split_heads, SelfAttention.split_heads.
  rewrite Hn, Hd.
  apply sim_view_of; [exact Hx|]. intros y. apply view_data.
Qed.

Lemma sim_self_raw_scores sm m q k tq tk h :
  SelfAttentionRef.load h sm = Some m ->
  holds h q tq -> holds h k tk ->
  sim holds (SelfAttentionRef.raw_scores sm q k)
      (SelfAttention.raw_scores m tq tk) h.
Proof.
  intros Hl Hq Hk. destruct (self_load_inv _ _ _ Hl) as (_ & _ & Hd & _).
  unfold SelfAttentionRef.raw_scores, SelfAttention.raw_scores.
  rewrite Hd.
  run ltac:(apply sim_out1; eassumption).
  run ltac:(apply sim_out2; eassumption).
  apply (sim_out1 (tot (fun s =>
           div_scalar s (sqrt (INR (SelfAttentionRef.head_dim sm)))))).
  assumption.
Qed.

Lemma sim_self_attend sm m r B T k q v mask tk tq tv tmask h :
  SelfAttentionRef.load h sm = Some m ->
  holds h k tk -> holds h q tq -> holds h v tv -> holds_mask h mask tmask ->
  sim holds2 (SelfAttentionRef.attend sm r B T k q v mask)
      (SelfAttention.attend m r B T tk tq tv tmask) h.
Proof.
  intros Hl Hk Hq Hv Hm.
  destruct (self_load_inv _ _ _ Hl) as (Hh & _ & _ & Hdr & _ & _ & _ & Lo).
  unfold SelfAttentionRef.attend, SelfAttention.attend.
  rewrite Hh, Hdr.
  run ltac:(apply sim_self_split_heads; eassumption).
  run ltac:(apply sim_self_split_heads; eassumption).
  run ltac:(apply sim_self_split_heads; eassumption).
  run ltac:(apply sim_self_raw_scores; eassumption).
  run ltac:(apply sim_apply_mask; eassumption).
  run ltac:(apply sim_out1; eassumption).
  cbv zeta.
  run ltac:(apply sim_dropout; eassumption).
  run ltac:(apply sim_out2; eassumption).
  run ltac:(apply sim_view_of; [eassumption | intros ?; apply view_data]).
  run ltac:(apply sim_linear; eassumption).
  run ltac:(apply sim_dropout; eassumption).
  apply sim_ret. split; assumption.
Qed.

(** [SelfAttention.forward] on the store. *)
Lemma sim_self_forward sm m r x bias mask tx tbias tmask h :
  SelfAttentionRef.load h sm = Some m ->
  holds h x tx -> holds_opt h bias tbias -> holds_mask h mask tmask ->
  sim holds2 (SelfAttentionRef.forward sm r x bias mask)
      (SelfAttention.forward m r tx tbias tmask) h.
Proof.
  intros Hl Hx Hb Hm.
  unfold SelfAttentionRef.forward, SelfAttention.forward.
  rewrite (holds_shape _ _ _ Hx).
  destruct (rshape x) as [|B [|T [|D [|? ?]]]]; try apply sim_fail.
  apply (sim_bind holds3); [apply sim_self_project; assumption|].
  intros [[k1 q1] v1] [[tk1 tq1] tv1] hp Ep (Hk1 & Hq1 & Hv1).
  cbn [fst snd] in Hk1, Hq1, Hv1. transport Ep.
  apply sim_self_attend; assumption.
Qed.

(** A statement that computes a value which is not a tensor. *)
Ltac run_val L :=
  first [ eapply (sim_bind same); [L |]
        | eapply (sim_bind_val same); [L |] ];
  let a := fresh "n" in
  let b := fresh "n" in
  let h := fresh "h" in
  let E := fresh "E" in
  let Hs := fresh "Hs" in
  first [ intros a b h E Hs; unfold same in Hs; subst b
        | intros a h E Hs; unfold same in Hs; subst a ];
  transport E.

Lemma hta_load_inv h sm m :
  HierarchicalTemporalAttentionRef.load h sm = Some m ->
  HierarchicalTemporalAttention.window_sizes m
    = HierarchicalTemporalAttentionRef.window_sizes sm /\
  HierarchicalTemporalAttention.num_levels m
    = HierarchicalTemporalAttentionRef.num_levels sm /\
  HierarchicalTemporalAttention.dropout_ m
    = HierarchicalTemporalAttentionRef.dropout_ sm /\
  mapM (MultiHeadAttentionRef.load h)
       (HierarchicalTemporalAttentionRef.local_attentions sm)
    = Some (HierarchicalTemporalAttention.local_attentions m) /\
  MultiHeadAttentionRef.load h
    (HierarchicalTemporalAttentionRef.global_attention sm)
    = Some (HierarchicalTemporalAttention.global_attention m) /\
  LinearRef.load h (HierarchicalTemporalAttentionRef.linear_out sm)
    = Some (HierarchicalTemporalAttention.linear_out m).
Proof.
  unfold HierarchicalTemporalAttentionRef.load. intros Hl. do 3 inv_bind Hl.
  inversion Hl; subst m. simpl. auto 10.
Qed.

Lemma sim_hta_windows B T D w x t h :
  holds h x t ->
  sim holds (HierarchicalTemporalAttentionRef.windows B T D w x)
      (HierarchicalTemporalAttention.windows B T D w t) h.
Proof.
  intros Hx.
  unfold HierarchicalTemporalAttentionRef.windows,
    HierarchicalTemporalAttention.windows, contiguous.
  cbv zeta.
  run ltac:(apply sim_out1; eassumption).
  run ltac:(apply sim_out1; eassumption).
  run ltac:(apply sim_out1; eassumption).
  apply sim_view_of; [assumption|]. intros y. apply view_data.
Qed.

Lemma sim_hta_level sm m B T D x t level h :
  HierarchicalTemporalAttentionRef.load h sm = Some m -> holds h x t ->
  sim holds (HierarchicalTemporalAttentionRef.level_features sm B T D x level)
      (HierarchicalTemporalAttention.level_features m B T D t level) h.
Proof.
  intros Hl Hx.
  destruct (hta_load_inv _ _ _ Hl) as (Hw & _ & _ & Hls & _ & _).
  unfold HierarchicalTemporalAttentionRef.level_features,
    HierarchicalTemporalAttention.level_features.
  rewrite Hw.
  run_val ltac:(apply sim_lift).
  run ltac:(apply sim_hta_windows; eassumption).
  destruct (hta_load_inv _ _ _ Hl) as (_ & _ & _ & Hls' & _ & _).
  pose proof (mapM_nth_error _ _ _ level Hls') as Hn.
  destruct (nth_error (HierarchicalTemporalAttentionRef.local_attentions sm)
              level) as [a|] eqn:Ea.
  - destruct Hn as (av & -> & Hav). cbn [bind].
    run_val ltac:(apply sim_lift).
    run ltac:(apply (sim_mha_forward a av _ _ _ None _ _ _ None);
              try eassumption; reflexivity).
    run ltac:(apply sim_view_of; [eassumption | intros ?; apply view_data]).
    apply sim_out1; assumption.
  - rewrite Hn. cbn [bind]. unfold mbind, lift, ask. reflexivity.
Qed.

(** [HierarchicalTemporalAttention.forward] on the store. *)
Lemma sim_hta_forward sm m r x bias mask tx tbias tmask h :
  HierarchicalTemporalAttentionRef.load h sm = Some m -> holds h x tx ->
  sim holds_pair_opt (HierarchicalTemporalAttentionRef.forward sm r x bias mask)
      (HierarchicalTemporalAttention.forward m r tx tbias tmask) h.
Proof.
  intros Hl Hx.
  destruct (hta_load_inv _ _ _ Hl) as (_ & Hn & Hdr & _ & _ & _).
  unfold HierarchicalTemporalAttentionRef.forward,
    HierarchicalTemporalAttention.forward.
  rewrite (holds_shape _ _ _ Hx), Hn, Hdr.
  destruct (rshape x) as [|B [|T [|D [|? ?]]]]; try apply sim_fail.
  apply (sim_bind (fun h => Forall2 (holds h))).
  { apply sim_mapM. intros level h' _ E'. transport E'.
    apply sim_hta_level; assumption. }
  intros ls tls hl El Hls. transport El.
  destruct (hta_load_inv _ _ _ Hl) as (_ & _ & _ & _ & Lg & Lo).
  run ltac:(apply (sim_mha_forward _ _ _ _ _ None _ _ _ None);
            try eassumption; reflexivity).
  run ltac:(apply sim_cat; apply Forall2_app;
            [eapply Forall2_holds_mono; eassumption
            | constructor; [eassumption | constructor]]).
  run ltac:(apply sim_linear; eassumption).
  cbv zeta.
  run ltac:(apply sim_dropout; eassumption).
  apply (sim_ret holds_pair_opt). split; [assumption | reflexivity].
Qed.

Lemma encoder_layer_load_inv h sl l :
  TransformerEncoderRef.load_layer h sl = Some l ->
  HierarchicalTemporalAttentionRef.load h
    (TransformerEncoderRef.temporal_attention sl)
    = Some (TransformerEncoder.temporal_attention l) /\
  LinearRef.load h (TransformerEncoderRef.linear1 sl)
    = Some (TransformerEncoder.linear1 l) /\
  LinearRef.load h (TransformerEncoderRef.linear2 sl)
    = Some (TransformerEncoder.linear2 l) /\
  LayerNormRef.load h (TransformerEncoderRef.norm1 sl)
    = Some (TransformerEncoder.norm1 l) /\
  LayerNormRef.load h (TransformerEncoderRef.norm2 sl)
    = Some (TransformerEncoder.norm2 l).
Proof.
  unfold TransformerEncoderRef.load_layer. intros Hl. do 5 inv_bind Hl.
  inversion Hl; subst l. simpl. auto 10.
Qed.

Lemma sim_encoder_layer gelu sm m r sl l x bias mask tx tbias tmask h :
  TransformerEncoder.dropout_ m = TransformerEncoderRef.dropout_ sm ->
  TransformerEncoderRef.load_layer h sl = Some l -> holds h x tx ->
  sim holds (TransformerEncoderRef.layer_forward gelu sm r sl x bias mask)
      (TransformerEncoder.layer_forward gelu m r l tx tbias tmask) h.
Proof.
  intros Hdr Hl Hx.
  destruct (encoder_layer_load_inv _ _ _ Hl) as (La & L1 & L2 & N1 & N2).
  unfold TransformerEncoderRef.layer_forward, TransformerEncoder.layer_forward.
  rewrite Hdr.
  apply (sim_bind holds_pair_opt);
    [apply sim_hta_forward; assumption|].
  intros [a w] [ta tw] ha Ea [Ha _]. cbn [fst] in Ha. transport Ea.
  run ltac:(apply sim_dropout; eassumption).
  run ltac:(apply sim_out2; eassumption).
  run ltac:(apply sim_layer_norm; eassumption).
  run ltac:(apply sim_linear; eassumption).
  run ltac:(apply (sim_out1 (tot (TransformerEncoder.F_gelu gelu)));
            eassumption).
  run ltac:(apply sim_linear; eassumption).
  run ltac:(apply sim_dropout; eassumption).
  run ltac:(apply sim_out2; eassumption).
  apply sim_layer_norm; assumption.
Qed.

Lemma sim_encoder_run gelu sm m r sls ls bias mask tbias tmask :
  TransformerEncoder.dropout_ m = TransformerEncoderRef.dropout_ sm ->
  forall i x tx h,
    mapM (TransformerEncoderRef.load_layer h) sls = Some ls -> holds h x tx ->
    sim holds (TransformerEncoderRef.run_layers gelu sm r i sls x bias mask)
        (TransformerEncoder.run_layers gelu m r i ls tx tbias tmask) h.
Proof.
  intros Hdr. revert ls.
  induction sls as [|sl sls IH]; intros ls i x tx h Hls Hx; simpl in Hls.
  - inversion Hls; subst ls. simpl. apply sim_ret. exact Hx.
  - inv_bind Hls. inv_bind Hls. inversion Hls; subst ls. simpl.
    apply (sim_bind holds);
      [apply (sim_encoder_layer gelu sm m); assumption|].
    intros y ty hy Ey Hy.
    apply IH; [|exact Hy].
    apply (mapM_mono (TransformerEncoderRef.load_layer h)); [|exact E0].
    intros ? ? _. apply encoder_layer_load_mono. exact Ey.
Qed.

(** [TransformerEncoder.forward] on the store. *)
Lemma sim_encoder_forward gelu sm m r x bias mask tx tbias tmask h :
  TransformerEncoderRef.load h sm = Some m -> holds h x tx ->
  sim holds_pair_opt (TransformerEncoderRef.forward gelu sm r x bias mask)
      (TransformerEncoder.forward gelu m r tx tbias tmask) h.
Proof.
  intros Hl Hx. unfold TransformerEncoderRef.load in Hl. inv_bind Hl.
  inversion Hl; subst m; clear Hl.
  unfold TransformerEncoderRef.forward, TransformerEncoder.forward.
  cbn [TransformerEncoder.layers].
  apply (sim_bind holds).
  { apply (sim_encoder_run gelu sm); [reflexivity | exact E | exact Hx]. }
  intros y ty hy Ey Hy.
  apply (sim_ret holds_pair_opt). split; [exact Hy | reflexivity].
Qed.

Lemma decoder_layer_load_inv h sm m :
  TransformerDecoderLayerRef.load h sm = Some m ->
  MultiHeadAttentionRef.load h (TransformerDecoderLayerRef.self_attention sm)
    = Some (TransformerDecoderLayer.self_attention m) /\
  LayerNormRef.load h (TransformerDecoderLayerRef.self_attention_norm sm)
    = Some (TransformerDecoderLayer.self_attention_norm m) /\
  MultiHeadAttentionRef.load h (TransformerDecoderLayerRef.enc_attention sm)
    = Some (TransformerDecoderLayer.enc_attention m) /\
  LayerNormRef.load h (TransformerDecoderLayerRef.enc_attention_norm sm)
    = Some (TransformerDecoderLayer.enc_attention_norm m) /\
  LinearRef.load h (TransformerDecoderLayerRef.ff_linear1 sm)
    = Some (TransformerDecoderLayer.ff_linear1 m) /\
  LinearRef.load h (TransformerDecoderLayerRef.ff_linear2 sm)
    = Some (TransformerDecoderLayer.ff_linear2 m) /\
  LayerNormRef.load h (TransformerDecoderLayerRef.feed_forward_norm sm)
    = Some (TransformerDecoderLayer.feed_forward_norm m) /\
  TransformerDecoderLayer.ff_dropout1 m
    = TransformerDecoderLayerRef.ff_dropout1 sm /\
  TransformerDecoderLayer.ff_dropout2 m
    = TransformerDecoderLayerRef.ff_dropout2 sm /\
  TransformerDecoderLayer.dropout_ m = TransformerDecoderLayerRef.dropout_ sm.
Proof.
  unfold TransformerDecoderLayerRef.load. intros Hl. do 7 inv_bind Hl.
  inversion Hl; subst m. simpl. auto 12.
Qed.

Lemma sim_decoder_feed_forward sm m r x tx h :
  TransformerDecoderLayerRef.load h sm = Some m -> holds h x tx ->
  sim holds (TransformerDecoderLayerRef.feed_forward sm r x)
      (TransformerDecoderLayer.feed_forward m r tx) h.
Proof.
  intros Hl Hx.
  destruct (decoder_layer_load_inv _ _ _ Hl)
    as (_ & _ & _ & _ & L1 & L2 & _ & D1 & D2 & _).
  unfold TransformerDecoderLayerRef.feed_forward,
    TransformerDecoderLayer.feed_forward.
  rewrite D1, D2.
  run ltac:(apply sim_linear; eassumption).
  cbv zeta.
  run ltac:(apply (sim_out1 (tot relu)); eassumption).
  run ltac:(apply sim_dropout; eassumption).
  run ltac:(apply sim_linear; eassumption).
  apply sim_dropout; assumption.
Qed.

Lemma sim_decoder_cross sm m keep tgt2 mem mask ttgt2 tmem tmask h :
  TransformerDecoderLayerRef.load h sm = Some m ->
  holds h tgt2 ttgt2 -> holds h mem tmem -> holds_mask h mask tmask ->
  sim holds (TransformerDecoderLayerRef.cross sm keep tgt2 mem mask)
      (TransformerDecoderLayer.cross m keep ttgt2 tmem tmask) h.
Proof.
  intros Hl Ht Hm Hk.
  destruct (decoder_layer_load_inv _ _ _ Hl)
    as (_ & _ & Le & Ne & _ & _ & _ & _ & _ & Dr).
  unfold TransformerDecoderLayerRef.cross, TransformerDecoderLayer.cross.
  rewrite Dr.
  run ltac:(apply sim_mha_forward; eassumption).
  run ltac:(apply sim_dropout; eassumption).
  run ltac:(apply sim_out2; eassumption).
  apply sim_layer_norm; assumption.
Qed.

(** [TransformerDecoderLayer.forward] on the store. *)
Lemma sim_decoder_layer_forward sm m r tgt memory memo2 tgt_mask memory_mask
    ttgt tmemory tmemo2 ttgt_mask tmemory_mask h :
  TransformerDecoderLayerRef.load h sm = Some m ->
  holds h tgt ttgt -> holds h memory tmemory -> holds_opt h memo2 tmemo2 ->
  holds_mask h tgt_mask ttgt_mask -> holds_mask h memory_mask tmemory_mask ->
  sim holds
      (TransformerDecoderLayerRef.forward sm r tgt memory memo2 tgt_mask
         memory_mask)
      (TransformerDecoderLayer.forward m r ttgt tmemory tmemo2 ttgt_mask
         tmemory_mask) h.
Proof.
  intros Hl Ht Hmem Hmemo Htm Hmm.
  destruct (decoder_layer_load_inv _ _ _ Hl)
    as (Ls & Ns & _ & _ & _ & _ & Nf & _ & _ & Dr).
  unfold TransformerDecoderLayerRef.forward, TransformerDecoderLayer.forward.
  rewrite Dr.
  run ltac:(apply sim_mha_forward; eassumption).
  run ltac:(apply sim_dropout; eassumption).
  run ltac:(apply sim_out2; eassumption).
  run ltac:(apply sim_layer_norm; eassumption).
  run ltac:(apply sim_decoder_cross; eassumption).
  eapply (sim_bind holds).
  { unfold holds_opt, opt_contents in Hmemo. destruct memo2 as [memo3|].
    - inv_bind Hmemo. inversion Hmemo; subst tmemo2; clear Hmemo.
      match goal with E : contents memo3 ?hh = Some ?a |- _ =>
        fold (holds hh memo3 a) in E end.
      run ltac:(apply sim_decoder_cross; eassumption).
      run ltac:(apply sim_out2; eassumption).
      apply (sim_out1 (tot (fun s => div_scalar s 2))). assumption.
    - inversion Hmemo; subst tmemo2. apply sim_ret. assumption. }
  intros tgt3 ttgt3 hc Ec Ht3. transport Ec.
  run ltac:(apply sim_decoder_feed_forward; eassumption).
  run ltac:(apply sim_dropout; eassumption).
  run ltac:(apply sim_out2; eassumption).
  apply sim_layer_norm; assumption.
Qed.

Lemma decoder_load_inv h sm m :
  TransformerDecoderRef.load h sm = Some m ->
  TransformerDecoder.num_layers m = TransformerDecoderRef.num_layers sm /\
  mapM (TransformerDecoderLayerRef.load h) (TransformerDecoderRef.layers sm)
    = Some (TransformerDecoder.layers m) /\
  LayerNormRef.load h (TransformerDecoderRef.norm_att sm)
    = Some (TransformerDecoder.norm_att m).
Proof.
  unfold TransformerDecoderRef.load. intros Hl. do 5 inv_bind Hl.
  inversion Hl; subst m. simpl. auto.
Qed.

Lemma holds_opt_some h x t : holds h x t -> holds_opt h (Some x) (Some t).
Proof.
  unfold holds, holds_opt, opt_contents. intros ->. reflexivity.
Qed.

Lemma sim_decoder_step sm m r memory memo2 embedding tgt_mask memory_mask tgt i
    tmemory tmemo2 tembedding ttgt_mask tmemory_mask ttgt h :
  TransformerDecoderRef.load h sm = Some m ->
  holds h tgt ttgt -> holds h memory tmemory -> holds_opt h memo2 tmemo2 ->
  holds_opt h embedding tembedding ->
  holds_mask h tgt_mask ttgt_mask -> holds_mask h memory_mask tmemory_mask ->
  sim holds
      (TransformerDecoderRef.step sm r memory memo2 embedding tgt_mask
         memory_mask tgt i)
      (TransformerDecoder.step m r tmemory tmemo2 tembedding ttgt_mask
         tmemory_mask ttgt i) h.
Proof.
  intros Hl Ht Hmem Hmemo Hemb Htm Hmm.
  destruct (decoder_load_inv _ _ _ Hl) as (_ & _ & Nn).
  unfold TransformerDecoderRef.step, TransformerDecoder.step.
  eapply (sim_bind holds).
  { unfold holds_opt, opt_contents in Hemb. destruct embedding as [e|].
    - inv_bind Hemb. inversion Hemb; subst tembedding; clear Hemb.
      match goal with E : contents e ?hh = Some ?a |- _ =>
        fold (holds hh e a) in E end.
      run ltac:(apply sim_out2; eassumption).
      apply sim_layer_norm; assumption.
    - inversion Hemb; subst tembedding. apply sim_layer_norm; assumption. }
  intros norm_tgt tnorm_tgt hn En Hnt. transport En.
  run ltac:(apply sim_layer_norm; eassumption).
  eapply (sim_bind holds).
  { unfold holds_opt, opt_contents in Hmemo. destruct memo2 as [memo3|].
    - inv_bind Hmemo. inversion Hmemo; subst tmemo2; clear Hmemo.
      match goal with E : contents memo3 ?hh = Some ?a |- _ =>
        fold (holds hh memo3 a) in E end.
      apply sim_layer_norm; eassumption.
    - inversion Hmemo; subst tmemo2. apply sim_ret. eassumption. }
  intros norm_memo2 tnorm_memo2 hm Em Hnm. transport Em.
  destruct (decoder_load_inv _ _ _ Hl) as (_ & Hls & _).
  pose proof (mapM_nth_error _ _ _ i Hls) as Hn.
  destruct (nth_error (TransformerDecoderRef.layers sm) i) as [l|] eqn:El.
  - destruct Hn as (lv & -> & Hlv). cbn [bind].
    run_val ltac:(apply sim_lift).
    apply sim_decoder_layer_forward; try assumption.
    apply holds_opt_some. assumption.
  - rewrite Hn. cbn [bind]. unfold mbind, lift, ask. reflexivity.
Qed.

Lemma sim_decoder_run sm m r memory memo2 embedding tgt_mask memory_mask
    tmemory tmemo2 tembedding ttgt_mask tmemory_mask idx :
  forall tgt ttgt h,
    TransformerDecoderRef.load h sm = Some m ->
    holds h tgt ttgt -> holds h memory tmemory -> holds_opt h memo2 tmemo2 ->
    holds_opt h embedding tembedding ->
    holds_mask h tgt_mask ttgt_mask -> holds_mask h memory_mask tmemory_mask ->
    sim holds
        (TransformerDecoderRef.run sm r memory memo2 embedding tgt_mask
           memory_mask tgt idx)
        (TransformerDecoder.run m r tmemory tmemo2 tembedding ttgt_mask
           tmemory_mask ttgt idx) h.
Proof.
  induction idx as [|i idx IH]; intros tgt ttgt h Hl Ht Hmem Hmemo Hemb Htm Hmm;
    simpl.
  - apply sim_ret. exact Ht.
  - run ltac:(apply (sim_decoder_step sm m); eassumption).
    apply IH; assumption.
Qed.

(** [TransformerDecoder.forward] on the store. *)
Lemma sim_decoder_forward sm m r tgt memory memo2 embedding tgt_mask
    memory_mask ttgt tmemory tmemo2 tembedding ttgt_mask tmemory_mask h :
  TransformerDecoderRef.load h sm = Some m ->
  holds h tgt ttgt -> holds h memory tmemory -> holds_opt h memo2 tmemo2 ->
  holds_opt h embedding tembedding ->
  holds_mask h tgt_mask ttgt_mask -> holds_mask h memory_mask tmemory_mask ->
  sim holds
      (TransformerDecoderRef.forward sm r tgt memory memo2 embedding tgt_mask
         memory_mask)
      (TransformerDecoder.forward m r ttgt tmemory tmemo2 tembedding ttgt_mask
         tmemory_mask) h.
Proof.
  intros Hl Ht Hmem Hmemo Hemb Htm Hmm.
  unfold TransformerDecoderRef.forward, TransformerDecoder.forward.
  destruct (decoder_load_inv _ _ _ Hl) as (-> & _ & _).
  apply sim_decoder_run; assumption.
Qed.

(** ** Calls that are functions of the values in the store *)

Lemma sim_outcome c v h : sim holds c v h -> outcome c h = v.
Proof.
  unfold sim, outcome. destruct v as [t|].
  - intros (a & h' & -> & _ & Ha). exact Ha.
  - intros ->. reflexivity.
Qed.

Lemma sim_outcome2 c v h : sim holds2 c v h -> outcome2 c h = v.
Proof.
  unfold sim, outcome2. destruct v as [[t1 t2]|].
  - intros ([a1 a2] & h' & -> & _ & H1 & H2). cbn [fst snd] in H1, H2.
    unfold holds in H1, H2. rewrite H1, H2. reflexivity.
  - intros ->. reflexivity.
Qed.

Lemma sim_outcome_opt c v h : sim holds_pair_opt c v h -> outcome_opt c h = v.
Proof.
  unfold sim, outcome_opt. destruct v as [[t1 t2]|].
  - intros ([a1 a2] & h' & -> & _ & H1 & H2). cbn [fst snd] in H1, H2.
    unfold holds in H1. unfold holds_opt in H2. rewrite H1, H2. reflexivity.
  - intros ->. reflexivity.
Qed.

Lemma pure_call_sim {A V : Type} (Rel : heap -> A -> V -> Prop)
    (read : M A -> heap -> res V) (c : rng -> M A) h v :
  (forall c0 v0 h0, sim Rel c0 v0 h0 -> read c0 h0 = v0) ->
  (forall r h', extends h h' -> sim Rel (c r) v h') ->
  pure_call read c h v.
Proof.
  intros Hread Hsim. split.
  - intros r. apply Hread, Hsim, extends_refl.
  - intros r a h' Hc.
    pose proof (Hsim r h (extends_refl h)) as S. unfold sim in S.
    destruct v as [b|]; [|congruence].
    destruct S as (a0 & h0 & Hc0 & E & _).
    rewrite Hc in Hc0. inversion Hc0; subst a0 h0.
    split; [apply extends_unchanged; exact E|].
    intros r'. apply Hread, Hsim, E.
Qed.

(** A write through a handle is seen by [unchanged]: the statement below
    would not hold of a method that used an in-place operation on one of
    its arguments. *)
Lemma put_changes_store :
  exists h', put x111_ref x011 store1 = Some (tt, h') /\ ~ unchanged store1 h'.
Proof.
  eexists. split; [reflexivity|].
  intros U. specialize (U 4 ltac:(simpl; lia)). simpl in U. discriminate.
Qed.

(** C9.  With dropout disabled, every [forward] of the module is a
    function of the values of its input tensors and of the parameters, and
    writes to neither.  In a store [h] that holds the parameters of the six
    modules, for arguments given by handles into [h]: whatever keep-masks
    the runtime draws, the call raises or returns tensors exactly as the
    function of the values of the arguments and parameters says, so that
    two calls on equal tensors and parameters give equal results; and the
    store that the call leaves has every cell of [h], the buffers of the
    inputs and of the parameters among them, unchanged, so that a second
    call gives the same result again ([pure_call]). *)
Theorem forward_deterministic
    (gelu : R -> R) (h : heap)
    (mhaR : MultiHeadAttentionRef.t) (mha : MultiHeadAttention.t)
    (saR : SelfAttentionRef.t) (sa : SelfAttention.t)
    (htaR : HierarchicalTemporalAttentionRef.t)
    (hta : HierarchicalTemporalAttention.t)
    (encR : TransformerEncoderRef.t) (enc : TransformerEncoder.t)
    (dlR : TransformerDecoderLayerRef.t) (dl : TransformerDecoderLayer.t)
    (decR : TransformerDecoderRef.t) (dec : TransformerDecoder.t) :
  MultiHeadAttentionRef.load h mhaR = Some mha ->
  SelfAttentionRef.load h saR = Some sa ->
  HierarchicalTemporalAttentionRef.load h htaR = Some hta ->
  TransformerEncoderRef.load h encR = Some enc ->
  TransformerDecoderLayerRef.load h dlR = Some dl ->
  TransformerDecoderRef.load h decR = Some dec ->
  dropout_off (SelfAttention.dropout_ sa) ->
  hta_dropout_off hta ->
  encoder_dropout_off enc ->
  decoder_layer_dropout_off dl ->
  decoder_dropout_off dec ->
  (forall query key value mask tq tk tv tmask,
      holds h query tq -> holds h key tk -> holds h value tv ->
      holds_mask h mask tmask ->
      pure_call outcome
        (fun _ => MultiHeadAttentionRef.forward mhaR query key value mask) h
        (MultiHeadAttention.forward mha tq tk tv tmask)) /\
  (forall r0 x bias mask tx tbias tmask,
      holds h x tx -> holds_opt h bias tbias -> holds_mask h mask tmask ->
      pure_call outcome2
        (fun r => SelfAttentionRef.forward saR r x bias mask) h
        (SelfAttention.forward sa r0 tx tbias tmask)) /\
  (forall r0 x bias mask tx tbias tmask,
      holds h x tx -> holds_opt h bias tbias -> holds_mask h mask tmask ->
      pure_call outcome_opt
        (fun r => HierarchicalTemporalAttentionRef.forward htaR r x bias mask)
        h (HierarchicalTemporalAttention.forward hta r0 tx tbias tmask)) /\
  (forall r0 x bias mask tx tbias tmask,
      holds h x tx -> holds_opt h bias tbias -> holds_mask h mask tmask ->
      pure_call outcome_opt
        (fun r => TransformerEncoderRef.forward gelu encR r x bias mask) h
        (TransformerEncoder.forward gelu enc r0 tx tbias tmask)) /\
  (forall r0 tgt memory memo2 tgt_mask memory_mask
          ttgt tmemory tmemo2 ttgt_mask tmemory_mask,
      holds h tgt ttgt -> holds h memory tmemory ->
      holds_opt h memo2 tmemo2 ->
      holds_mask h tgt_mask ttgt_mask ->
      holds_mask h memory_mask tmemory_mask ->
      pure_call outcome
        (fun r => TransformerDecoderLayerRef.forward dlR r tgt memory memo2
                    tgt_mask memory_mask) h
        (TransformerDecoderLayer.forward dl r0 ttgt tmemory tmemo2 ttgt_mask
           tmemory_mask)) /\
  (forall r0 tgt memory memo2 embedding tgt_mask memory_mask
          ttgt tmemory tmemo2 tembedding ttgt_mask tmemory_mask,
      holds h tgt ttgt -> holds h memory tmemory ->
      holds_opt h memo2 tmemo2 -> holds_opt h embedding tembedding ->
      holds_mask h tgt_mask ttgt_mask ->
      holds_mask h memory_mask tmemory_mask ->
      pure_call outcome
        (fun r => TransformerDecoderRef.forward decR r tgt memory memo2
                    embedding tgt_mask memory_mask) h
        (TransformerDecoder.forward dec r0 ttgt tmemory tmemo2 tembedding
           ttgt_mask tmemory_mask)).
Proof.
  intros Lmha Lsa Lhta Lenc Ldl Ldec Dsa Dhta Denc Ddl Ddec.
  split; [|split; [|split; [|split; [|split]]]].
  - intros query key value mask tq tk tv tmask Hq Hk Hv Hm.
    apply (pure_call_sim holds); [apply sim_outcome|].
    intros r h' E. transport E. apply sim_mha_forward; assumption.
  - intros r0 x bias mask tx tbias tmask Hx Hb Hm.
    apply (pure_call_sim holds2); [apply sim_outcome2|].
    intros r h' E. transport E.
    rewrite (self_attention_rng sa r0 r tx tbias tmask Dsa).
    apply sim_self_forward; assumption.
  - intros r0 x bias mask tx tbias tmask Hx Hb Hm.
    apply (pure_call_sim holds_pair_opt); [apply sim_outcome_opt|].
    intros r h' E. transport E.
    rewrite (hta_rng hta r0 r tx tbias tmask Dhta).
    apply sim_hta_forward; assumption.
  - intros r0 x bias mask tx tbias tmask Hx Hb Hm.
    apply (pure_call_sim holds_pair_opt); [apply sim_outcome_opt|].
    intros r h' E. transport E.
    rewrite (encoder_rng gelu enc r0 r tx tbias tmask Denc).
    apply sim_encoder_forward; assumption.
  - intros r0 tgt memory memo2 tgt_mask memory_mask
      ttgt tmemory tmemo2 ttgt_mask tmemory_mask Ht Hmem Hmemo Htm Hmm.
    apply (pure_call_sim holds); [apply sim_outcome|].
    intros r h' E. transport E.
    rewrite (decoder_layer_rng dl r0 r ttgt tmemory tmemo2 ttgt_mask
               tmemory_mask Ddl).
    apply sim_decoder_layer_forward; assumption.
  - intros r0 tgt memory memo2 embedding tgt_mask memory_mask
      ttgt tmemory tmemo2 tembedding ttgt_mask tmemory_mask
      Ht Hmem Hmemo Hemb Htm Hmm.
    apply (pure_call_sim holds); [apply sim_outcome|].
    intros r h' E. transport E.
    rewrite (decoder_rng dec r0 r ttgt tmemory tmemo2 tembedding ttgt_mask
               tmemory_mask Ddec).
    apply sim_decoder_forward; assumption.
Qed.

Lemma forward_deterministic_witness :
  MultiHeadAttentionRef.load store1 mha1_ref = Some mha1 /\
  SelfAttentionRef.load store1 sa1_ref = Some sa1 /\
  HierarchicalTemporalAttentionRef.load store1 hta1_ref = Some hta1 /\
  TransformerEncoderRef.load store1 enc1_ref = Some enc1 /\
  TransformerDecoderLayerRef.load store1 dl1_ref = Some dl1 /\
  TransformerDecoderRef.load store1 dec1_ref = Some dec1 /\
  dropout_off (SelfAttention.dropout_ sa1) /\
  hta_dropout_off hta1 /\
  encoder_dropout_off enc1 /\
  decoder_layer_dropout_off dl1 /\
  decoder_dropout_off dec1 /\
  holds store1 x111_ref x111 /\
  holds_mask store1 (Some ones111_ref) (Some ones111) /\
  pure_call outcome
    (fun _ => MultiHeadAttentionRef.forward mha1_ref x111_ref x111_ref
                x111_ref (Some ones111_ref)) store1
    (MultiHeadAttention.forward mha1 x111 x111 x111 (Some ones111)) /\
  pure_call outcome2
    (fun r => SelfAttentionRef.forward sa1_ref r x111_ref (Some x111_ref)
                (Some ones111_ref)) store1
    (SelfAttention.forward sa1 keep_all x111 (Some x111) (Some ones111)) /\
  pure_call outcome_opt
    (fun r => HierarchicalTemporalAttentionRef.forward hta1_ref r x111_ref
                None None) store1
    (HierarchicalTemporalAttention.forward hta1 keep_all x111 None None) /\
  pure_call outcome_opt
    (fun r => TransformerEncoderRef.forward act1 enc1_ref r x111_ref
                None None) store1
    (TransformerEncoder.forward act1 enc1 keep_all x111 None None) /\
  pure_call outcome
    (fun r => TransformerDecoderLayerRef.forward dl1_ref r x111_ref x111_ref
                (Some x111_ref) (Some ones111_ref) None) store1
    (TransformerDecoderLayer.forward dl1 keep_all x111 x111 (Some x111)
       (Some ones111) None) /\
  pure_call outcome
    (fun r => TransformerDecoderRef.forward dec1_ref r x111_ref x111_ref
                None (Some x111_ref) (Some ones111_ref) None) store1
    (TransformerDecoder.forward dec1 keep_all x111 x111 None (Some x111)
       (Some ones111) None).
Proof.
  assert (Lmha : MultiHeadAttentionRef.load store1 mha1_ref = Some mha1)
    by reflexivity.
  assert (Lsa : SelfAttentionRef.load store1 sa1_ref = Some sa1)
    by reflexivity.
  assert (Lhta : HierarchicalTemporalAttentionRef.load store1 hta1_ref
                 = Some hta1) by reflexivity.
  assert (Lenc : TransformerEncoderRef.load store1 enc1_ref = Some enc1)
    by reflexivity.
  assert (Ldl : TransformerDecoderLayerRef.load store1 dl1_ref = Some dl1)
    by reflexivity.
  assert (Ldec : TransformerDecoderRef.load store1 dec1_ref = Some dec1)
    by reflexivity.
  assert (Hoff : dropout_off drop_eval) by (left; reflexivity).
  assert (Hhta : hta_dropout_off hta1) by exact Hoff.
  assert (Henc : encoder_dropout_off enc1)
    by (split; [exact Hoff | repeat constructor; exact Hoff]).
  assert (Hdl : decoder_layer_dropout_off dl1) by (repeat split; exact Hoff).
  assert (Hdec : decoder_dropout_off dec1) by (repeat constructor; exact Hoff).
  assert (Hx : holds store1 x111_ref x111) by reflexivity.
  assert (Hm : holds_mask store1 (Some ones111_ref) (Some ones111))
    by reflexivity.
  assert (Hsx : holds_opt store1 (Some x111_ref) (Some x111)) by reflexivity.
  assert (Hn : holds_opt store1 None None) by reflexivity.
  assert (Hmn : holds_mask store1 None None) by reflexivity.
  destruct (forward_deterministic act1 store1 mha1_ref mha1 sa1_ref sa1
              hta1_ref hta1 enc1_ref enc1 dl1_ref dl1 dec1_ref dec1
              Lmha Lsa Lhta Lenc Ldl Ldec Hoff Hhta Henc Hdl Hdec)
    as (Cmha & Csa & Chta & Cenc & Cdl & Cdec).
  repeat (split; [assumption|]).
  split; [apply Cmha; assumption|].
  split; [apply Csa; assumption|].
  split; [apply Chta; assumption|].
  split; [apply Cenc; assumption|].
  split; [apply Cdl; assumption|].
  apply Cdec; assumption.
Defined.
